(** * The hit-judging engine of the bass practice game (desktop build)

    A shallow embedding of the Go packages [song], [audio] and [game]
    (hit detector, score/combo state, timing classifier, pitch matcher),
    of the loader and of the game methods of the desktop application,
    together with the game store of the web build, and the properties of
    the engine stated over them.

    Modelling conventions.
    - Go [int] is a 64-bit two's-complement integer (the build targets
      are amd64 and arm64): a [Z] with the wrap-around written out
      ([Go.wrap64]).
    - Go [float64] and [float32] values (times, frequencies, screen
      coordinates) are modelled as exact rationals [Q]: every comparison of
      the source is a comparison of rationals, sums and differences are
      exact (no rounding), there is no NaN and no infinity.
    - [math.Log2], [math.Pow] and the [strings] functions used by the tuning
      parser belong to the Go standard library; they are taken as
      parameters ([Externals]), and so is [sort.Slice] ([SortPackage]).
    - A run-time panic (slice index out of range) is the result [None].
    - [time.Now()] is an explicit argument [now] (seconds, one reading per
      call of a modelled method).
    - Go strings are byte strings: Rocq [string]. *)

From Stdlib Require Import ZArith QArith Qabs Lia Lqa String Ascii List.
From stdpp Require Import gmap strings list fin_maps pretty sorting.

Open Scope Z_scope.

(** * Go primitives *)

Module Go.

Definition int_min : Z := - 2 ^ 63.
Definition int_max : Z := 2 ^ 63 - 1.

(** Truncation of a mathematical integer to [int] (64 bits). *)
Definition wrap64 (z : Z) : Z := (z + 2 ^ 63) mod 2 ^ 64 - 2 ^ 63.

(** Conversion [rune(x)] of an [int]: truncation to [int32]. *)
Definition wrap32 (z : Z) : Z := (z + 2 ^ 31) mod 2 ^ 32 - 2 ^ 31.

Definition is_int (z : Z) : Prop := int_min <= z <= int_max.

Definition add (x y : Z) : Z := wrap64 (x + y).
Definition mul (x y : Z) : Z := wrap64 (x * y).
(** [x / y] and [x % y] on [int]: truncated towards zero. *)
Definition div (x y : Z) : Z := wrap64 (Z.quot x y).
Definition rem (x y : Z) : Z := Z.rem x y.

Definition len {A : Type} (l : list A) : Z := Z.of_nat (length l).

(** [l[i]] for an [int] index: panics ([None]) out of range. *)
Definition index {A : Type} (l : list A) (i : Z) : option A :=
  if i <? 0 then None else l !! Z.to_nat i.

Definition byte (z : Z) : ascii := ascii_of_N (Z.to_N (z mod 256)).

(** [string(r)] for a rune [r]: its UTF-8 encoding, U+FFFD for an invalid
    code point. *)
Definition string_of_rune (r : Z) : string :=
  if (r <? 0) || (0x10FFFF <? r) || ((0xD800 <=? r) && (r <=? 0xDFFF))
  then String (byte 0xEF) (String (byte 0xBF) (String (byte 0xBD) EmptyString))
  else if r <? 0x80 then String (byte r) EmptyString
  else if r <? 0x800 then
    String (byte (Z.lor 0xC0 (Z.shiftr r 6)))
      (String (byte (Z.lor 0x80 (Z.land r 0x3F))) EmptyString)
  else if r <? 0x10000 then
    String (byte (Z.lor 0xE0 (Z.shiftr r 12)))
      (String (byte (Z.lor 0x80 (Z.land (Z.shiftr r 6) 0x3F)))
         (String (byte (Z.lor 0x80 (Z.land r 0x3F))) EmptyString))
  else
    String (byte (Z.lor 0xF0 (Z.shiftr r 18)))
      (String (byte (Z.lor 0x80 (Z.land (Z.shiftr r 12) 0x3F)))
         (String (byte (Z.lor 0x80 (Z.land (Z.shiftr r 6) 0x3F)))
            (String (byte (Z.lor 0x80 (Z.land r 0x3F))) EmptyString))).

(** [string(rune('0' + n))] for an [int] [n]. *)
Definition digit_string (n : Z) : string :=
  string_of_rune (wrap32 (add 48 n)).

(** Comparisons of [float64] values. *)
Definition fle (x y : Q) : bool := Qle_bool x y.
Definition flt (x y : Q) : bool := negb (Qle_bool y x).
Definition fgt (x y : Q) : bool := flt y x.

End Go.

(** The Go standard-library functions the engine calls and that are not
    modelled: they are parameters of the development. *)
Class Externals : Type := {
  math_Log2 : Q -> Q;
  math_Pow : Q -> Q -> Q;
  strings_ToLower : string -> string;
  strings_ToUpper : string -> string;
  strings_TrimSpace : string -> string;
  strings_Split : string -> string -> list string
}.

(** * Package song *)

(** Hit quality levels ([HitMiss = iota], ...). *)
Module HitQuality.

Inductive t : Set := HitMiss | HitOK | HitGood | HitPerfect.

#[global] Instance eq_dec : EqDecision t.
Proof. solve_decision. Defined.

Definition String (h : t) : string :=
  match h with
  | HitPerfect => "Perfect!"
  | HitGood => "Good"
  | HitOK => "OK"
  | _ => "Miss"
  end.

Definition Score (h : t) : Z :=
  match h with
  | HitPerfect => 100
  | HitGood => 50
  | HitOK => 25
  | _ => 0
  end.

End HitQuality.

Export HitQuality(HitMiss, HitOK, HitGood, HitPerfect).

(** The tuning of a single string. *)
Module StringTuning.

Record t : Type := mk {
  Note : string;   (* note name (C, C#, D, ...) *)
  Octave : Z       (* octave number *)
}.

Definition noteMap : gmap string Z :=
  list_to_map
    [("C", 0); ("C#", 1); ("Db", 1);
     ("D", 2); ("D#", 3); ("Eb", 3);
     ("E", 4); ("Fb", 4);
     ("F", 5); ("F#", 6); ("Gb", 6);
     ("G", 7); ("G#", 8); ("Ab", 8);
     ("A", 9); ("A#", 10); ("Bb", 10);
     ("B", 11); ("Cb", 11)].

(** The semitone value (0-11) of the note; a missing key reads as the zero
    value, as a Go map does. *)
Definition Semitone (s : t) : Z := default 0 (noteMap !! Note s).

End StringTuning.

(** The tuning of all strings, high to low: Go's [Tuning] is the slice type
    [list StringTuning.t]. *)

Definition TuningStandard : list StringTuning.t :=
  [StringTuning.mk "G" 2; StringTuning.mk "D" 2;
   StringTuning.mk "A" 1; StringTuning.mk "E" 1].

Definition TuningDropD : list StringTuning.t :=
  [StringTuning.mk "G" 2; StringTuning.mk "D" 2;
   StringTuning.mk "A" 1; StringTuning.mk "D" 1].

Definition TuningHalfStepDown : list StringTuning.t :=
  [StringTuning.mk "Gb" 2; StringTuning.mk "Db" 2;
   StringTuning.mk "Ab" 1; StringTuning.mk "Eb" 1].

Definition TuningFullStepDown : list StringTuning.t :=
  [StringTuning.mk "F" 2; StringTuning.mk "C" 2;
   StringTuning.mk "G" 1; StringTuning.mk "D" 1].

Definition Tuning5StringStandard : list StringTuning.t :=
  [StringTuning.mk "G" 2; StringTuning.mk "D" 2;
   StringTuning.mk "A" 1; StringTuning.mk "E" 1; StringTuning.mk "B" 0].

Definition TuningsByName : gmap string (list StringTuning.t) :=
  list_to_map
    [("standard", TuningStandard);
     ("drop-d", TuningDropD);
     ("half-step-down", TuningHalfStepDown);
     ("full-step-down", TuningFullStepDown);
     ("5-string", Tuning5StringStandard)].

Section ParseTuning.
Context `{Externals}.

(** One element of a custom tuning: the last byte is the octave (byte
    arithmetic, so it wraps modulo 256); a part shorter than two bytes
    leaves the zero value. *)
Definition parseTuningPart (part : string) : StringTuning.t :=
  let part := strings_TrimSpace part in
  let n := String.length part in
  if (2 <=? n)%nat then
    let last := default Ascii.zero (String.get (n - 1) part) in
    let octave := (Z.of_N (N_of_ascii last) - 48) mod 256 in
    let note := strings_ToUpper (String.substring 0 (n - 1) part) in
    StringTuning.mk note octave
  else StringTuning.mk "" 0.

(** Accepts "standard", "drop-d", or a custom tuning like "G2,D2,A1,D1". *)
Definition ParseTuning (s : string) : list StringTuning.t :=
  let s := strings_ToLower (strings_TrimSpace s) in
  match TuningsByName !! s with
  | Some t => t
  | None =>
      let parts := strings_Split s "," in
      if 4 <=? Go.len parts then parseTuningPart <$> parts
      else TuningStandard
  end.

End ParseTuning.

(** A single note in tablature, with its run-time judgment. *)
Module TabNote.

Record t : Type := mk {
  Time : Q;        (* time in seconds from song start *)
  Beat : Q;        (* beat number *)
  String : Z;      (* 0=G, 1=D, 2=A, 3=E *)
  Fret : Z;        (* fret number (0 = open string) *)
  Duration : Q;    (* note duration in seconds *)
  (* run-time state *)
  Hit : bool;
  HitQuality : HitQuality.t;
  HitTime : Q
}.

Definition notes : list string :=
  ["C"; "C#"; "D"; "D#"; "E"; "F"; "F#"; "G"; "G#"; "A"; "A#"; "B"].

(** The note name of this tab position under the given tuning. *)
Definition NoteWithTuning (n : t) (tuning : list StringTuning.t) : option string :=
  if Go.len tuning <=? String n then Some "?"
  else
    openString ← Go.index tuning (String n);
    let baseNote := StringTuning.Semitone openString in
    if Fret n =? 0 then Some (StringTuning.Note openString)
    else
      let noteIndex := Go.rem (Go.add baseNote (Fret n)) 12 in
      Go.index notes noteIndex.

(** The octave of this tab position under the given tuning. *)
Definition OctaveWithTuning (n : t) (tuning : list StringTuning.t) : option Z :=
  if Go.len tuning <=? String n then Some 1
  else
    openString ← Go.index tuning (String n);
    let baseOctave := StringTuning.Octave openString in
    let baseNote := StringTuning.Semitone openString in
    let notePos := Go.add baseNote (Fret n) in
    Some (Go.add baseOctave (Go.div notePos 12)).

(** The three assignments [RegisterHit] makes through the note pointer. *)
Definition judge (quality : HitQuality.t) (hitTime : Q) (n : t) : t :=
  mk (Time n) (Beat n) (String n) (Fret n) (Duration n) true quality hitTime.

End TabNote.

(** A complete song with tablature. *)
Module Song.

Record t : Type := mk {
  Title : string;
  Artist : string;
  BPM : Q;
  TuningStr : string;
  Notes : list TabNote.t;
  (* run-time state *)
  Duration : Q;
  Tuning : option (list StringTuning.t)   (* parsed tuning; [None] is the nil slice *)
}.

Definition with_Notes (s : t) (ns : list TabNote.t) : t :=
  mk (Title s) (Artist s) (BPM s) (TuningStr s) ns (Duration s) (Tuning s).

Definition with_Duration (s : t) (d : Q) : t :=
  mk (Title s) (Artist s) (BPM s) (TuningStr s) (Notes s) d (Tuning s).

Section WithExternals.
Context `{Externals}.

(** The song's tuning, defaulting to standard if not set. *)
Definition GetTuning (s : t) : list StringTuning.t :=
  match Tuning s with
  | Some tu => tu
  | None =>
      if decide (TuningStr s = "") then TuningStandard
      else ParseTuning (TuningStr s)
  end.

Definition NoteAt (s : t) (note : TabNote.t) : option string :=
  TabNote.NoteWithTuning note (GetTuning s).

Definition OctaveAt (s : t) (note : TabNote.t) : option Z :=
  TabNote.OctaveWithTuning note (GetTuning s).

End WithExternals.

(** Sets the song duration from the last note (2 second buffer). *)
Definition CalculateDuration (s : t) : t :=
  match last (Notes s) with
  | None => with_Duration s 0
  | Some lastNote =>
      with_Duration s (TabNote.Time lastNote + TabNote.Duration lastNote + 2.0)%Q
  end.

End Song.

(** Floating score text. *)
Module FloatingScore.

Record t : Type := mk {
  Text : string;
  X : Q;
  Y : Q;
  StartTime : Q;
  Quality : HitQuality.t
}.

End FloatingScore.

Definition min (a b : Z) : Z := if a <? b then a else b.

(** The current game state. The [Song] pointer is modelled by the song
    itself: the state is the only holder of the chart while it is played. *)
Module GameState.

Record t : Type := mk {
  Song : Song.t;
  StartTime : Q;
  CurrentTime : Q;
  Score : Z;
  Combo : Z;
  MaxCombo : Z;
  NotesHit : Z;
  NotesMissed : Z;
  TotalNotes : Z;
  IsPlaying : bool;
  IsFinished : bool;
  FloatingText : list FloatingScore.t;
  (* ghost field, absent from the Go struct: the note index and quality of
     every call of [RegisterHit], oldest first *)
  Registered : list (nat * HitQuality.t)
}.

(** [NewGameState]: a new game state for a song. *)
Definition New (song : Song.t) : t :=
  let song := Song.CalculateDuration song in
  mk song 0 0 0 0 0 0 0 (Go.len (Song.Notes song)) false false [] [].

(** Begins the game. *)
Definition Start (now : Q) (g : t) : t :=
  mk (Song g) now (CurrentTime g) (Score g) (Combo g) (MaxCombo g)
     (NotesHit g) (NotesMissed g) (TotalNotes g) true false
     (FloatingText g) (Registered g).

(** Updates the clock of the game state and drops floating text older than
    one second. *)
Definition Update (now : Q) (g : t) : t :=
  if negb (IsPlaying g) then g
  else
    let currentTime := (now - StartTime g)%Q in
    let finished := Go.fgt currentTime (Song.Duration (Song g)) in
    let newFloating :=
      filter (fun f => Go.flt (now - FloatingScore.StartTime f) 1.0 = true)
             (FloatingText g) in
    mk (Song g) (StartTime g) currentTime (Score g) (Combo g) (MaxCombo g)
       (NotesHit g) (NotesMissed g) (TotalNotes g)
       (if finished then false else IsPlaying g)
       (if finished then true else IsFinished g)
       newFloating (Registered g).

(** The combo multiplier computed inline by [RegisterHit]. *)
Definition multiplier (combo : Z) : Z :=
  let multiplier := 1 in
  let multiplier := if 10 <=? combo then 2 else multiplier in
  let multiplier := if 25 <=? combo then 3 else multiplier in
  let multiplier := if 50 <=? combo then 4 else multiplier in
  multiplier.

(** Records a note hit. [note] is the index in [Song.Notes] of the note the
    Go pointer designates. *)
Definition RegisterHit (g : t) (note : nat) (quality : HitQuality.t)
    (x y : Q) (now : Q) : t :=
  let notes' :=
    alter (TabNote.judge quality (CurrentTime g)) note (Song.Notes (Song g)) in
  let points := HitQuality.Score quality in
  let '(combo', maxCombo', points, notesHit', notesMissed') :=
    if negb (bool_decide (quality = HitMiss)) then
      let combo := Go.add (Combo g) 1 in
      let maxCombo := if MaxCombo g <? combo then combo else MaxCombo g in
      let points := Go.mul points (multiplier combo) in
      (combo, maxCombo, points, Go.add (NotesHit g) 1, NotesMissed g)
    else
      (0, MaxCombo g, points, NotesHit g, Go.add (NotesMissed g) 1) in
  let text :=
    if (0 <? points) && (1 <? combo')
    then HitQuality.String quality +:+ " x" +:+ Go.digit_string (min combo' 9)
    else HitQuality.String quality in
  mk (Song.with_Notes (Song g) notes') (StartTime g) (CurrentTime g)
     (Go.add (Score g) points) combo' maxCombo' notesHit' notesMissed'
     (TotalNotes g) (IsPlaying g) (IsFinished g)
     (FloatingText g ++ [FloatingScore.mk text x y now quality])
     (Registered g ++ [(note, quality)]).

End GameState.

(** * Package audio *)

Module PitchResult.

Record t : Type := mk {
  Frequency : Q;
  Confidence : Q;
  Note : string;
  Octave : Z;
  Cents : Z;
  RMS : Q
}.

Definition IsValid (r : t) : bool :=
  negb (bool_decide (Note r = "")) && Go.fgt (Confidence r) 0.5.

End PitchResult.

(** * Package game *)

(** Timing windows in seconds. *)
Definition PerfectWindow : Q := 0.050.
Definition GoodWindow : Q := 0.100.
Definition OKWindow : Q := 0.150.
Definition MissWindow : Q := 0.300.

(** Matches played notes to expected notes. [state] is the game state the Go
    pointer designates: the methods below return the detector with the
    state they leave behind. *)
Module HitDetector.

Record t : Type := mk {
  state : GameState.t;
  noteFrequencies : gmap string Q
}.

Definition with_state (h : t) (g : GameState.t) : t :=
  mk g (noteFrequencies h).

Definition noteNames : list string :=
  ["C"; "C#"; "D"; "D#"; "E"; "F"; "F#"; "G"; "G#"; "A"; "A#"; "B"].

(** The flat aliases, in the order of the source text; Go ranges over this
    map in an unspecified order. *)
Definition flatNames : list (string * string) :=
  [("Db", "C#"); ("Eb", "D#"); ("Fb", "E"); ("Gb", "F#");
   ("Ab", "G#"); ("Bb", "A#"); ("Cb", "B")].

Section WithExternals.
Context `{Externals}.

(** The frequency [buildNoteFrequencies] stores for MIDI note [midiNote]. *)
Definition midiFrequency (midiNote : Z) : Q :=
  (440.0 * math_Pow 2 (inject_Z (Go.add midiNote (-69)) / 12.0))%Q.

(** The inner loop of the first pass: the twelve names of one octave. *)
Definition addOctave (notes : gmap string Q) (octave : Z) : gmap string Q :=
  foldl (fun notes '(i, name) =>
           let midiNote := Go.add (Go.mul (Go.add octave 1) 12) i in
           let freq := midiFrequency midiNote in
           let key := name +:+ Go.digit_string octave in
           <[key := freq]> notes)
        notes (zip (seqZ 0 (Go.len noteNames)) noteNames).

(** The inner loop of the second pass: one flat name in every octave. *)
Definition addFlat (notes : gmap string Q) (fs : string * string)
    : gmap string Q :=
  let '(flat, sharp) := fs in
  foldl (fun notes octave =>
           let sharpKey := sharp +:+ Go.digit_string octave in
           let flatKey := flat +:+ Go.digit_string octave in
           match notes !! sharpKey with
           | Some freq => <[flatKey := freq]> notes
           | None => notes
           end)
        notes (seqZ 0 5).

(** The map of note names to frequencies, octaves 0-4, when the second pass
    ranges over the flat aliases in the order [order]. *)
Definition buildNoteFrequenciesIn (order : list (string * string))
    : gmap string Q :=
  let notes := foldl addOctave ∅ (seqZ 0 5) in
  foldl addFlat notes order.

(** [buildNoteFrequencies]: the table does not depend on the order of the
    range over the aliases ([buildNoteFrequencies_any_order]). *)
Definition buildNoteFrequencies : gmap string Q :=
  buildNoteFrequenciesIn flatNames.

(** [NewHitDetector]. *)
Definition New (state : GameState.t) : t := mk state buildNoteFrequencies.

(** Checks if the detected pitch matches the expected note. The division
    is that of [Q]; the frequencies of the table are those of the power
    function, which is never zero. *)
Definition notesMatch (h : t) (pitch : PitchResult.t) (note : TabNote.t)
    : option bool :=
  expectedNote ← Song.NoteAt (GameState.Song (state h)) note;
  expectedOctave ← Song.OctaveAt (GameState.Song (state h)) note;
  let expectedKey := expectedNote +:+ Go.digit_string expectedOctave in
  match noteFrequencies h !! expectedKey with
  | None => Some false
  | Some expectedFreq =>
      let centsDiff :=
        (1200 * math_Log2 (PitchResult.Frequency pitch / expectedFreq))%Q in
      Some (Go.flt (Qabs centsDiff) 50)
  end.

(** Hit quality from timing. *)
Definition getHitQuality (absTimeDiff : Q) : HitQuality.t :=
  if Go.fle absTimeDiff PerfectWindow then HitPerfect
  else if Go.fle absTimeDiff GoodWindow then HitGood
  else if Go.fle absTimeDiff OKWindow then HitOK
  else HitMiss.

(** The vertical screen position [float32(80+note.String*40)]. *)
Definition noteY (note : TabNote.t) : Q :=
  inject_Z (Go.add 80 (Go.mul (TabNote.String note) 40)).

(** The body of the loop of [CheckHit] over the note indices still to
    visit. [continue] is the recursive call, [return] ends the scan. *)
Fixpoint CheckHit_loop (pitch : PitchResult.t) (playLineX now currentTime : Q)
    (idxs : list nat) (h : t) : option t :=
  match idxs with
  | [] => Some h
  | i :: rest =>
      note ← Song.Notes (GameState.Song (state h)) !! i;
      (* skip already hit notes *)
      if TabNote.Hit note then
        CheckHit_loop pitch playLineX now currentTime rest h
      else
        let timeDiff := (TabNote.Time note - currentTime)%Q in
        let absTimeDiff := Qabs timeDiff in
        (* note is too far in the future *)
        if Go.fgt timeDiff MissWindow then
          CheckHit_loop pitch playLineX now currentTime rest h
        (* note was missed (too far in the past) *)
        else if Go.flt timeDiff (- MissWindow) then
          CheckHit_loop pitch playLineX now currentTime rest
            (with_state h
               (GameState.RegisterHit (state h) i HitMiss playLineX
                  (noteY note) now))
        else
          matched ← notesMatch h pitch note;
          if (matched : bool) then
            let quality := getHitQuality absTimeDiff in
            (* only hit one note per detection *)
            Some (with_state h
                    (GameState.RegisterHit (state h) i quality playLineX
                       (noteY note) now))
          else CheckHit_loop pitch playLineX now currentTime rest h
  end.

(** Checks if the detected pitch matches any pending note. *)
Definition CheckHit (pitch : PitchResult.t) (playLineX now : Q) (h : t)
    : option t :=
  if negb (PitchResult.IsValid pitch) then Some h
  else
    let currentTime := GameState.CurrentTime (state h) in
    CheckHit_loop pitch playLineX now currentTime
      (seq 0 (length (Song.Notes (GameState.Song (state h))))) h.

End WithExternals.

(** The body of the loop of [Update]. *)
Fixpoint Update_loop (now currentTime : Q) (idxs : list nat) (h : t)
    : option t :=
  match idxs with
  | [] => Some h
  | i :: rest =>
      note ← Song.Notes (GameState.Song (state h)) !! i;
      if TabNote.Hit note then Update_loop now currentTime rest h
      else if Go.fgt (currentTime - TabNote.Time note) MissWindow then
        Update_loop now currentTime rest
          (with_state h
             (GameState.RegisterHit (state h) i HitMiss 0 (noteY note) now))
      else Update_loop now currentTime rest h
  end.

(** Checks for missed notes. *)
Definition Update (now : Q) (h : t) : option t :=
  let currentTime := GameState.CurrentTime (state h) in
  Update_loop now currentTime
    (seq 0 (length (Song.Notes (GameState.Song (state h))))) h.

End HitDetector.

(** * The web build: combo multiplier and score store

    JavaScript numbers holding counters are modelled as unbounded integers
    (they are exact below 2^53). *)
Module Web.

(** [hitQualityText] and [hitQualityScore] of types/game.ts. *)
Definition hitQualityText (quality : HitQuality.t) : string :=
  match quality with
  | HitPerfect => "Perfect!"
  | HitGood => "Good"
  | HitOK => "OK"
  | _ => "Miss"
  end.

Definition hitQualityScore (quality : HitQuality.t) : Z :=
  match quality with
  | HitPerfect => 100
  | HitGood => 50
  | HitOK => 25
  | _ => 0
  end.

(** The combo multiplier of the current streak. *)
Definition getComboMultiplier (combo : Z) : Z :=
  if 50 <=? combo then 4
  else if 25 <=? combo then 3
  else if 10 <=? combo then 2
  else 1.

Inductive GameStateType : Set := MENU | PRE_START | PLAYING | RESULTS.

#[global] Instance GameStateType_eq_dec : EqDecision GameStateType.
Proof. solve_decision. Defined.

Record GameStore : Type := mkGameStore {
  state : GameStateType;
  currentTime : Q;
  score : Z;
  combo : Z;
  maxCombo : Z;
  notesHit : Z;
  notesMissed : Z;
  totalNotes : Z;
  isPlaying : bool;
  isFinished : bool;
  floatingText : list FloatingScore.t
}.

(** Records a successful hit. [now] is [Date.now()]. *)
Definition recordHit (quality : HitQuality.t) (x y now : Q) (s : GameStore)
    : GameStore :=
  if negb (bool_decide (state s = PLAYING)) then s
  else
    let combo' := combo s + 1 in
    let maxCombo' := if maxCombo s <? combo' then combo' else maxCombo s in
    let baseScore := hitQualityScore quality in
    let multiplier := getComboMultiplier combo' in
    let text :=
      if 1 <? multiplier
      then hitQualityText quality +:+ " x" +:+ pretty multiplier
      else hitQualityText quality in
    mkGameStore (state s) (currentTime s) (score s + baseScore * multiplier)
      combo' maxCombo' (notesHit s + 1) (notesMissed s) (totalNotes s)
      (isPlaying s) (isFinished s)
      (floatingText s ++ [FloatingScore.mk text x y now quality]).

(** Records a missed note. *)
Definition recordMiss (s : GameStore) : GameStore :=
  if negb (bool_decide (state s = PLAYING)) then s
  else
    mkGameStore (state s) (currentTime s) (score s) 0 (maxCombo s)
      (notesHit s) (notesMissed s + 1) (totalNotes s)
      (isPlaying s) (isFinished s) (floatingText s).

End Web.

(** * Sessions

    The calls the frame loop of the desktop application makes on the game
    state and its hit detector, in any order and number. *)

Inductive call : Type :=
| CallStart (now : Q)                                   (* GameState.Start *)
| CallTick (now : Q)                                    (* GameState.Update *)
| CallCheckHit (pitch : PitchResult.t) (playLineX now : Q)
| CallUpdate (now : Q).                                 (* HitDetector.Update *)

Section Sessions.
Context `{Externals}.

Definition run_call (c : call) (h : HitDetector.t) : option HitDetector.t :=
  match c with
  | CallStart now =>
      Some (HitDetector.with_state h (GameState.Start now (HitDetector.state h)))
  | CallTick now =>
      Some (HitDetector.with_state h (GameState.Update now (HitDetector.state h)))
  | CallCheckHit pitch playLineX now => HitDetector.CheckHit pitch playLineX now h
  | CallUpdate now => HitDetector.Update now h
  end.

Fixpoint run (cs : list call) (h : HitDetector.t) : option HitDetector.t :=
  match cs with
  | [] => Some h
  | c :: cs => h' ← run_call c h; run cs h'
  end.

(** The detector of a freshly selected chart ([SelectExercise]). *)
Definition fresh (song : Song.t) : HitDetector.t :=
  HitDetector.New (GameState.New song).

End Sessions.

(** * A computable stand-in for the external functions

    Used to run the model on concrete inputs. The logarithm and the power
    are rational approximations, good to a small fraction of a cent on the
    range of the bass (a table of the twelve semitone ratios, a truncated
    series for the logarithm); the string functions treat ASCII only.
    Every theorem below holds for all instances of [Externals], this one
    included. *)
Module Standin.

(** The integer [k] with [2^k <= x < 2^(k+1)], for a positive [x]. *)
Definition ilog2 (x : Q) : Z :=
  let k := Z.log2 (Qnum x) - Z.log2 (QDen x) in
  if Go.flt x (Qpower 2 k) then k - 1 else k.

Definition ln2 : Q := 0.6931471805599453%Q.

(** [ln m] for [m] close to 1, by the series of [2 * atanh ((m-1)/(m+1))]. *)
Definition ln_near_one (m : Q) : Q :=
  let z := Qred ((m - 1) / (m + 1))%Q in
  let z2 := Qred (z * z)%Q in
  Qred (2 * z * (1 + z2 * ((1 # 3) + z2 * ((1 # 5) + z2 * (1 # 7)))))%Q.

Definition Log2 (x : Q) : Q :=
  if Go.fle x 0 then 0
  else
    let k := ilog2 x in
    let m := Qred (x / Qpower 2 k)%Q in
    let '(k, m) :=
      if Go.flt 1.5%Q m then (k + 1, Qred (m / 2)%Q) else (k, m) in
    Qred (inject_Z k + ln_near_one m / ln2)%Q.

(** [2^(j/12)] for [j] from 0 to 12. *)
Definition semitones : list Q :=
  [1; 1.0594630943592953; 1.122462048309373; 1.189207115002721;
   1.2599210498948732; 1.3348398541700344; 1.4142135623730951;
   1.4983070768766815; 1.5874010519681994; 1.681792830507429;
   1.7817974362806785; 1.8877486253633868; 2]%Q.

(** [2^y], linear between neighbouring semitones. *)
Definition Exp2 (y : Q) : Q :=
  let k := (Qnum y / QDen y)%Z in
  let f := Qred ((y - inject_Z k) * 12)%Q in
  let j := (Qnum f / QDen f)%Z in
  let lo := default 1%Q (semitones !! Z.to_nat j) in
  let hi := default 2%Q (semitones !! Z.to_nat (j + 1)) in
  Qred (Qpower 2 k * (lo + (f - inject_Z j) * (hi - lo)))%Q.

Definition Pow (b y : Q) : Q :=
  if Qeq_bool b 2 then Exp2 y else Exp2 (y * Log2 b)%Q.

Definition map_string (f : ascii -> ascii) (s : string) : string :=
  string_of_list_ascii (f <$> list_ascii_of_string s).

Definition lower (c : ascii) : ascii :=
  let n := N_of_ascii c in
  if ((65 <=? n) && (n <=? 90))%N then ascii_of_N (n + 32) else c.

Definition upper (c : ascii) : ascii :=
  let n := N_of_ascii c in
  if ((97 <=? n) && (n <=? 122))%N then ascii_of_N (n - 32) else c.

Definition is_space (c : ascii) : bool :=
  let n := N_of_ascii c in
  ((n =? 32) || ((9 <=? n) && (n <=? 13)))%N.

Fixpoint trim_left (l : list ascii) : list ascii :=
  match l with
  | c :: l' => if is_space c then trim_left l' else l
  | [] => []
  end.

Definition TrimSpace (s : string) : string :=
  string_of_list_ascii
    (reverse (trim_left (reverse (trim_left (list_ascii_of_string s))))).

(** Splits at every occurrence of the first byte of [sep]. *)
Fixpoint split_at (c : ascii) (cur : list ascii) (l : list ascii)
    : list string :=
  match l with
  | [] => [string_of_list_ascii (reverse cur)]
  | d :: l' =>
      if decide (d = c)
      then string_of_list_ascii (reverse cur) :: split_at c [] l'
      else split_at c (d :: cur) l'
  end.

Definition Split (s sep : string) : list string :=
  match sep with
  | String c _ => split_at c [] (list_ascii_of_string s)
  | EmptyString => [s]
  end.

Definition externals : Externals := {|
  math_Log2 := Log2;
  math_Pow := Pow;
  strings_ToLower := map_string lower;
  strings_ToUpper := map_string upper;
  strings_TrimSpace := TrimSpace;
  strings_Split := Split
|}.

End Standin.

(** * Notions used by the statements *)

(** The notes and the register log behind a detector. *)
Definition notes_of (h : HitDetector.t) : list TabNote.t :=
  Song.Notes (GameState.Song (HitDetector.state h)).

Definition log_of (h : HitDetector.t) : list (nat * HitQuality.t) :=
  GameState.Registered (HitDetector.state h).

(** [register h i q x y now]: the detector after the call
    [h.state.RegisterHit(&h.state.Song.Notes[i], q, x, y)]. *)
Definition register (h : HitDetector.t) (i : nat) (q : HitQuality.t)
    (x y now : Q) : HitDetector.t :=
  HitDetector.with_state h
    (GameState.RegisterHit (HitDetector.state h) i q x y now).

(** One judgment: [RegisterHit] called on a note of the chart that is not
    yet hit. *)
Inductive judge_step : HitDetector.t -> HitDetector.t -> Prop :=
| judge_step_intro h i n q x y now :
    notes_of h !! i = Some n ->
    TabNote.Hit n = false ->
    judge_step h (register h i q x y now).

(** The position of a note relative to the current time [ct]. *)
Definition future (ct : Q) (n : TabNote.t) : Prop :=
  (MissWindow < TabNote.Time n - ct)%Q.

Definition stale (ct : Q) (n : TabNote.t) : Prop :=
  (TabNote.Time n - ct < - MissWindow)%Q.

Definition in_window (ct : Q) (n : TabNote.t) : Prop :=
  (- MissWindow <= TabNote.Time n - ct <= MissWindow)%Q.

(** Notes in non-decreasing time order, as the loader leaves them. *)
Definition time_ordered (notes : list TabNote.t) : Prop :=
  forall i j ni nj,
    (i <= j)%nat -> notes !! i = Some ni -> notes !! j = Some nj ->
    (TabNote.Time ni <= TabNote.Time nj)%Q.

(** A check of [time_ordered] on neighbours. *)
Fixpoint time_orderedb (notes : list TabNote.t) : bool :=
  match notes with
  | a :: (b :: _) as rest =>
      Go.fle (TabNote.Time a) (TabNote.Time b) && time_orderedb rest
  | _ => true
  end.

(** The number of notes not yet hit. *)
Definition unhit (notes : list TabNote.t) : Z :=
  Go.len (filter (fun n => TabNote.Hit n = false) notes).

(** [judged_once h h']: between [h] and [h'] every note already hit is left
    as it is, and the [RegisterHit] calls made in between ([new], read off
    the log) concern pairwise distinct notes, each not yet hit in [h] and
    hit in [h']. *)
Definition judged_once (h h' : HitDetector.t) : Prop :=
  length (notes_of h') = length (notes_of h) /\
  (forall i n, notes_of h !! i = Some n -> TabNote.Hit n = true ->
               notes_of h' !! i = Some n) /\
  exists new,
    log_of h' = log_of h ++ new /\
    NoDup new.*1 /\
    forall i, i ∈ new.*1 ->
      (exists n, notes_of h !! i = Some n /\ TabNote.Hit n = false) /\
      (exists n', notes_of h' !! i = Some n' /\ TabNote.Hit n' = true).

(** One step of a session at the grain of the score mutations: a judgment,
    or a call of [GameState.Start] or [GameState.Update]. *)
Inductive session_step : HitDetector.t -> HitDetector.t -> Prop :=
| session_judge h h' : judge_step h h' -> session_step h h'
| session_start h now :
    session_step h
      (HitDetector.with_state h (GameState.Start now (HitDetector.state h)))
| session_tick h now :
    session_step h
      (HitDetector.with_state h (GameState.Update now (HitDetector.state h))).

(** The two invariants of the score state. *)
Definition score_invariants (g : GameState.t) : Prop :=
  GameState.NotesHit g + GameState.NotesMissed g <= GameState.TotalNotes g /\
  GameState.Combo g <= GameState.MaxCombo g.

(** The shape of one [CheckHit] scan at current time [ct]: any number of
    notes past the miss window registered as Miss, then at most one note
    of the judging window registered on a pitch match. *)
Inductive scan `{Externals} (pitch : PitchResult.t) (x now ct : Q)
    : HitDetector.t -> HitDetector.t -> Prop :=
| scan_done h : scan pitch x now ct h h
| scan_miss h i n h' :
    notes_of h !! i = Some n ->
    TabNote.Hit n = false ->
    stale ct n ->
    scan pitch x now ct (register h i HitMiss x (HitDetector.noteY n) now) h' ->
    scan pitch x now ct h h'
| scan_match h i n :
    notes_of h !! i = Some n ->
    TabNote.Hit n = false ->
    in_window ct n ->
    HitDetector.notesMatch h pitch n = Some true ->
    scan pitch x now ct h
      (register h i
         (HitDetector.getHitQuality (Qabs (TabNote.Time n - ct)))
         x (HitDetector.noteY n) now).

(** The invariant of a session that carries [score_invariants]: the counters
    are non-negative, and the judged notes together with the notes still to
    judge never exceed the total. *)
Definition session_invariant (h : HitDetector.t) : Prop :=
  let g := HitDetector.state h in
  0 <= GameState.NotesHit g /\
  0 <= GameState.NotesMissed g /\
  GameState.NotesHit g + GameState.NotesMissed g + unhit (notes_of h)
    <= GameState.TotalNotes g /\
  GameState.TotalNotes g <= Go.int_max /\
  GameState.Combo g <= GameState.MaxCombo g /\
  0 <= GameState.MaxCombo g.

(** [passes h pitch ct n]: the scan of [CheckHit] does not end at note [n]:
    the note is already hit, or outside the judging window, or the sample
    does not match it. *)
Definition passes `{Externals} (h : HitDetector.t) (pitch : PitchResult.t)
    (ct : Q) (n : TabNote.t) : Prop :=
  TabNote.Hit n = true \/ future ct n \/ stale ct n \/
  HitDetector.notesMatch h pitch n = Some false.

(** The index in the octave that [buildNoteFrequencies] gives a note name:
    its position in [noteNames], a flat name taking the position of the
    sharp it is an alias of. *)
Definition noteIndexInOctave (name : string) : option Z :=
  let sharp :=
    default name
      ((list_to_map HitDetector.flatNames : gmap string string) !! name) in
  (fun p => Z.of_nat p.1) <$>
    list_find (fun s => s = sharp) HitDetector.noteNames.

(** A chart note the derivation of the expected note cannot panic on: the
    string index is not negative (an index past the tuning is handled by
    the code) and the fret is a non-negative number that leaves room for
    the semitone of the open string. *)
Definition well_formed (n : TabNote.t) : Prop :=
  0 <= TabNote.String n /\ 0 <= TabNote.Fret n <= Go.int_max - 11.

(** The note names and the keys of the frequency table. *)
Definition tableNames : list string :=
  HitDetector.noteNames ++ HitDetector.flatNames.*1.

Definition tableKeys : list string :=
  name ← tableNames; octave ← seqZ 0 5; [name +:+ Go.digit_string octave].

(** The scan as the specification words it: on a note that is not yet hit
    and more than the miss window ahead it stops (where [CheckHit_loop]
    goes on to the next note). Everything else is as in [CheckHit_loop]. *)
Fixpoint CheckHit_loop_stopping `{Externals} (pitch : PitchResult.t)
    (playLineX now currentTime : Q) (idxs : list nat) (h : HitDetector.t)
    : option HitDetector.t :=
  match idxs with
  | [] => Some h
  | i :: rest =>
      note ← notes_of h !! i;
      if TabNote.Hit note then
        CheckHit_loop_stopping pitch playLineX now currentTime rest h
      else
        let timeDiff := (TabNote.Time note - currentTime)%Q in
        if Go.fgt timeDiff MissWindow then Some h
        else if Go.flt timeDiff (- MissWindow) then
          CheckHit_loop_stopping pitch playLineX now currentTime rest
            (register h i HitMiss playLineX (HitDetector.noteY note) now)
        else
          matched ← HitDetector.notesMatch h pitch note;
          if (matched : bool) then
            Some (register h i (HitDetector.getHitQuality (Qabs timeDiff))
                    playLineX (HitDetector.noteY note) now)
          else CheckHit_loop_stopping pitch playLineX now currentTime rest h
  end.

Definition CheckHit_stopping `{Externals} (pitch : PitchResult.t)
    (playLineX now : Q) (h : HitDetector.t) : option HitDetector.t :=
  if negb (PitchResult.IsValid pitch) then Some h
  else
    CheckHit_loop_stopping pitch playLineX now
      (GameState.CurrentTime (HitDetector.state h))
      (seq 0 (length (notes_of h))) h.

(** One step of the second pass of [buildNoteFrequencies] on a pair (key
    read, key written), and the pairs of one alias. *)
Definition aliasStep (notes : gmap string Q) (rw : string * string)
    : gmap string Q :=
  match notes !! rw.1 with
  | Some freq => <[rw.2 := freq]> notes
  | None => notes
  end.

Definition aliasPairs (fs : string * string) : list (string * string) :=
  (fun octave => (fs.2 +:+ Go.digit_string octave,
                  fs.1 +:+ Go.digit_string octave)) <$> seqZ 0 5.

(** The display text of a floating score as the specification words it: the
    quality label, followed exactly when the combo multiplier [m] in effect
    exceeds 1 by the suffix " xN" with N the multiplier. *)
Definition text_as_specified (q : HitQuality.t) (m : Z) : string :=
  if 1 <? m then HitQuality.String q +:+ " x" +:+ pretty m
  else HitQuality.String q.

(** * Example data *)
Module Demo.

(** A chart note not yet judged. *)
Definition note (time : Q) (string fret : Z) : TabNote.t :=
  TabNote.mk time 0 string fret 0.5 false HitMiss 0.

Definition chart (notes : list TabNote.t) : Song.t :=
  Song.mk "Demo" "Built-in" 80 "" notes 0 (Some TuningStandard).

(** A game state in the middle of a session, with the given combo. *)
Definition streak (notes : list TabNote.t) (combo score : Z) : GameState.t :=
  GameState.mk (chart notes) 0 0 score combo combo combo 0
    (Go.len notes) true false [] [].

Definition sample (frequency confidence : Q) : PitchResult.t :=
  PitchResult.mk frequency confidence "E" 1 0 0.1.

(** The detector of a chart, playing, with the clock at [currentTime]. *)
Definition playing `{Externals} (notes : list TabNote.t) (currentTime : Q)
    : HitDetector.t :=
  let h := fresh (chart notes) in
  HitDetector.with_state h
    (GameState.Update currentTime
       (GameState.Start 0 (HitDetector.state h))).

End Demo.

(** * Further code of the packages

    The functions around the judging engine: the chart queries and the
    accuracy of package [song], the pitch-result helpers of package
    [audio], the loader, the shell of the desktop application, and the
    stores and helpers of the web build. *)

(** ** Package song: chart queries and accuracy *)

(** The loop of [Song.NotesInRange] from index [i] on; [notes] is the slice
    built so far. The pointers [&s.Notes[i]] are the indices [i]. *)
Fixpoint NotesInRange_loop (startTime endTime : Q) (i : nat)
    (rest : list TabNote.t) (notes : list nat) : list nat :=
  match rest with
  | [] => notes
  | n :: rest =>
      NotesInRange_loop startTime endTime (S i) rest
        (if Go.fle startTime (TabNote.Time n) &&
            Go.fle (TabNote.Time n) endTime
         then notes ++ [i] else notes)
  end.

(** [Song.NotesInRange]: the notes to play between two times. *)
Definition Song_NotesInRange (s : Song.t) (startTime endTime : Q) : list nat :=
  NotesInRange_loop startTime endTime 0 (Song.Notes s) [].

(** The loop of [Song.NextUnhitNote] from index [i] on. *)
Fixpoint NextUnhitNote_loop (currentTime : Q) (i : nat)
    (notes : list TabNote.t) : option nat :=
  match notes with
  | [] => None
  | n :: rest =>
      if negb (TabNote.Hit n) && Go.fle (currentTime - 0.5) (TabNote.Time n)
      then Some i
      else NextUnhitNote_loop currentTime (S i) rest
  end.

(** [Song.NextUnhitNote]: the next note that has not been hit yet; [None]
    is the nil pointer. *)
Definition Song_NextUnhitNote (s : Song.t) (currentTime : Q) : option nat :=
  NextUnhitNote_loop currentTime 0 (Song.Notes s).

(** [HitDetector.GetExpectedNote]: the next note the player should play. *)
Definition HitDetector_GetExpectedNote (h : HitDetector.t) : option nat :=
  Song_NextUnhitNote (GameState.Song (HitDetector.state h))
    (GameState.CurrentTime (HitDetector.state h)).

(** [GameState.Accuracy]: the hit accuracy as a percentage. *)
Definition GameState_Accuracy (g : GameState.t) : Q :=
  let total := Go.add (GameState.NotesHit g) (GameState.NotesMissed g) in
  if total =? 0 then 100.0%Q
  else (inject_Z (GameState.NotesHit g) / inject_Z total * 100.0)%Q.

(** ** Package audio: from a frequency to a pitch result *)

Module Audio.

Definition noteNames : list string :=
  ["C"; "C#"; "D"; "D#"; "E"; "F"; "F#"; "G"; "G#"; "A"; "A#"; "B"].

(** [math.Min] and [math.Round] (half away from zero) on the rationals. *)
Definition math_Min (x y : Q) : Q := if Go.flt x y then x else y.

Definition math_Round (x : Q) : Q :=
  if Go.fle 0 x then inject_Z (Qnum (x + (1 # 2)) / QDen (x + (1 # 2)))
  else inject_Z (- (Qnum (- x + (1 # 2)) / QDen (- x + (1 # 2)))).

(** The conversion [int(x)] of a [float64]: the fraction is discarded; when
    the value does not fit an [int] the result is left to the
    implementation by the language ([None]). *)
Definition int_of_float (x : Q) : option Z :=
  let z := Z.quot (Qnum x) (QDen x) in
  if (Go.int_min <=? z) && (z <=? Go.int_max) then Some z else None.

Definition computeConfidence (freq rms : Q) : Q :=
  if Go.flt freq 20 || Go.fgt freq 500 then 0%Q
  else if Go.flt rms 0.001 then 0%Q
  else math_Min (rms * 50) 1.0.

Section WithExternals.
Context `{Externals}.

(** Note name, octave and deviation in cents of a frequency. *)
Definition frequencyToNote (freq : Q) : option (string * Z * Z) :=
  if Go.flt freq 20 || Go.fgt freq 5000 then Some ("", 0, 0)
  else
    let midiNote := (12 * math_Log2 (freq / 440) + 69)%Q in
    noteNum ← int_of_float (math_Round midiNote);
    cents ← int_of_float ((midiNote - inject_Z noteNum) * 100)%Q;
    name ← Go.index noteNames (Go.rem (Go.add (Go.rem noteNum 12) 12) 12);
    let octave := Go.add (Go.div noteNum 12) (-1) in
    Some (name, octave, cents).

(** The frequency of a note; 0 for a name that is not in [noteNames]. The
    constants 440 and 12 of the source are the [float64] values written
    440.0 and 12.0 in the hit detector. *)
Definition NoteToFrequency (note : string) (octave : Z) : Q :=
  match list_find (fun n => n = note) noteNames with
  | None => 0%Q
  | Some (noteIndex, _) =>
      let midiNote :=
        Go.add (Go.mul (Go.add octave 1) 12) (Z.of_nat noteIndex) in
      (440.0 * math_Pow 2 (inject_Z (Go.add midiNote (-69)) / 12.0))%Q
  end.

(** The tail of [PitchDetector.Detect]: the result assembled from the
    frequency the pitch tracker reports and the RMS of the buffer (both
    are computed by code outside the model). *)
Definition Detect (freq rms : Q) : option PitchResult.t :=
  let conf := computeConfidence freq rms in
  r ← frequencyToNote freq;
  let '(note, octave, cents) := r in
  Some (PitchResult.mk freq conf note octave cents rms).

End WithExternals.

Definition NoteName (r : PitchResult.t) : string :=
  if decide (PitchResult.Note r = "") then "--" else PitchResult.Note r.

Definition FullNoteName (r : PitchResult.t) : string :=
  if decide (PitchResult.Note r = "") then "--"
  else PitchResult.Note r +:+ Go.digit_string (PitchResult.Octave r).

End Audio.

(** ** The desktop application: grades *)

(** [getGrade] of main.go: the letter shown on the results screen. *)
Definition getGrade (accuracy : Q) : string :=
  if Go.fle 95 accuracy then "S"
  else if Go.fle 90 accuracy then "A"
  else if Go.fle 80 accuracy then "B"
  else if Go.fle 70 accuracy then "C"
  else if Go.fle 60 accuracy then "D"
  else "F".

(** ** The loader *)






Definition StringG : Z := 0.
Definition StringD : Z := 1.
Definition StringA : Z := 2.
Definition StringE : Z := 3.

(** The built-in exercise: an E minor scale. The fields the composite
    literals leave out hold their zero values. *)
Definition createEMinorScale : Song.t :=
  let beatDuration := (60.0 / 80.0)%Q in
  let note (k : Q) (string fret : Z) :=
    TabNote.mk (k * beatDuration) 0 string fret (beatDuration * 0.9)
      false HitMiss 0 in
  let notes :=
    [note 0%Q StringE 0; note 1%Q StringE 2; note 2%Q StringE 3;
     note 3%Q StringE 5; note 4%Q StringA 0; note 5%Q StringA 2;
     note 6%Q StringA 3; note 7%Q StringA 5] in
  Song.CalculateDuration
    (Song.mk "E Minor Scale (Default)" "Built-in" 80 "" notes 0
       (Some TuningStandard)).

Definition GetDefaultExercises : list Song.t := [createEMinorScale].


(** ** The desktop application

    The methods of [App] in main.go that act on the game. The two fields
    [gameState] and [hitDetector] designate one game state: it is the state
    of the detector. The entries of [exercises] are pointers to distinct
    songs, and the song of the game state is one of them: [exercises] holds
    the songs, [current] (a ghost field) is the index of the one the game
    state designates, whose present value is the song of the game state. *)
Module App.

Inductive AppState : Set :=
  StateMenu | StatePreStart | StatePlaying | StateResults.

#[global] Instance AppState_eq_dec : EqDecision AppState.
Proof. solve_decision. Defined.

Definition screenWidth : Z := 1000.

(** [TabRenderer.PlayLineX], set by [NewTabRenderer]. *)
Definition PlayLineX : Q := 0.75.

Record t : Type := mk {
  currentPitch : PitchResult.t;
  hitDetector : HitDetector.t;
  exercises : list Song.t;
  selectedIndex : Z;
  state : AppState;
  current : nat
}.

Definition gameState (a : t) : GameState.t :=
  HitDetector.state (hitDetector a).

(** The songs the pointers of [exercises] designate at present. *)
Definition songs (a : t) : list Song.t :=
  <[current a := GameState.Song (gameState a)]> (exercises a).

Section WithExternals.
Context `{Externals}.

(** [NewApp], from the songs found on disk: it falls back to the built-in
    exercises and starts with the first one. *)
Definition NewApp (loaded : list Song.t) : option t :=
  let exercises :=
    if Go.len loaded =? 0 then GetDefaultExercises else loaded in
  song ← Go.index exercises 0;
  Some (mk (PitchResult.mk 0 0 "" 0 0 0) (fresh song) exercises 0
          StateMenu 0).

Definition SelectExercise (index : Z) (a : t) : option t :=
  if (0 <=? index) && (index <? Go.len (exercises a)) then
    song ← Go.index (songs a) index;
    Some (mk (currentPitch a) (fresh song) (songs a) index (state a)
            (Z.to_nat index))
  else Some a.

Definition StartGame (now : Q) (a : t) : t :=
  mk (currentPitch a)
     (HitDetector.with_state (hitDetector a)
        (GameState.Start now (gameState a)))
     (exercises a) (selectedIndex a) StatePlaying (current a).

Definition GoToMenu (a : t) : option t :=
  SelectExercise (selectedIndex a)
    (mk (currentPitch a) (hitDetector a) (exercises a) (selectedIndex a)
        StateMenu (current a)).

(** [App.Update], once per frame; [pitch] is the detection on the audio
    buffer of the frame. *)
Definition Update (pitch : PitchResult.t) (now : Q) (a : t) : option t :=
  if negb (bool_decide (state a = StatePlaying)) then
    Some (mk pitch (hitDetector a) (exercises a) (selectedIndex a) (state a)
            (current a))
  else
    let h := HitDetector.with_state (hitDetector a)
               (GameState.Update now (gameState a)) in
    let playLineX := (inject_Z screenWidth * PlayLineX)%Q in
    h ← HitDetector.CheckHit pitch playLineX now h;
    h ← HitDetector.Update now h;
    Some (mk pitch h (exercises a) (selectedIndex a)
            (if GameState.IsFinished (HitDetector.state h)
             then StateResults else state a)
            (current a)).

(** A game: the frames of the list, oldest first. *)
Fixpoint frames (fs : list (PitchResult.t * Q)) (a : t) : option t :=
  match fs with
  | [] => Some a
  | (pitch, now) :: fs => a ← Update pitch now a; frames fs a
  end.

End WithExternals.

(** The game state designates the selected exercise. *)
Definition consistent (a : t) : Prop :=
  0 <= selectedIndex a < Go.len (exercises a) /\
  current a = Z.to_nat (selectedIndex a).

End App.

(** ** The game store of the web build *)

Module WebStore.

Import Web.

(** [createInitialGameState] of types/game.ts, the state [createGameStore]
    starts from. *)
Definition createInitialGameState : GameStore :=
  mkGameStore MENU 0 0 0 0 0 0 0 false false [].

Definition calculateAccuracy (s : GameStore) : Q :=
  let total := notesHit s + notesMissed s in
  if total =? 0 then 100%Q
  else (inject_Z (notesHit s) / inject_Z total * 100)%Q.

(** Transition from MENU to PRE_START. *)
Definition selectSong (total : Z) (s : GameStore) : GameStore :=
  if negb (bool_decide (state s = MENU)) then s
  else
    mkGameStore PRE_START (currentTime s) (score s) (combo s) (maxCombo s)
      (notesHit s) (notesMissed s) total false false (floatingText s).

(** Transition from PRE_START to PLAYING. *)
Definition startPlaying (s : GameStore) : GameStore :=
  if negb (bool_decide (state s = PRE_START)) then s
  else
    mkGameStore PLAYING 0 (score s) (combo s) (maxCombo s)
      (notesHit s) (notesMissed s) (totalNotes s) true (isFinished s)
      (floatingText s).

(** Transition from PLAYING to RESULTS. *)
Definition endGame (s : GameStore) : GameStore :=
  if negb (bool_decide (state s = PLAYING)) then s
  else
    mkGameStore RESULTS (currentTime s) (score s) (combo s) (maxCombo s)
      (notesHit s) (notesMissed s) (totalNotes s) false true
      (floatingText s).

(** Transition from any state back to MENU. *)
Definition returnToMenu (s : GameStore) : GameStore :=
  let reset := createInitialGameState in
  mkGameStore (state reset) (currentTime reset) (score reset) (combo reset)
    (maxCombo reset) (notesHit reset) (notesMissed reset) (totalNotes reset)
    (isPlaying reset) (isFinished reset) [].

Definition updateTime (time : Q) (s : GameStore) : GameStore :=
  mkGameStore (state s) time (score s) (combo s) (maxCombo s)
    (notesHit s) (notesMissed s) (totalNotes s) (isPlaying s) (isFinished s)
    (floatingText s).

(** Removes the floating text older than the given timestamp. *)
Definition clearFloatingText (olderThan : Q) (s : GameStore) : GameStore :=
  mkGameStore (state s) (currentTime s) (score s) (combo s) (maxCombo s)
    (notesHit s) (notesMissed s) (totalNotes s) (isPlaying s) (isFinished s)
    (filter (fun ft => Go.fgt (FloatingScore.StartTime ft) olderThan = true)
            (floatingText s)).

(** The calls a client can make on the store. *)
Inductive action : Type :=
| SelectSong (total : Z)
| StartPlaying
| EndGame
| ReturnToMenu
| RecordHit (quality : HitQuality.t) (x y now : Q)
| RecordMiss
| UpdateTime (time : Q)
| ClearFloatingText (olderThan : Q).

Definition step (a : action) (s : GameStore) : GameStore :=
  match a with
  | SelectSong total => selectSong total s
  | StartPlaying => startPlaying s
  | EndGame => endGame s
  | ReturnToMenu => returnToMenu s
  | RecordHit quality x y now => recordHit quality x y now s
  | RecordMiss => recordMiss s
  | UpdateTime time => updateTime time s
  | ClearFloatingText olderThan => clearFloatingText olderThan s
  end.

(** The store after a sequence of calls, oldest first. *)
Definition steps (acts : list action) (s : GameStore) : GameStore :=
  foldl (fun s a => step a s) s acts.

(** The store and the desktop game state hold the same counters. *)
Definition same_counters (s : GameStore) (g : GameState.t) : Prop :=
  score s = GameState.Score g /\
  combo s = GameState.Combo g /\
  maxCombo s = GameState.MaxCombo g /\
  notesHit s = GameState.NotesHit g /\
  notesMissed s = GameState.NotesMissed g.

End WebStore.

(** The state of a game that cannot score: every note of the chart is
    already hit and the counters are at zero. *)
Definition exhausted (h : HitDetector.t) : Prop :=
  (forall j n, notes_of h !! j = Some n -> TabNote.Hit n = true) /\
  GameState.Score (HitDetector.state h) = 0 /\
  GameState.Combo (HitDetector.state h) = 0 /\
  GameState.MaxCombo (HitDetector.state h) = 0 /\
  GameState.NotesHit (HitDetector.state h) = 0 /\
  GameState.NotesMissed (HitDetector.state h) = 0.

(** What holds of the web game store after any sequence of calls. *)
Definition store_invariant (s : Web.GameStore) : Prop :=
  (Web.isPlaying s = true <-> Web.state s = Web.PLAYING) /\
  (Web.isFinished s = true <-> Web.state s = Web.RESULTS) /\
  0 <= Web.combo s <= Web.maxCombo s /\
  Web.maxCombo s <= Web.notesHit s /\
  0 <= Web.notesMissed s /\
  0 <= Web.score s <= 400 * Web.notesHit s /\
  (Z.of_nat (length (Web.floatingText s)) <= Web.notesHit s) /\
  (Web.state s = Web.MENU \/ Web.state s = Web.PRE_START ->
   Web.score s = 0 /\ Web.combo s = 0 /\ Web.maxCombo s = 0 /\
   Web.notesHit s = 0 /\ Web.notesMissed s = 0 /\ Web.floatingText s = []).

(** * Properties *)

(** ** Arithmetic of the primitives *)

(** A result that is present is the one [default] reads. *)
Lemma Some_default {A : Type} (d : A) (o : option A) :
  match o with Some _ => true | None => false end = true ->
  o = Some (default d o).
Proof. destruct o; [reflexivity | discriminate]. Qed.

Lemma wrap64_id (z : Z) : Go.is_int z -> Go.wrap64 z = z.
Proof.
  unfold Go.is_int, Go.int_min, Go.int_max, Go.wrap64. intros Hz.
  rewrite Z.mod_small; lia.
Qed.

Lemma wrap64_is_int (z : Z) : Go.is_int (Go.wrap64 z).
Proof.
  unfold Go.is_int, Go.int_min, Go.int_max, Go.wrap64.
  pose proof (Z.mod_pos_bound (z + 2 ^ 63) (2 ^ 64)). lia.
Qed.

Lemma fle_spec (x y : Q) : Go.fle x y = true <-> (x <= y)%Q.
Proof. apply Qle_bool_iff. Qed.

Lemma fle_false (x y : Q) : Go.fle x y = false <-> (y < x)%Q.
Proof.
  unfold Go.fle. split.
  - intros Hf. apply Qnot_le_lt. intros Hle.
    apply Qle_bool_iff in Hle. congruence.
  - intros Hlt. destruct (Qle_bool x y) eqn:E; [|reflexivity].
    apply Qle_bool_iff in E. lra.
Qed.

Lemma flt_spec (x y : Q) : Go.flt x y = true <-> (x < y)%Q.
Proof.
  unfold Go.flt. rewrite negb_true_iff. apply (fle_false y x).
Qed.

Lemma flt_false (x y : Q) : Go.flt x y = false <-> (y <= x)%Q.
Proof.
  unfold Go.flt. rewrite negb_false_iff. apply (fle_spec y x).
Qed.

Lemma fgt_spec (x y : Q) : Go.fgt x y = true <-> (y < x)%Q.
Proof. apply flt_spec. Qed.

Lemma fgt_false (x y : Q) : Go.fgt x y = false <-> (x <= y)%Q.
Proof. apply flt_false. Qed.

(** ** The timing classifier *)

Lemma getHitQuality_cases (t : Q) :
  ((t <= 0.050)%Q /\ HitDetector.getHitQuality t = HitPerfect) \/
  ((0.050 < t <= 0.100)%Q /\ HitDetector.getHitQuality t = HitGood) \/
  ((0.100 < t <= 0.150)%Q /\ HitDetector.getHitQuality t = HitOK) \/
  ((0.150 < t)%Q /\ HitDetector.getHitQuality t = HitMiss).
Proof.
  unfold HitDetector.getHitQuality, PerfectWindow, GoodWindow, OKWindow.
  destruct (Go.fle t 0.050) eqn:E1.
  { apply fle_spec in E1. left. split; [lra | reflexivity]. }
  apply fle_false in E1.
  destruct (Go.fle t 0.100) eqn:E2.
  { apply fle_spec in E2. right; left. split; [lra | reflexivity]. }
  apply fle_false in E2.
  destruct (Go.fle t 0.150) eqn:E3.
  { apply fle_spec in E3. right; right; left. split; [lra | reflexivity]. }
  apply fle_false in E3. right; right; right. split; [lra | reflexivity].
Qed.

(** C1. For every non-negative offset [t] the classifier returns Perfect
    exactly when [t <= 0.050], Good exactly when [0.050 < t <= 0.100], OK
    exactly when [0.100 < t <= 0.150] and Miss exactly when [t > 0.150];
    the base points of the four tiers are 100, 50, 25 and 0. A boundary
    value belongs to the better tier, and the four intervals cover
    [[0, infinity)] without overlap. *)
Theorem C1_getHitQuality_partition (t : Q) :
  (0 <= t)%Q ->
  (HitDetector.getHitQuality t = HitPerfect <-> (t <= 0.050)%Q) /\
  (HitDetector.getHitQuality t = HitGood <-> (0.050 < t <= 0.100)%Q) /\
  (HitDetector.getHitQuality t = HitOK <-> (0.100 < t <= 0.150)%Q) /\
  (HitDetector.getHitQuality t = HitMiss <-> (0.150 < t)%Q) /\
  HitQuality.Score HitPerfect = 100 /\
  HitQuality.Score HitGood = 50 /\
  HitQuality.Score HitOK = 25 /\
  HitQuality.Score HitMiss = 0 /\
  HitDetector.getHitQuality 0.050 = HitPerfect /\
  HitDetector.getHitQuality 0.100 = HitGood /\
  HitDetector.getHitQuality 0.150 = HitOK.
Proof.
  intros _.
  destruct (getHitQuality_cases t) as [[Ht Hq]|[[Ht Hq]|[[Ht Hq]|[Ht Hq]]]];
    rewrite Hq;
    repeat split; try reflexivity; try discriminate; try lra;
    intros; try discriminate; try lra.
Qed.

Lemma C1_getHitQuality_partition_witness :
  (0 <= 0.100)%Q /\ HitDetector.getHitQuality 0.100 = HitGood.
Proof.
  split; [discriminate |].
  apply (proj2 (proj1 (proj2 (C1_getHitQuality_partition 0.100 ltac:(discriminate))))).
  split; [reflexivity | discriminate].
Defined.

(** ** Score and combo state *)

Lemma multiplier_web (c : Z) :
  Web.getComboMultiplier c = GameState.multiplier c.
Proof.
  unfold Web.getComboMultiplier, GameState.multiplier.
  destruct (50 <=? c) eqn:E50, (25 <=? c) eqn:E25, (10 <=? c) eqn:E10;
    try reflexivity; lia.
Qed.

Lemma multiplier_ladder (c : Z) :
  (c < 10 -> GameState.multiplier c = 1) /\
  (10 <= c < 25 -> GameState.multiplier c = 2) /\
  (25 <= c < 50 -> GameState.multiplier c = 3) /\
  (50 <= c -> GameState.multiplier c = 4).
Proof.
  unfold GameState.multiplier.
  destruct (50 <=? c) eqn:E50, (25 <=? c) eqn:E25, (10 <=? c) eqn:E10;
    repeat split; intros; try reflexivity; lia.
Qed.

Lemma multiplier_mono (c d : Z) :
  c <= d -> GameState.multiplier c <= GameState.multiplier d.
Proof.
  intros Hcd.
  destruct (multiplier_ladder c) as (C1 & C2 & C3 & C4).
  destruct (multiplier_ladder d) as (D1 & D2 & D3 & D4).
  destruct (Z_lt_le_dec c 10); [rewrite C1 by lia|];
    (destruct (Z_lt_le_dec d 10); [rewrite D1 by lia; lia|]).
  - destruct (Z_lt_le_dec d 25); [rewrite D2 by lia; lia|].
    destruct (Z_lt_le_dec d 50); [rewrite D3 by lia; lia|]. rewrite D4; lia.
  - destruct (Z_lt_le_dec c 25); [rewrite C2 by lia|];
      (destruct (Z_lt_le_dec d 25); [rewrite D2 by lia; lia|]);
      (destruct (Z_lt_le_dec d 50); [rewrite D3 by lia|rewrite D4 by lia]);
      try lia;
      (destruct (Z_lt_le_dec c 50); [rewrite C3 by lia|rewrite C4 by lia]);
      lia.
Qed.

(** What [RegisterHit] does on a quality other than Miss. *)
Lemma RegisterHit_hit (g : GameState.t) (i : nat) (q : HitQuality.t)
    (x y now : Q) :
  q <> HitMiss ->
  let g' := GameState.RegisterHit g i q x y now in
  let combo' := Go.add (GameState.Combo g) 1 in
  GameState.Combo g' = combo' /\
  GameState.MaxCombo g' =
    (if GameState.MaxCombo g <? combo' then combo' else GameState.MaxCombo g) /\
  GameState.Score g' =
    Go.add (GameState.Score g)
           (Go.mul (HitQuality.Score q) (GameState.multiplier combo')) /\
  GameState.NotesHit g' = Go.add (GameState.NotesHit g) 1 /\
  GameState.NotesMissed g' = GameState.NotesMissed g.
Proof.
  intros Hq. unfold GameState.RegisterHit.
  rewrite bool_decide_eq_false_2 by exact Hq. simpl. repeat split.
Qed.

(** What [RegisterHit] does on a Miss. *)
Lemma RegisterHit_miss (g : GameState.t) (i : nat) (x y now : Q) :
  let g' := GameState.RegisterHit g i HitMiss x y now in
  GameState.Combo g' = 0 /\
  GameState.MaxCombo g' = GameState.MaxCombo g /\
  GameState.Score g' = Go.add (GameState.Score g) 0 /\
  GameState.NotesHit g' = GameState.NotesHit g /\
  GameState.NotesMissed g' = Go.add (GameState.NotesMissed g) 1.
Proof. unfold GameState.RegisterHit. simpl. repeat split. Qed.

(** What [RegisterHit] leaves alone, and what it does to the notes, the
    floating text and the log. *)
Lemma RegisterHit_frame (g : GameState.t) (i : nat) (q : HitQuality.t)
    (x y now : Q) :
  let g' := GameState.RegisterHit g i q x y now in
  Song.Notes (GameState.Song g') =
    alter (TabNote.judge q (GameState.CurrentTime g)) i
          (Song.Notes (GameState.Song g)) /\
  Song.Tuning (GameState.Song g') = Song.Tuning (GameState.Song g) /\
  Song.TuningStr (GameState.Song g') = Song.TuningStr (GameState.Song g) /\
  GameState.CurrentTime g' = GameState.CurrentTime g /\
  GameState.TotalNotes g' = GameState.TotalNotes g /\
  GameState.Registered g' = GameState.Registered g ++ [(i, q)] /\
  exists text,
    GameState.FloatingText g' =
      GameState.FloatingText g ++ [FloatingScore.mk text x y now q].
Proof.
  unfold GameState.RegisterHit.
  destruct (negb (bool_decide (q = HitMiss))); simpl; repeat split; eauto.
Qed.

(** C6. The combo multiplier takes exactly the values 1, 2, 3 and 4, with
    breakpoints at 10, 25 and 50, and is monotonic non-decreasing; the web
    build's [getComboMultiplier] is the same function. On every non-Miss
    hit [RegisterHit] evaluates it on the combo after the increment. In
    particular an 11th consecutive Perfect hit (combo 10 before the call)
    adds 100 * 2 = 200 points and leaves maxCombo at least 11. *)
Theorem C6_combo_multiplier :
  (forall c, (c < 10 -> GameState.multiplier c = 1) /\
             (10 <= c < 25 -> GameState.multiplier c = 2) /\
             (25 <= c < 50 -> GameState.multiplier c = 3) /\
             (50 <= c -> GameState.multiplier c = 4)) /\
  (forall c d, c <= d -> GameState.multiplier c <= GameState.multiplier d) /\
  (forall c, Web.getComboMultiplier c = GameState.multiplier c) /\
  (forall g i q x y now,
     q <> HitMiss ->
     GameState.Score (GameState.RegisterHit g i q x y now) =
       Go.add (GameState.Score g)
         (Go.mul (HitQuality.Score q)
            (GameState.multiplier (Go.add (GameState.Combo g) 1)))) /\
  (forall g i x y now,
     GameState.Combo g = 10 ->
     Go.is_int (GameState.Score g + 200) ->
     let g' := GameState.RegisterHit g i HitPerfect x y now in
     GameState.Score g' = GameState.Score g + 200 /\
     GameState.Combo g' = 11 /\
     11 <= GameState.MaxCombo g').
Proof.
  split; [exact multiplier_ladder|].
  split; [exact multiplier_mono|].
  split; [exact multiplier_web|].
  split.
  - intros g i q x y now Hq.
    apply (RegisterHit_hit g i q x y now Hq).
  - intros g i x y now Hc Hs g'.
    destruct (RegisterHit_hit g i HitPerfect x y now ltac:(discriminate))
      as (Ec & Em & Es & _).
    fold g' in Ec, Em, Es. rewrite Hc in *.
    change (Go.add 10 1) with 11 in *.
    change (Go.mul (HitQuality.Score HitPerfect) (GameState.multiplier 11))
      with 200 in Es.
    split; [|split].
    + rewrite Es. unfold Go.add. apply wrap64_id. exact Hs.
    + exact Ec.
    + rewrite Em. destruct (GameState.MaxCombo g <? 11) eqn:E; lia.
Qed.

Lemma C6_combo_multiplier_witness :
  let g := Demo.streak [Demo.note 2.0 3 0] 10 1000 in
  GameState.Score (GameState.RegisterHit g 0 HitPerfect 0 0 0) = 1200 /\
  11 <= GameState.MaxCombo (GameState.RegisterHit g 0 HitPerfect 0 0 0).
Proof.
  intros g.
  destruct C6_combo_multiplier as (_ & _ & _ & _ & H11).
  destruct (H11 g 0%nat 0%Q 0%Q 0%Q eq_refl) as (Hs & _ & Hm).
  - vm_compute. split; discriminate.
  - split; [exact Hs | exact Hm].
Defined.

(** The points [RegisterHit] awards are positive exactly on a quality other
    than Miss. *)
Lemma points_positive (q : HitQuality.t) (c : Z) :
  (0 <? Go.mul (HitQuality.Score q) (GameState.multiplier c)) =
  negb (bool_decide (q = HitMiss)).
Proof.
  unfold GameState.multiplier.
  destruct (10 <=? c), (25 <=? c), (50 <=? c); destruct q; reflexivity.
Qed.

Lemma digit_string_pretty (n : Z) :
  0 <= n <= 9 -> Go.digit_string n = pretty n.
Proof.
  intros Hn.
  assert (n ∈ seqZ 0 10) as Hc by (apply elem_of_seqZ; lia).
  change (seqZ 0 10) with [0; 1; 2; 3; 4; 5; 6; 7; 8; 9] in Hc.
  repeat (apply elem_of_cons in Hc as [-> | Hc]; [reflexivity |]).
  inversion Hc.
Qed.

(** C7 (amended). Desktop: every call of [RegisterHit], hit or miss, appends
    exactly one floating score; its text is the quality label, followed
    exactly when the quality is not Miss and the combo after the call
    exceeds 1 by " x" and the combo count capped at 9 (one decimal digit).
    Web: [recordHit] while playing appends exactly one floating score whose
    text is the quality label followed, exactly when the combo multiplier
    exceeds 1, by " x" and the multiplier; [recordMiss] appends none. *)
Theorem C7_floating_text_amended :
  (forall g i q x y now,
     let g' := GameState.RegisterHit g i q x y now in
     let text :=
       if negb (bool_decide (q = HitMiss)) && (1 <? GameState.Combo g')
       then HitQuality.String q +:+ " x" +:+ pretty (min (GameState.Combo g') 9)
       else HitQuality.String q in
     GameState.FloatingText g' =
       GameState.FloatingText g ++ [FloatingScore.mk text x y now q]) /\
  (forall s q x y now,
     Web.state s = Web.PLAYING ->
     let s' := Web.recordHit q x y now s in
     let m := Web.getComboMultiplier (Web.combo s') in
     let text :=
       if 1 <? m then Web.hitQualityText q +:+ " x" +:+ pretty m
       else Web.hitQualityText q in
     Web.floatingText s' =
       Web.floatingText s ++ [FloatingScore.mk text x y now q]) /\
  (forall s, Web.floatingText (Web.recordMiss s) = Web.floatingText s).
Proof.
  split; [|split].
  - intros g i q x y now. unfold GameState.RegisterHit.
    destruct (bool_decide (q = HitMiss)) eqn:Eq; simpl.
    + apply bool_decide_eq_true_1 in Eq. subst q. reflexivity.
    + rewrite points_positive, Eq. simpl.
      destruct (1 <? Go.add (GameState.Combo g) 1) eqn:Ec; [|reflexivity].
      rewrite digit_string_pretty; [reflexivity|].
      unfold min. destruct (Go.add (GameState.Combo g) 1 <? 9) eqn:E9; lia.
  - intros s q x y now Hs. unfold Web.recordHit.
    rewrite bool_decide_eq_true_2 by exact Hs. reflexivity.
  - intros s. unfold Web.recordMiss.
    destruct (negb (bool_decide (Web.state s = Web.PLAYING))); reflexivity.
Qed.

(** C7 fails as stated: the second hit of a streak has multiplier 1, yet its
    text carries a suffix ("Perfect! x2"). *)
Lemma C7_counterexample :
  let g := Demo.streak [Demo.note 2.0 3 0] 1 100 in
  let g' := GameState.RegisterHit g 0 HitPerfect 0 0 0 in
  GameState.multiplier (GameState.Combo g') = 1 /\
  FloatingScore.Text <$> last (GameState.FloatingText g') = Some "Perfect! x2" /\
  FloatingScore.Text <$> last (GameState.FloatingText g') <>
    Some (text_as_specified HitPerfect (GameState.multiplier (GameState.Combo g'))).
Proof. vm_compute. repeat split; discriminate. Qed.

Lemma C7_floating_text_amended_witness :
  let s := Web.mkGameStore Web.PLAYING 0 0 9 9 9 0 20 true false [] in
  Web.floatingText (Web.recordHit HitGood 1 2 3 s) =
    [FloatingScore.mk "Good x2" 1 2 3 HitGood].
Proof.
  intros s.
  exact (proj1 (proj2 C7_floating_text_amended) s HitGood 1%Q 2%Q 3%Q eq_refl).
Defined.

(** ** Judgments *)

Lemma notes_of_register h i q x y now :
  notes_of (register h i q x y now) =
  alter (TabNote.judge q (GameState.CurrentTime (HitDetector.state h))) i
        (notes_of h).
Proof.
  unfold notes_of, register. simpl.
  apply (RegisterHit_frame (HitDetector.state h) i q x y now).
Qed.

Lemma log_of_register h i q x y now :
  log_of (register h i q x y now) = log_of h ++ [(i, q)].
Proof.
  unfold log_of, register. simpl.
  apply (RegisterHit_frame (HitDetector.state h) i q x y now).
Qed.

Lemma judged_once_same (h h' : HitDetector.t) :
  notes_of h' = notes_of h -> log_of h' = log_of h -> judged_once h h'.
Proof.
  intros En El. unfold judged_once. rewrite En, El.
  split; [reflexivity|]. split; [tauto|].
  exists []. rewrite app_nil_r. split; [reflexivity|].
  split; [constructor|]. intros i Hi. simpl in Hi. inversion Hi.
Qed.

Lemma judged_once_refl (h : HitDetector.t) : judged_once h h.
Proof. apply judged_once_same; reflexivity. Qed.

Lemma judged_once_trans (h1 h2 h3 : HitDetector.t) :
  judged_once h1 h2 -> judged_once h2 h3 -> judged_once h1 h3.
Proof.
  intros (L12 & F12 & new1 & E1 & D1 & N1) (L23 & F23 & new2 & E2 & D2 & N2).
  split; [congruence|]. split; [eauto|].
  exists (new1 ++ new2). split; [rewrite E2, E1, app_assoc; reflexivity|].
  rewrite fmap_app. split.
  - apply NoDup_app. split; [exact D1|]. split; [|exact D2].
    intros i Hi1 Hi2.
    destruct (N1 i Hi1) as (_ & n' & Hn' & Hh').
    destruct (N2 i Hi2) as ((n & Hn & Hh) & _).
    congruence.
  - intros i Hi. apply elem_of_app in Hi as [Hi|Hi].
    + destruct (N1 i Hi) as (Hu & n' & Hn' & Hh').
      split; [exact Hu|]. exists n'. eauto.
    + destruct (N2 i Hi) as ((n & Hn & Hh) & Hhit).
      split; [|exact Hhit].
      assert (is_Some (notes_of h1 !! i)) as [m Hm].
      { apply lookup_lt_is_Some. rewrite <- L12.
        apply lookup_lt_is_Some. eauto. }
      exists m. split; [exact Hm|].
      destruct (TabNote.Hit m) eqn:Em; [|reflexivity].
      specialize (F12 i m Hm Em). congruence.
Qed.

Lemma judged_once_step (h h' : HitDetector.t) :
  judge_step h h' -> judged_once h h'.
Proof.
  intros [h0 i n q x y now Hn Hu].
  split; [|split].
  - rewrite notes_of_register. apply length_alter.
  - intros j m Hm Hh. rewrite notes_of_register.
    rewrite list_lookup_alter_ne; [exact Hm|]. intros ->. congruence.
  - exists [(i, q)]. split; [apply log_of_register|].
    split; [apply NoDup_singleton|].
    intros j Hj. apply list_elem_of_singleton in Hj. simpl in Hj. subst j.
    split; [eauto|].
    rewrite notes_of_register, list_lookup_alter_eq, Hn. simpl. eauto.
Qed.

Lemma judged_once_steps (h h' : HitDetector.t) :
  rtc judge_step h h' -> judged_once h h'.
Proof.
  induction 1 as [|h1 h2 h3 Hs _ IH]; [apply judged_once_refl|].
  eapply judged_once_trans; [apply judged_once_step, Hs | exact IH].
Qed.

(** Both scans are sequences of judgments. *)
Lemma CheckHit_loop_judges `{Externals} pitch playLineX now ct idxs h h' :
  HitDetector.CheckHit_loop pitch playLineX now ct idxs h = Some h' ->
  rtc judge_step h h'.
Proof.
  revert h. induction idxs as [|i rest IH]; intros h Hrun; simpl in Hrun.
  { injection Hrun as <-. constructor. }
  destruct (Song.Notes (GameState.Song (HitDetector.state h)) !! i)
    as [n|] eqn:Hn; simpl in Hrun; [|discriminate].
  destruct (TabNote.Hit n) eqn:Hh; [eauto|].
  destruct (Go.fgt _ _); [eauto|].
  destruct (Go.flt _ _).
  { eapply rtc_l; [|apply IH, Hrun]. econstructor; eassumption. }
  destruct (HitDetector.notesMatch h pitch n) as [[|]|]; simpl in Hrun;
    [|eauto|discriminate].
  injection Hrun as <-. apply rtc_once. econstructor; eassumption.
Qed.

Lemma CheckHit_judges `{Externals} pitch playLineX now h h' :
  HitDetector.CheckHit pitch playLineX now h = Some h' ->
  rtc judge_step h h'.
Proof.
  unfold HitDetector.CheckHit.
  destruct (negb (PitchResult.IsValid pitch)).
  - intros [= <-]. constructor.
  - apply CheckHit_loop_judges.
Qed.

Lemma Update_loop_judges now ct idxs h h' :
  HitDetector.Update_loop now ct idxs h = Some h' -> rtc judge_step h h'.
Proof.
  revert h. induction idxs as [|i rest IH]; intros h Hrun; simpl in Hrun.
  { injection Hrun as <-. constructor. }
  destruct (Song.Notes (GameState.Song (HitDetector.state h)) !! i)
    as [n|] eqn:Hn; simpl in Hrun; [|discriminate].
  destruct (TabNote.Hit n) eqn:Hh; [eauto|].
  destruct (Go.fgt _ _); [|eauto].
  eapply rtc_l; [|apply IH, Hrun]. econstructor; eassumption.
Qed.

Lemma run_call_steps `{Externals} c h h' :
  run_call c h = Some h' -> rtc session_step h h'.
Proof.
  destruct c as [now|now|pitch x now|now]; simpl.
  - intros [= <-]. apply rtc_once, session_start.
  - intros [= <-]. apply rtc_once, session_tick.
  - intros Hc. apply CheckHit_judges in Hc.
    eapply rtc_subrel; [|exact Hc]. intros ? ?. apply session_judge.
  - intros Hu. apply Update_loop_judges in Hu.
    eapply rtc_subrel; [|exact Hu]. intros ? ?. apply session_judge.
Qed.

Lemma run_steps `{Externals} cs h h' :
  run cs h = Some h' -> rtc session_step h h'.
Proof.
  revert h. induction cs as [|c cs IH]; intros h; simpl.
  { intros [= <-]. constructor. }
  destruct (run_call c h) as [h1|] eqn:Hc; simpl; [|discriminate].
  intros Hr. etransitivity; [apply (run_call_steps c), Hc | apply IH, Hr].
Qed.

Lemma judged_once_session_step (h h' : HitDetector.t) :
  session_step h h' -> judged_once h h'.
Proof.
  intros [h0 h1 Hj|h0 now|h0 now].
  - apply judged_once_step, Hj.
  - apply judged_once_same; reflexivity.
  - apply judged_once_same; unfold notes_of, log_of, GameState.Update; simpl;
      destruct (negb (GameState.IsPlaying (HitDetector.state h0)));
      reflexivity.
Qed.

Lemma judged_once_session (h h' : HitDetector.t) :
  rtc session_step h h' -> judged_once h h'.
Proof.
  induction 1 as [|h1 h2 h3 Hs _ IH]; [apply judged_once_refl|].
  eapply judged_once_trans; [apply judged_once_session_step, Hs | exact IH].
Qed.

(** C5. Over any sequence of calls of [CheckHit] and [Update] (and of the
    clock), a note already marked hit is never judged again: it is left
    exactly as it was, and the calls of [RegisterHit] made by the sequence
    concern pairwise distinct notes, none of which was hit before. From a
    freshly selected chart, [RegisterHit] is therefore called at most once
    per note over the whole session. *)
Theorem C5_judged_at_most_once `{Externals} (cs : list call)
    (h h' : HitDetector.t) :
  run cs h = Some h' ->
  (forall i n, notes_of h !! i = Some n -> TabNote.Hit n = true ->
               notes_of h' !! i = Some n) /\
  (exists new,
     log_of h' = log_of h ++ new /\
     NoDup new.*1 /\
     forall i, i ∈ new.*1 ->
       exists n, notes_of h !! i = Some n /\ TabNote.Hit n = false) /\
  (log_of h = [] -> NoDup (log_of h').*1).
Proof.
  intros Hrun. apply run_steps, judged_once_session in Hrun.
  destruct Hrun as (_ & Hf & new & El & Hd & Hn).
  split; [exact Hf|]. split.
  - exists new. split; [exact El|]. split; [exact Hd|].
    intros i Hi. apply (Hn i Hi).
  - intros E0. rewrite El, E0. exact Hd.
Qed.

Lemma C5_judged_at_most_once_witness :
  let h := Demo.playing (H := Standin.externals)
             [Demo.note 1.0 3 0; Demo.note 2.0 2 0] 2.5 in
  let cs := [CallCheckHit (Demo.sample 55 0.9) 100 0; CallUpdate 0;
             CallTick 3; CallCheckHit (Demo.sample 55 0.9) 100 0;
             CallUpdate 0] in
  let h' := default h (run (H := Standin.externals) cs h) in
  run (H := Standin.externals) cs h = Some h' /\
  NoDup (log_of h').*1.
Proof.
  intros h cs h'.
  assert (run (H := Standin.externals) cs h = Some h') as Hrun
    by (apply Some_default; vm_compute; reflexivity).
  split; [exact Hrun|].
  apply (C5_judged_at_most_once (H := Standin.externals) cs h h' Hrun).
  reflexivity.
Defined.

(** ** The miss sweep *)

Lemma Update_loop_spec (now ct : Q) (idxs : list nat) (h : HitDetector.t) :
  NoDup idxs ->
  (forall i, i ∈ idxs -> (i < length (notes_of h))%nat) ->
  exists h',
    HitDetector.Update_loop now ct idxs h = Some h' /\
    length (notes_of h') = length (notes_of h) /\
    GameState.CurrentTime (HitDetector.state h') =
      GameState.CurrentTime (HitDetector.state h) /\
    (forall e, e ∈ log_of h -> e ∈ log_of h') /\
    forall j n,
      notes_of h !! j = Some n ->
      (j ∈ idxs -> TabNote.Hit n = false ->
       Go.fgt (ct - TabNote.Time n) MissWindow = true ->
       (j, HitMiss) ∈ log_of h' /\
       notes_of h' !! j =
         Some (TabNote.judge HitMiss
                 (GameState.CurrentTime (HitDetector.state h)) n)) /\
      (j ∉ idxs \/ TabNote.Hit n = true \/
       Go.fgt (ct - TabNote.Time n) MissWindow = false ->
       notes_of h' !! j = Some n).
Proof.
  revert h. induction idxs as [|i rest IH]; intros h Hnd Hlt; simpl.
  { exists h. do 3 (split; [reflexivity|]). split; [auto|].
    intros j n Hn. split; [|intros _; exact Hn].
    intros Hj. inversion Hj. }
  apply NoDup_cons in Hnd as [Hi Hnd].
  assert (is_Some (notes_of h !! i)) as [ni Hni].
  { apply lookup_lt_is_Some, Hlt. left. }
  assert (TabNote.Hit ni = true \/
          Go.fgt (ct - TabNote.Time ni) MissWindow = false ->
          exists h',
            HitDetector.Update_loop now ct rest h = Some h' /\
            length (notes_of h') = length (notes_of h) /\
            GameState.CurrentTime (HitDetector.state h') =
              GameState.CurrentTime (HitDetector.state h) /\
            (forall e, e ∈ log_of h -> e ∈ log_of h') /\
            forall j n,
              notes_of h !! j = Some n ->
              (j ∈ i :: rest -> TabNote.Hit n = false ->
               Go.fgt (ct - TabNote.Time n) MissWindow = true ->
               (j, HitMiss) ∈ log_of h' /\
               notes_of h' !! j =
                 Some (TabNote.judge HitMiss
                         (GameState.CurrentTime (HitDetector.state h)) n)) /\
              (j ∉ i :: rest \/ TabNote.Hit n = true \/
               Go.fgt (ct - TabNote.Time n) MissWindow = false ->
               notes_of h' !! j = Some n)) as Hskip.
  { intros Hs.
    destruct (IH h Hnd) as (h' & Hrun & Hl & Hc & Hlog & Hnotes).
    { intros k Hk. apply Hlt. right. exact Hk. }
    exists h'. do 4 (split; [assumption|]).
    intros j n Hn. split.
    - intros Hj Hu Hpast. apply elem_of_cons in Hj as [->|Hj].
      + assert (n = ni) as -> by congruence.
        destruct Hs; congruence.
      + apply (Hnotes j n); assumption.
    - intros Hc'. destruct (decide (j = i)) as [->|Hne].
      + apply (Hnotes i n); [assumption|]. left. exact Hi.
      + apply (Hnotes j n); [assumption|].
        destruct Hc' as [Hc'|Hc']; [|right; exact Hc'].
        left. intros Hin. apply Hc'. right. exact Hin. }
  fold (notes_of h). rewrite Hni. simpl.
  destruct (TabNote.Hit ni) eqn:Hh; [apply Hskip; left; reflexivity|].
  destruct (Go.fgt (ct - TabNote.Time ni) MissWindow) eqn:Hp;
    [|apply Hskip; right; reflexivity].
  clear Hskip.
  set (h1 := HitDetector.with_state h _).
  change h1 with (register h i HitMiss 0 (HitDetector.noteY ni) now) in *.
  assert (notes_of h1 =
          alter (TabNote.judge HitMiss
                   (GameState.CurrentTime (HitDetector.state h))) i
                (notes_of h)) as En by apply notes_of_register.
  assert (log_of h1 = log_of h ++ [(i, HitMiss)]) as El
    by apply log_of_register.
  assert (GameState.CurrentTime (HitDetector.state h1) =
          GameState.CurrentTime (HitDetector.state h)) as Ec
    by apply RegisterHit_frame.
  destruct (IH h1 Hnd) as (h' & Hrun & Hl & Hc & Hlog & Hnotes).
  { intros k Hk. rewrite En, length_alter. apply Hlt. right. exact Hk. }
  exists h'. split; [exact Hrun|].
  split; [rewrite Hl, En; apply length_alter|].
  split; [congruence|].
  split.
  { intros e He. apply Hlog. rewrite El. apply elem_of_app. left. exact He. }
  intros j n Hn. destruct (decide (j = i)) as [->|Hne].
  - assert (n = ni) as -> by congruence.
    split.
    + intros _ _ _. split.
      * apply Hlog. rewrite El. apply elem_of_app. right. left.
      * apply (Hnotes i); [|left; exact Hi].
        rewrite En, list_lookup_alter_eq, Hni. reflexivity.
    + intros [Hc'|[Hc'|Hc']]; [|congruence|congruence].
      exfalso. apply Hc'. left.
  - assert (notes_of h1 !! j = Some n) as Hn1.
    { rewrite En, list_lookup_alter_ne; [exact Hn | congruence]. }
    split.
    + intros Hj Hu Hpast. apply elem_of_cons in Hj as [->|Hj]; [done|].
      rewrite <- Ec. apply (Hnotes j n); assumption.
    + intros Hc'. apply (Hnotes j n); [assumption|].
      destruct Hc' as [Hc'|Hc']; [|right; exact Hc'].
      left. intros Hin. apply Hc'. right. exact Hin.
Qed.


(** C4. One call of the miss sweep [HitDetector.Update] always completes,
    and registers as Miss (hit = true, quality Miss, one [RegisterHit] call
    with Miss) every note that is not yet hit and whose age exceeds the
    miss window ([currentTime - note.time > 0.300]); no pitch sample is
    involved. Notes already hit are left untouched. *)
Theorem C4_miss_sweep (now : Q) (h : HitDetector.t) :
  exists h',
    HitDetector.Update now h = Some h' /\
    forall i n,
      notes_of h !! i = Some n ->
      (TabNote.Hit n = false ->
       (MissWindow <
          GameState.CurrentTime (HitDetector.state h) - TabNote.Time n)%Q ->
       (i, HitMiss) ∈ log_of h' /\
       exists n',
         notes_of h' !! i = Some n' /\
         TabNote.Hit n' = true /\
         TabNote.HitQuality n' = HitMiss /\
         n' = TabNote.judge HitMiss
                (GameState.CurrentTime (HitDetector.state h)) n) /\
      (TabNote.Hit n = true -> notes_of h' !! i = Some n).
Proof.
  destruct (Update_loop_spec now (GameState.CurrentTime (HitDetector.state h))
              (seq 0 (length (notes_of h))) h)
    as (h' & Hrun & _ & _ & _ & Hnotes).
  { apply NoDup_seq. }
  { intros i Hi. apply elem_of_seq in Hi. lia. }
  exists h'. split; [exact Hrun|].
  intros i n Hn. split.
  - intros Hu Hpast.
    destruct (proj1 (Hnotes i n Hn)) as [Hlog Hn'].
    + apply elem_of_seq. apply lookup_lt_Some in Hn. lia.
    + exact Hu.
    + apply fgt_spec. exact Hpast.
    + split; [exact Hlog|]. eexists. split; [exact Hn'|]. repeat split.
  - intros Hh. apply (Hnotes i n Hn). right. left. exact Hh.
Qed.

Lemma C4_miss_sweep_witness :
  let h := Demo.playing (H := Standin.externals) [Demo.note 2.0 3 0] 2.35 in
  exists h',
    HitDetector.Update 0 h = Some h' /\
    (0%nat, HitMiss) ∈ log_of h' /\
    (TabNote.HitQuality <$> notes_of h' !! 0%nat) = Some HitMiss.
Proof.
  intros h. destruct (C4_miss_sweep 0 h) as (h' & Hrun & Hnotes).
  exists h'. split; [exact Hrun|].
  destruct (proj1 (Hnotes 0%nat (Demo.note 2.0 3 0) eq_refl) eq_refl eq_refl)
    as (Hlog & n' & Hn' & _ & Hq & _).
  split; [exact Hlog|]. rewrite Hn'. simpl. rewrite Hq. reflexivity.
Defined.

(** ** The scan of [CheckHit] *)

Lemma notesMatch_register `{Externals} h i q x y now pitch n :
  HitDetector.notesMatch (register h i q x y now) pitch n =
  HitDetector.notesMatch h pitch n.
Proof.
  unfold HitDetector.notesMatch, Song.NoteAt, Song.OctaveAt, Song.GetTuning,
    register. simpl.
  destruct (RegisterHit_frame (HitDetector.state h) i q x y now)
    as (_ & -> & -> & _). reflexivity.
Qed.

Lemma CheckHit_loop_cons `{Externals} pitch x now ct j r h n :
  notes_of h !! j = Some n ->
  HitDetector.CheckHit_loop pitch x now ct (j :: r) h =
    if TabNote.Hit n then HitDetector.CheckHit_loop pitch x now ct r h
    else if Go.fgt (TabNote.Time n - ct) MissWindow
    then HitDetector.CheckHit_loop pitch x now ct r h
    else if Go.flt (TabNote.Time n - ct) (- MissWindow)
    then HitDetector.CheckHit_loop pitch x now ct r
           (register h j HitMiss x (HitDetector.noteY n) now)
    else
      matched ← HitDetector.notesMatch h pitch n;
      if (matched : bool)
      then Some (register h j
                   (HitDetector.getHitQuality (Qabs (TabNote.Time n - ct)))
                   x (HitDetector.noteY n) now)
      else HitDetector.CheckHit_loop pitch x now ct r h.
Proof. intros Hn. simpl. fold (notes_of h). rewrite Hn. reflexivity. Qed.

Lemma CheckHit_loop_scan `{Externals} pitch x now ct idxs h h' :
  HitDetector.CheckHit_loop pitch x now ct idxs h = Some h' ->
  scan pitch x now ct h h'.
Proof.
  revert h. induction idxs as [|i rest IH]; intros h Hrun; simpl in Hrun.
  { injection Hrun as <-. constructor. }
  fold (notes_of h) in Hrun.
  destruct (notes_of h !! i) as [n|] eqn:Hn; simpl in Hrun; [|discriminate].
  destruct (TabNote.Hit n) eqn:Hh; [eauto|].
  destruct (Go.fgt _ _) eqn:Hf; [eauto|].
  apply fgt_false in Hf.
  destruct (Go.flt _ _) eqn:Hs.
  { apply flt_spec in Hs.
    eapply scan_miss; [exact Hn|exact Hh|exact Hs|]. apply IH, Hrun. }
  apply flt_false in Hs.
  destruct (HitDetector.notesMatch h pitch n) as [[|]|] eqn:Hm;
    simpl in Hrun; [|eauto|discriminate].
  injection Hrun as <-.
  apply scan_match; [exact Hn|exact Hh|split; assumption|exact Hm].
Qed.

(** A scan never touches a note that is already hit or still beyond the
    miss window, and never changes the clock. *)
Lemma scan_untouched `{Externals} pitch x now ct h h' :
  scan pitch x now ct h h' ->
  length (notes_of h') = length (notes_of h) /\
  forall j n,
    notes_of h !! j = Some n ->
    TabNote.Hit n = true \/ future ct n ->
    notes_of h' !! j = Some n.
Proof.
  induction 1 as [h|h i n h' Hn Hu Hs _ IH|h i n Hn Hu Hw Hm].
  - split; [reflexivity|tauto].
  - destruct IH as [IHl IHn]. rewrite notes_of_register in IHl, IHn.
    rewrite length_alter in IHl. split; [exact IHl|].
    intros j m Hm Hc. apply IHn; [|exact Hc].
    rewrite list_lookup_alter_ne; [exact Hm|]. intros ->.
    assert (m = n) as -> by congruence.
    destruct Hc as [Hc|Hc]; [congruence|].
    unfold future, stale, MissWindow in *. lra.
  - rewrite notes_of_register. split; [apply length_alter|].
    intros j m Hj Hc.
    rewrite list_lookup_alter_ne; [exact Hj|]. intros ->.
    assert (m = n) as -> by congruence.
    destruct Hc as [Hc|Hc]; [congruence|].
    unfold future, in_window, MissWindow in *. lra.
Qed.

(** The notes a scan turns from not hit to hit are past the miss window,
    except at most one. *)
Lemma scan_one_match `{Externals} pitch x now ct h h' :
  scan pitch x now ct h h' ->
  forall i j ni nj ni' nj',
    notes_of h !! i = Some ni -> notes_of h' !! i = Some ni' ->
    notes_of h !! j = Some nj -> notes_of h' !! j = Some nj' ->
    TabNote.Hit ni = false -> TabNote.Hit ni' = true -> ~ stale ct ni ->
    TabNote.Hit nj = false -> TabNote.Hit nj' = true -> ~ stale ct nj ->
    i = j.
Proof.
  induction 1 as [h|h k n h' Hn Hu Hs _ IH|h k n Hn Hu Hw Hm];
    intros i j ni nj ni' nj' Hi Hi' Hj Hj' Ui Ui' Si Uj Uj' Sj.
  - congruence.
  - rewrite notes_of_register in IH.
    assert (i <> k) as Nik. { intros ->. apply Si. congruence. }
    assert (j <> k) as Njk. { intros ->. apply Sj. congruence. }
    apply (IH i j ni nj ni' nj'); try assumption;
      rewrite list_lookup_alter_ne; congruence.
  - rewrite notes_of_register in Hi', Hj'.
    destruct (decide (i = k)) as [->|Nik].
    + destruct (decide (j = k)) as [->|Njk]; [reflexivity|].
      rewrite list_lookup_alter_ne in Hj' by congruence. congruence.
    + rewrite list_lookup_alter_ne in Hi' by congruence. congruence.
Qed.

(** The log entries a scan adds concern notes that were neither hit nor
    beyond the miss window. *)
Lemma scan_log `{Externals} pitch x now ct h h' :
  scan pitch x now ct h h' ->
  exists new,
    log_of h' = log_of h ++ new /\
    forall j, j ∈ new.*1 ->
      exists n, notes_of h !! j = Some n /\ TabNote.Hit n = false /\
                ~ future ct n.
Proof.
  induction 1 as [h|h k n h' Hn Hu Hs Hscan IH|h k n Hn Hu Hw Hm].
  - exists []. rewrite app_nil_r. split; [reflexivity|].
    intros j Hj. inversion Hj.
  - destruct IH as (new & El & Hnew).
    rewrite log_of_register in El. rewrite notes_of_register in Hnew.
    exists ((k, HitMiss) :: new).
    split; [rewrite El, <- app_assoc; reflexivity|].
    intros j Hj. rewrite fmap_cons in Hj. simpl in Hj.
    destruct (decide (j = k)) as [->|Njk].
    + exists n. repeat split; try assumption.
      unfold future, stale, MissWindow in *. lra.
    + apply elem_of_cons in Hj as [Hj|Hj]; [congruence|].
      destruct (Hnew j Hj) as (m & Hm & Hmu & Hmf).
      rewrite list_lookup_alter_ne in Hm by congruence. eauto.
  - exists [(k, HitDetector.getHitQuality (Qabs (TabNote.Time n - ct)))].
    split; [apply log_of_register|].
    intros j Hj. apply list_elem_of_singleton in Hj. simpl in Hj. subst j.
    exists n. repeat split; try assumption.
    unfold future, in_window, MissWindow in *. lra.
Qed.

Lemma CheckHit_scan `{Externals} pitch x now h h' :
  HitDetector.CheckHit pitch x now h = Some h' ->
  scan pitch x now (GameState.CurrentTime (HitDetector.state h)) h h'.
Proof.
  unfold HitDetector.CheckHit.
  destruct (negb (PitchResult.IsValid pitch)).
  - intros [= <-]. constructor.
  - apply CheckHit_loop_scan.
Qed.

Lemma IsValid_false (pitch : PitchResult.t) :
  PitchResult.IsValid pitch = false <->
  PitchResult.Note pitch = "" \/ (PitchResult.Confidence pitch <= 0.5)%Q.
Proof.
  unfold PitchResult.IsValid. rewrite andb_false_iff, negb_false_iff.
  rewrite bool_decide_eq_true, fgt_false. reflexivity.
Qed.

(** C3. In one call of [CheckHit], at most one note goes from not hit to hit
    through a pitch match, that is, without being past the miss window:
    any two such notes are the same note, however many unhit notes lie in
    the judging window. If the sample is invalid (empty note name, or a
    confidence not above 0.5) the call judges nothing: it returns the state
    unchanged. *)
Theorem C3_one_match_per_scan `{Externals} (pitch : PitchResult.t)
    (x now : Q) (h : HitDetector.t) :
  (forall h',
     HitDetector.CheckHit pitch x now h = Some h' ->
     forall i j ni nj ni' nj',
       notes_of h !! i = Some ni -> notes_of h' !! i = Some ni' ->
       notes_of h !! j = Some nj -> notes_of h' !! j = Some nj' ->
       TabNote.Hit ni = false -> TabNote.Hit ni' = true ->
       ~ stale (GameState.CurrentTime (HitDetector.state h)) ni ->
       TabNote.Hit nj = false -> TabNote.Hit nj' = true ->
       ~ stale (GameState.CurrentTime (HitDetector.state h)) nj ->
       i = j) /\
  (PitchResult.Note pitch = "" \/ (PitchResult.Confidence pitch <= 0.5)%Q ->
   HitDetector.CheckHit pitch x now h = Some h).
Proof.
  split.
  - intros h' Hrun. apply (scan_one_match pitch x now _ h h').
    apply CheckHit_scan, Hrun.
  - intros Hinv. apply IsValid_false in Hinv.
    unfold HitDetector.CheckHit. rewrite Hinv. reflexivity.
Qed.

(** A scan over notes that are all hit or beyond the miss window changes
    nothing. *)
Lemma CheckHit_loop_idle `{Externals} pitch x now ct idxs h :
  (forall j, j ∈ idxs ->
     exists n, notes_of h !! j = Some n /\
               (TabNote.Hit n = true \/ future ct n)) ->
  HitDetector.CheckHit_loop pitch x now ct idxs h = Some h.
Proof.
  induction idxs as [|i rest IH]; intros Hall; [reflexivity|].
  destruct (Hall i ltac:(left)) as (n & Hn & Hc).
  rewrite (CheckHit_loop_cons pitch x now ct i rest h n Hn).
  assert (HitDetector.CheckHit_loop pitch x now ct rest h = Some h) as Hrest
    by (apply IH; intros j Hj; apply Hall; right; exact Hj).
  destruct (TabNote.Hit n) eqn:Hh; [exact Hrest|].
  destruct Hc as [Hc|Hc]; [discriminate|].
  apply fgt_spec in Hc. rewrite Hc. exact Hrest.
Qed.

Lemma time_ordered_register h i q x y now :
  time_ordered (notes_of h) ->
  time_ordered (notes_of (register h i q x y now)).
Proof.
  intros Hord j k nj nk Hjk Hj Hk. rewrite notes_of_register in Hj, Hk.
  assert (forall a m,
            alter (TabNote.judge q
                     (GameState.CurrentTime (HitDetector.state h))) i
                  (notes_of h) !! a = Some m ->
            exists m0, notes_of h !! a = Some m0 /\
                       TabNote.Time m0 = TabNote.Time m) as Hback.
  { intros a m Ha. destruct (decide (i = a)) as [->|Hne].
    - rewrite list_lookup_alter_eq in Ha.
      destruct (notes_of h !! a) as [m0|]; [|discriminate].
      injection Ha as <-. eauto.
    - rewrite list_lookup_alter_ne in Ha by exact Hne. eauto. }
  destruct (Hback j nj Hj) as (mj & Hmj & <-).
  destruct (Hback k nk Hk) as (mk & Hmk & <-).
  eapply Hord; eassumption.
Qed.

(** On notes in time order, the scan of the code and the scan that stops at
    the first unhit note beyond the miss window are the same function. *)
Lemma CheckHit_loop_stops `{Externals} pitch x now ct n k h :
  time_ordered (notes_of h) ->
  (k + n)%nat = length (notes_of h) ->
  HitDetector.CheckHit_loop pitch x now ct (seq k n) h =
  CheckHit_loop_stopping pitch x now ct (seq k n) h.
Proof.
  revert k h. induction n as [|n IH]; intros k h Hord Hlen; [reflexivity|].
  destruct (lookup_lt_is_Some_2 (notes_of h) k ltac:(lia)) as [m Hm].
  cbn [seq].
  rewrite (CheckHit_loop_cons pitch x now ct k _ h m Hm).
  cbn [CheckHit_loop_stopping]. rewrite Hm. cbn [mbind option_bind].
  destruct (TabNote.Hit m) eqn:Hh; [apply IH; [exact Hord|lia]|].
  destruct (Go.fgt (TabNote.Time m - ct) MissWindow) eqn:Hf.
  { apply CheckHit_loop_idle. intros j Hj. apply elem_of_seq in Hj.
    destruct (lookup_lt_is_Some_2 (notes_of h) j ltac:(lia)) as [nj Hnj].
    exists nj. split; [exact Hnj|]. right.
    apply fgt_spec in Hf.
    pose proof (Hord k j m nj ltac:(lia) Hm Hnj). unfold future. lra. }
  destruct (Go.flt (TabNote.Time m - ct) (- MissWindow)).
  { apply IH; [apply time_ordered_register, Hord|].
    rewrite notes_of_register, length_alter. lia. }
  destruct (HitDetector.notesMatch h pitch m) as [[|]|]; try reflexivity.
  cbn [mbind option_bind]. apply IH; [exact Hord|lia].
Qed.

(** C9. With the notes in non-decreasing time order, once the scan of
    [CheckHit] meets a note that is not yet hit and lies more than the miss
    window ahead ([note.time - currentTime > 0.300]), no note from there on
    is judged or marked missed by that call: they are left as they were,
    and every [RegisterHit] call of the scan concerns an earlier note. The
    code goes on to the next note where the specification stops, and on
    notes in time order the two scans give the same result. *)
Theorem C9_future_note_ends_scan `{Externals} (pitch : PitchResult.t)
    (x now : Q) (h h' : HitDetector.t) (i : nat) (n : TabNote.t) :
  time_ordered (notes_of h) ->
  notes_of h !! i = Some n ->
  TabNote.Hit n = false ->
  (TabNote.Time n - GameState.CurrentTime (HitDetector.state h) > MissWindow)%Q ->
  HitDetector.CheckHit pitch x now h = Some h' ->
  (forall j, (i <= j)%nat -> notes_of h' !! j = notes_of h !! j) /\
  (exists new,
     log_of h' = log_of h ++ new /\
     forall j, j ∈ new.*1 -> (j < i)%nat) /\
  CheckHit_stopping pitch x now h = Some h'.
Proof.
  intros Hord Hn Hu Hfut Hrun.
  assert (CheckHit_stopping pitch x now h = Some h') as Hstop.
  { rewrite <- Hrun. unfold CheckHit_stopping, HitDetector.CheckHit.
    destruct (negb (PitchResult.IsValid pitch)); [reflexivity|].
    symmetry. apply CheckHit_loop_stops; [exact Hord|reflexivity]. }
  apply CheckHit_scan in Hrun.
  set (ct := GameState.CurrentTime (HitDetector.state h)) in *.
  assert (forall j m, (i <= j)%nat -> notes_of h !! j = Some m -> future ct m)
    as Hlater.
  { intros j m Hij Hm. specialize (Hord i j n m Hij Hn Hm).
    unfold future. lra. }
  destruct (scan_untouched pitch x now ct h h' Hrun) as [Hlen Hsame].
  split.
  - intros j Hij. destruct (notes_of h !! j) as [m|] eqn:Hm.
    + apply Hsame; [exact Hm|]. right. eauto.
    + apply lookup_ge_None. rewrite Hlen. apply lookup_ge_None. exact Hm.
  - split; [|exact Hstop].
    destruct (scan_log pitch x now ct h h' Hrun) as (new & El & Hnew).
    exists new. split; [exact El|].
    intros j Hj. destruct (Hnew j Hj) as (m & Hm & _ & Hnf).
    destruct (le_lt_dec i j) as [Hij|Hij]; [|exact Hij].
    exfalso. apply Hnf. eauto.
Qed.

Lemma time_orderedb_head (a : TabNote.t) (l : list TabNote.t) :
  time_orderedb (a :: l) = true ->
  forall b, b ∈ l -> (TabNote.Time a <= TabNote.Time b)%Q.
Proof.
  revert a. induction l as [|c l IH]; intros a Hs b Hb; [inversion Hb|].
  simpl in Hs. apply andb_true_iff in Hs as [Hac Hs].
  apply fle_spec in Hac.
  apply elem_of_cons in Hb as [->|Hb]; [exact Hac|].
  specialize (IH c Hs b Hb). lra.
Qed.

Lemma time_orderedb_sound (l : list TabNote.t) :
  time_orderedb l = true -> time_ordered l.
Proof.
  induction l as [|a l IH]; intros Hs i j ni nj Hij Hi Hj.
  { rewrite lookup_nil in Hi. discriminate. }
  assert (time_orderedb l = true) as Hl.
  { destruct l; [reflexivity|]. simpl in Hs.
    apply andb_true_iff in Hs. tauto. }
  destruct i as [|i].
  - simpl in Hi. injection Hi as <-. destruct j as [|j].
    + simpl in Hj. injection Hj as <-. lra.
    + simpl in Hj. apply (time_orderedb_head a l Hs).
      apply list_elem_of_lookup. eauto.
  - destruct j as [|j]; [lia|]. simpl in Hi, Hj.
    apply (IH Hl i j); [lia|assumption|assumption].
Qed.

Lemma C3_one_match_per_scan_witness :
  let h := Demo.playing (H := Standin.externals)
             [Demo.note 1.0 3 0; Demo.note 1.1 3 0] 1.05 in
  let sample := Demo.sample 41.2 0.9 in
  let h' := default h
              (HitDetector.CheckHit (H := Standin.externals) sample 100 0 h) in
  HitDetector.CheckHit (H := Standin.externals) sample 100 0 h = Some h' /\
  (TabNote.Hit <$> notes_of h' !! 0%nat) = Some true /\
  (TabNote.Hit <$> notes_of h' !! 1%nat) = Some false.
Proof.
  intros h sample h'.
  assert (HitDetector.CheckHit (H := Standin.externals) sample 100 0 h
          = Some h') as Hrun
    by (apply Some_default; vm_compute; reflexivity).
  split; [exact Hrun|].
  pose proof (proj1 (C3_one_match_per_scan (H := Standin.externals)
                       sample 100 0 h) h' Hrun) as Hone.
  assert (exists n0', notes_of h' !! 0%nat = Some n0' /\
                      TabNote.Hit n0' = true) as (n0' & E0 & T0)
    by (eexists; split; vm_compute; reflexivity).
  assert (exists n1', notes_of h' !! 1%nat = Some n1') as (n1' & E1)
    by (eexists; vm_compute; reflexivity).
  rewrite E0, E1. simpl. split; [congruence|].
  destruct (TabNote.Hit n1') eqn:Eh; [|reflexivity].
  exfalso.
  assert (0%nat = 1%nat) as Hneq; [|discriminate].
  apply (Hone 0%nat 1%nat (Demo.note 1.0 3 0) (Demo.note 1.1 3 0) n0' n1');
    try reflexivity; try assumption.
  - vm_compute. discriminate.
  - vm_compute. discriminate.
Defined.

Lemma C9_future_note_ends_scan_witness :
  let h := Demo.playing (H := Standin.externals)
             [Demo.note 1.0 3 0; Demo.note 5.0 3 0; Demo.note 6.0 3 0] 1.0 in
  let sample := Demo.sample 41.2 0.9 in
  let h' := default h
              (HitDetector.CheckHit (H := Standin.externals) sample 100 0 h) in
  HitDetector.CheckHit (H := Standin.externals) sample 100 0 h = Some h' /\
  notes_of h' !! 2%nat = Some (Demo.note 6.0 3 0).
Proof.
  intros h sample h'.
  assert (HitDetector.CheckHit (H := Standin.externals) sample 100 0 h
          = Some h') as Hrun
    by (apply Some_default; vm_compute; reflexivity).
  split; [exact Hrun|].
  refine (proj1 (C9_future_note_ends_scan (H := Standin.externals)
                   sample 100 0 h h' 1%nat
                   (Demo.note 5.0 3 0) _ _ _ _ Hrun) 2%nat _).
  - apply time_orderedb_sound. reflexivity.
  - reflexivity.
  - reflexivity.
  - reflexivity.
  - lia.
Defined.

(** ** The invariants of the score state *)

Lemma unhit_bounds (notes : list TabNote.t) :
  0 <= unhit notes <= Go.len notes.
Proof.
  unfold unhit, Go.len.
  pose proof (length_filter (fun n => TabNote.Hit n = false) notes). lia.
Qed.

Lemma unhit_judge (notes : list TabNote.t) (i : nat) (n : TabNote.t)
    (q : HitQuality.t) (t : Q) :
  notes !! i = Some n -> TabNote.Hit n = false ->
  unhit (alter (TabNote.judge q t) i notes) = unhit notes - 1.
Proof.
  unfold unhit, Go.len. revert i.
  induction notes as [|a notes IH]; intros i Hn Hu.
  { rewrite lookup_nil in Hn. discriminate. }
  destruct i as [|i]; simpl in Hn.
  - injection Hn as ->.
    change (alter (TabNote.judge q t) 0%nat (n :: notes))
      with (TabNote.judge q t n :: notes).
    rewrite (filter_cons_True _ n) by exact Hu.
    rewrite filter_cons_False by (simpl; discriminate).
    cbn [length]. lia.
  - specialize (IH i Hn Hu).
    change (alter (TabNote.judge q t) (S i) (a :: notes))
      with (a :: alter (TabNote.judge q t) i notes).
    destruct (decide (TabNote.Hit a = false)) as [Ha|Ha].
    + rewrite !filter_cons_True by exact Ha. cbn [length]. lia.
    + rewrite !filter_cons_False by exact Ha. exact IH.
Qed.

Lemma session_invariant_judge (h h' : HitDetector.t) :
  session_invariant h -> judge_step h h' -> session_invariant h'.
Proof.
  intros Hinv Hj. revert Hinv.
  destruct Hj as [h0 i n q x y now Hn Hu].
  intros (Hh & Hm & Hsum & Htot & Hc & Hmc).
  unfold session_invariant.
  rewrite notes_of_register, (unhit_judge _ i n) by assumption.
  pose proof (unhit_bounds (notes_of h0)) as Hb.
  assert (0 < unhit (notes_of h0)) as Hpos.
  { pose proof (unhit_judge (notes_of h0) i n q 0 Hn Hu) as E.
    pose proof (unhit_bounds (alter (TabNote.judge q 0) i (notes_of h0))).
    lia. }
  unfold register. simpl.
  destruct (RegisterHit_frame (HitDetector.state h0) i q x y now)
    as (_ & _ & _ & _ & -> & _).
  destruct (decide (q = HitMiss)) as [->|Hq].
  - destruct (RegisterHit_miss (HitDetector.state h0) i x y now)
      as (-> & -> & _ & -> & ->).
    assert (Go.add (GameState.NotesMissed (HitDetector.state h0)) 1 =
            GameState.NotesMissed (HitDetector.state h0) + 1) as ->.
    { apply wrap64_id. unfold Go.is_int, Go.int_min, Go.int_max in *. lia. }
    lia.
  - destruct (RegisterHit_hit (HitDetector.state h0) i q x y now Hq)
      as (-> & -> & _ & -> & ->).
    assert (Go.add (GameState.NotesHit (HitDetector.state h0)) 1 =
            GameState.NotesHit (HitDetector.state h0) + 1) as ->.
    { apply wrap64_id. unfold Go.is_int, Go.int_min, Go.int_max in *. lia. }
    set (c := Go.add (GameState.Combo (HitDetector.state h0)) 1).
    destruct (GameState.MaxCombo (HitDetector.state h0) <? c) eqn:E;
      [apply Z.ltb_lt in E | apply Z.ltb_ge in E]; lia.
Qed.

Lemma session_invariant_step (h h' : HitDetector.t) :
  session_invariant h -> session_step h h' -> session_invariant h'.
Proof.
  intros Hinv Hs. revert Hinv. destruct Hs as [h0 h1 Hj|h0 now|h0 now]; intros Hinv.
  - eapply session_invariant_judge; eassumption.
  - exact Hinv.
  - unfold session_invariant, notes_of, GameState.Update in *. simpl.
    destruct (negb (GameState.IsPlaying (HitDetector.state h0))); exact Hinv.
Qed.

Lemma session_invariant_fresh `{Externals} (song : Song.t) :
  Go.len (Song.Notes song) <= Go.int_max ->
  session_invariant (fresh song).
Proof.
  intros Hlen. unfold session_invariant, fresh, notes_of. simpl.
  assert (Song.Notes (Song.CalculateDuration song) = Song.Notes song) as ->.
  { unfold Song.CalculateDuration. destruct (last (Song.Notes song)); reflexivity. }
  pose proof (unhit_bounds (Song.Notes song)). lia.
Qed.

Lemma session_invariant_score (h : HitDetector.t) :
  session_invariant h -> score_invariants (HitDetector.state h).
Proof.
  intros (Hh & Hm & Hsum & Htot & Hc & Hmc). split; [|exact Hc].
  pose proof (unhit_bounds (notes_of h)). lia.
Qed.

(** C8. A freshly selected chart has all counters at 0 and totalNotes equal
    to the number of chart notes; from there both invariants,
    [notesHit + notesMissed <= totalNotes] and [combo <= maxCombo], hold
    after every score mutation (every [RegisterHit] call the scans make)
    and after every sequence of calls of the frame loop. *)
Theorem C8_score_invariants `{Externals} (song : Song.t) :
  Go.len (Song.Notes song) <= Go.int_max ->
  (let g := HitDetector.state (fresh song) in
   GameState.Score g = 0 /\ GameState.Combo g = 0 /\
   GameState.MaxCombo g = 0 /\ GameState.NotesHit g = 0 /\
   GameState.NotesMissed g = 0 /\
   GameState.TotalNotes g = Go.len (Song.Notes song)) /\
  (forall h, rtc session_step (fresh song) h ->
             score_invariants (HitDetector.state h)) /\
  (forall cs h, run cs (fresh song) = Some h ->
                score_invariants (HitDetector.state h)).
Proof.
  intros Hlen.
  assert (forall h, rtc session_step (fresh song) h -> session_invariant h)
    as Hreach.
  { intros h Hr. pose proof (session_invariant_fresh song Hlen) as H0.
    induction Hr as [|h1 h2 h3 Hs _ IH]; [exact H0|].
    apply IH. eapply session_invariant_step; eassumption. }
  split; [|split].
  - simpl. repeat split.
    unfold Song.CalculateDuration. destruct (last (Song.Notes song)); reflexivity.
  - intros h Hr. apply session_invariant_score, Hreach, Hr.
  - intros cs h Hrun. apply session_invariant_score, Hreach.
    apply (run_steps cs), Hrun.
Qed.

Lemma C8_score_invariants_witness :
  let song := Demo.chart [Demo.note 1.0 3 0; Demo.note 2.0 2 0] in
  let cs := [CallStart 0; CallTick 1.02;
             CallCheckHit (Demo.sample 41.2 0.9) 100 0; CallUpdate 0;
             CallTick 2.4; CallUpdate 0] in
  let h0 := fresh (H := Standin.externals) song in
  let h := default h0 (run (H := Standin.externals) cs h0) in
  run (H := Standin.externals) cs h0 = Some h /\
  score_invariants (HitDetector.state h) /\
  GameState.NotesHit (HitDetector.state h) = 1 /\
  GameState.NotesMissed (HitDetector.state h) = 1.
Proof.
  intros song cs h0 h.
  assert (run (H := Standin.externals) cs h0 = Some h) as Hrun
    by (apply Some_default; vm_compute; reflexivity).
  split; [exact Hrun|]. split.
  - apply (proj2 (proj2 (C8_score_invariants (H := Standin.externals) song
                           ltac:(vm_compute; discriminate))) cs h Hrun).
  - split; vm_compute; reflexivity.
Defined.

(** ** A late match *)

(** The scan over a prefix of indices at which it does not end: it registers
    the notes past the miss window as Miss and goes on with the rest. *)
Lemma CheckHit_loop_prefix `{Externals} pitch x now ct pre rest h :
  NoDup pre ->
  (forall j, j ∈ pre ->
     exists n, notes_of h !! j = Some n /\ passes h pitch ct n) ->
  exists h1,
    HitDetector.CheckHit_loop pitch x now ct (pre ++ rest) h =
      HitDetector.CheckHit_loop pitch x now ct rest h1 /\
    (forall k, k ∉ pre -> notes_of h1 !! k = notes_of h !! k) /\
    (forall n, HitDetector.notesMatch h1 pitch n =
               HitDetector.notesMatch h pitch n) /\
    GameState.CurrentTime (HitDetector.state h1) =
      GameState.CurrentTime (HitDetector.state h) /\
    (exists misses,
       log_of h1 = log_of h ++ misses /\
       forall e, e ∈ misses -> e.2 = HitMiss /\ e.1 ∈ pre) /\
    (Go.is_int (GameState.Score (HitDetector.state h)) ->
     GameState.Score (HitDetector.state h1) =
       GameState.Score (HitDetector.state h)) /\
    ((forall j n, j ∈ pre -> notes_of h !! j = Some n ->
        TabNote.Hit n = false -> ~ stale ct n) ->
     h1 = h).
Proof.
  revert h. induction pre as [|j pre IH]; intros h Hnd Hpass.
  { exists h. split; [reflexivity|]. do 3 (split; [reflexivity|]).
    split; [|split; reflexivity].
    exists []. rewrite app_nil_r. split; [reflexivity|].
    intros e He. inversion He. }
  apply NoDup_cons in Hnd as [Hj Hnd].
  destruct (Hpass j ltac:(left)) as (n & Hn & Hp).
  assert (forall k, k ∈ pre ->
            exists m, notes_of h !! k = Some m /\ passes h pitch ct m)
    as Hpass' by (intros k Hk; apply Hpass; right; exact Hk).
  assert (HitDetector.CheckHit_loop pitch x now ct ((j :: pre) ++ rest) h =
          HitDetector.CheckHit_loop pitch x now ct (pre ++ rest) h ->
          exists h1,
            HitDetector.CheckHit_loop pitch x now ct ((j :: pre) ++ rest) h =
              HitDetector.CheckHit_loop pitch x now ct rest h1 /\
            (forall k, k ∉ j :: pre -> notes_of h1 !! k = notes_of h !! k) /\
            (forall n, HitDetector.notesMatch h1 pitch n =
                       HitDetector.notesMatch h pitch n) /\
            GameState.CurrentTime (HitDetector.state h1) =
              GameState.CurrentTime (HitDetector.state h) /\
            (exists misses,
               log_of h1 = log_of h ++ misses /\
               forall e, e ∈ misses -> e.2 = HitMiss /\ e.1 ∈ j :: pre) /\
            (Go.is_int (GameState.Score (HitDetector.state h)) ->
             GameState.Score (HitDetector.state h1) =
               GameState.Score (HitDetector.state h)) /\
            ((forall k m, k ∈ j :: pre -> notes_of h !! k = Some m ->
                TabNote.Hit m = false -> ~ stale ct m) ->
             h1 = h)) as Hskip.
  { intros Eskip.
    destruct (IH h Hnd Hpass')
      as (h1 & Erun & Hnotes & Hmatch & Hct & (misses & El & Hmiss) & Hsc & Hid).
    exists h1. split; [rewrite Eskip; exact Erun|].
    split. { intros k Hk. apply Hnotes. intros Hin. apply Hk. right. exact Hin. }
    do 2 (split; [assumption|]).
    split.
    { exists misses. split; [exact El|]. intros e He.
      destruct (Hmiss e He) as [Hq Hin]. split; [exact Hq|]. right. exact Hin. }
    split; [exact Hsc|].
    intros Hns. apply Hid. intros k m Hk. apply Hns. right. exact Hk. }
  pose proof (fun r => CheckHit_loop_cons pitch x now ct j r h n Hn) as Estep.
  change ((j :: pre) ++ rest) with (j :: (pre ++ rest)) in *.
  destruct (TabNote.Hit n) eqn:Hh; [apply Hskip, Estep|].
  destruct (Go.fgt (TabNote.Time n - ct) MissWindow) eqn:Hf;
    [apply Hskip, Estep|].
  destruct (Go.flt (TabNote.Time n - ct) (- MissWindow)) eqn:Hs.
  - clear Hskip. rewrite Estep.
    set (h0 := register h j HitMiss x (HitDetector.noteY n) now) in *.
    assert (notes_of h0 =
            alter (TabNote.judge HitMiss
                     (GameState.CurrentTime (HitDetector.state h))) j
                  (notes_of h)) as En by apply notes_of_register.
    destruct (IH h0 Hnd)
      as (h1 & Erun & Hnotes & Hmatch & Hct & (misses & El & Hmiss) & Hsc & _).
    { intros k Hk. destruct (Hpass' k Hk) as (m & Hm & Hpm).
      exists m. split.
      - rewrite En, list_lookup_alter_ne; [exact Hm|]. intros ->. contradiction.
      - unfold passes in *. unfold h0. rewrite notesMatch_register. exact Hpm. }
    exists h1. split; [exact Erun|].
    split.
    { intros k Hk. rewrite Hnotes by (intros Hin; apply Hk; right; exact Hin).
      rewrite En, list_lookup_alter_ne; [reflexivity|].
      intros ->. apply Hk. left. }
    split. { intros m. rewrite Hmatch. apply notesMatch_register. }
    split. { rewrite Hct. apply RegisterHit_frame. }
    split.
    { exists ((j, HitMiss) :: misses). split.
      - rewrite El. unfold h0. rewrite log_of_register, <- app_assoc. reflexivity.
      - intros e He. apply elem_of_cons in He as [->|He].
        + split; [reflexivity|left].
        + destruct (Hmiss e He) as [Hq Hin]. split; [exact Hq|]. right. exact Hin. }
    split.
    { intros Hint.
      assert (GameState.Score (HitDetector.state h0) =
              GameState.Score (HitDetector.state h)) as E0.
      { destruct (RegisterHit_miss (HitDetector.state h) j x
                    (HitDetector.noteY n) now) as (_ & _ & Es & _).
        change (GameState.Score (HitDetector.state h0))
          with (GameState.Score
                  (GameState.RegisterHit (HitDetector.state h) j HitMiss x
                     (HitDetector.noteY n) now)).
        rewrite Es. unfold Go.add. rewrite Z.add_0_r. apply wrap64_id, Hint. }
      rewrite Hsc; [exact E0|]. rewrite E0. exact Hint. }
    intros Hns. exfalso. apply (Hns j n); [left|exact Hn|exact Hh|].
    apply flt_spec in Hs. exact Hs.
  - apply fgt_false in Hf. apply flt_false in Hs.
    assert (HitDetector.notesMatch h pitch n = Some false) as Hm.
    { destruct Hp as [Hp|[Hp|[Hp|Hp]]]; [congruence| | |exact Hp];
        unfold future, stale in Hp; lra. }
    apply Hskip. rewrite Estep, Hm. reflexivity.
Qed.




(** ** The pitch matcher *)

Ltac in_list :=
  repeat first [apply list_elem_of_here | apply list_elem_of_further].

Lemma noteIndexInOctave_cases (name : string) (i : Z) :
  noteIndexInOctave name = Some i ->
  (name, i) ∈
    [("C", 0); ("C#", 1); ("D", 2); ("D#", 3); ("E", 4); ("F", 5);
     ("F#", 6); ("G", 7); ("G#", 8); ("A", 9); ("A#", 10); ("B", 11);
     ("Db", 1); ("Eb", 3); ("Fb", 4); ("Gb", 6); ("Ab", 8); ("Bb", 10);
     ("Cb", 11)].
Proof.
  unfold noteIndexInOctave.
  destruct ((list_to_map HitDetector.flatNames : gmap string string) !! name)
    as [sharp|] eqn:Hflat; cbn [default]; intros Hi.
  - apply elem_of_list_to_map_2 in Hflat.
    unfold HitDetector.flatNames in Hflat.
    repeat (apply elem_of_cons in Hflat as [Hflat | Hflat];
            [injection Hflat as -> ->; vm_compute in Hi;
             injection Hi as <-; in_list |]).
    inversion Hflat.
  - destruct (list_find (fun s => s = name) HitDetector.noteNames)
      as [[k s]|] eqn:Hfind; [|discriminate].
    cbn [fmap option_fmap option_map fst] in Hi. injection Hi as <-.
    apply list_find_Some in Hfind as (Hk & -> & _).
    unfold HitDetector.noteNames in Hk.
    do 12 (destruct k as [|k]; [injection Hk as <-; in_list|]).
    simpl in Hk. discriminate.
Qed.

(** The table holds, for each of its note names and each octave 0 to 4, the
    equal-tempered frequency of MIDI number [12 * (octave + 1) + index]. *)
Lemma buildNoteFrequencies_lookup `{Externals} (name : string) (i octave : Z) :
  noteIndexInOctave name = Some i ->
  0 <= octave <= 4 ->
  HitDetector.buildNoteFrequencies !! (name +:+ Go.digit_string octave) =
    Some (440.0 * math_Pow 2 (inject_Z (12 * (octave + 1) + i - 69) / 12.0))%Q.
Proof.
  intros Hname Hoct. apply noteIndexInOctave_cases in Hname.
  assert (octave ∈ seqZ 0 5) as Ho by (apply elem_of_seqZ; lia).
  change (seqZ 0 5) with [0; 1; 2; 3; 4] in Ho.
  repeat (apply elem_of_cons in Hname as [[= -> ->] | Hname];
          [repeat (apply elem_of_cons in Ho as [-> | Ho];
                   [vm_compute; reflexivity |]);
           inversion Ho |]).
  inversion Hname.
Qed.

(** *** The order of the range over the aliases *)

Lemma addFlat_aliasPairs `{Externals} (notes : gmap string Q)
    (fs : string * string) :
  HitDetector.addFlat notes fs = foldl aliasStep notes (aliasPairs fs).
Proof.
  destruct fs as [flat sharp]. unfold HitDetector.addFlat, aliasPairs.
  rewrite foldl_fmap. reflexivity.
Qed.

Lemma foldl_addFlat `{Externals} (order : list (string * string))
    (notes : gmap string Q) :
  foldl HitDetector.addFlat notes order =
  foldl aliasStep notes (order ≫= aliasPairs).
Proof.
  revert notes. induction order as [|fs order IH]; intros notes; [reflexivity|].
  cbn [foldl]. rewrite IH, addFlat_aliasPairs.
  change ((fs :: order) ≫= aliasPairs)
    with (aliasPairs fs ++ (order ≫= aliasPairs)).
  rewrite foldl_app. reflexivity.
Qed.

(** When no key written is also read, and no key is written twice, every
    step reads the initial map. *)
Lemma aliasStep_fold_lookup (rw : list (string * string))
    (b : gmap string Q) :
  NoDup rw.*2 ->
  (forall p q, p ∈ rw -> q ∈ rw -> p.2 <> q.1) ->
  (forall p, p ∈ rw ->
     foldl aliasStep b rw !! p.2 =
     match b !! p.1 with Some v => Some v | None => b !! p.2 end) /\
  (forall k, k ∉ rw.*2 -> foldl aliasStep b rw !! k = b !! k).
Proof.
  revert b. induction rw as [|p0 rest IH]; intros b Hnd Hdis.
  { split; [intros p Hp; inversion Hp | reflexivity]. }
  rewrite fmap_cons in Hnd. apply NoDup_cons in Hnd as [Hp0 Hnd].
  set (b' := aliasStep b p0).
  assert (forall k, k <> p0.2 -> b' !! k = b !! k) as Hother.
  { intros k Hk. unfold b', aliasStep. destruct (b !! p0.1); [|reflexivity].
    apply lookup_insert_ne. congruence. }
  assert (b' !! p0.2 =
          match b !! p0.1 with Some v => Some v | None => b !! p0.2 end)
    as Hself.
  { unfold b', aliasStep. destruct (b !! p0.1); [|reflexivity].
    apply lookup_insert_eq. }
  destruct (IH b' Hnd) as [IH1 IH2].
  { intros p q Hp Hq. apply Hdis; right; assumption. }
  cbn [foldl]. fold b'. split.
  - intros p Hp. apply elem_of_cons in Hp as [->|Hp].
    + rewrite (IH2 _ Hp0). exact Hself.
    + rewrite (IH1 p Hp).
      rewrite (Hother p.1)
        by (intros E; apply (Hdis p0 p); [left|right; exact Hp|congruence]).
      rewrite (Hother p.2); [reflexivity|].
      intros E. apply Hp0. rewrite <- E. apply list_elem_of_fmap.
      exists p. split; [reflexivity|exact Hp].
  - intros k Hk. rewrite fmap_cons in Hk. apply not_elem_of_cons in Hk as [Hk0 Hk].
    rewrite (IH2 k Hk). apply Hother, Hk0.
Qed.

Lemma aliasStep_fold_permutation (rw1 rw2 : list (string * string))
    (b : gmap string Q) :
  NoDup rw1.*2 ->
  (forall p q, p ∈ rw1 -> q ∈ rw1 -> p.2 <> q.1) ->
  rw1 ≡ₚ rw2 ->
  foldl aliasStep b rw1 = foldl aliasStep b rw2.
Proof.
  intros Hnd Hdis Hperm.
  destruct (aliasStep_fold_lookup rw1 b Hnd Hdis) as [H1 H1'].
  destruct (aliasStep_fold_lookup rw2 b) as [H2 H2'].
  { rewrite <- Hperm. exact Hnd. }
  { intros p q Hp Hq. apply Hdis; rewrite Hperm; assumption. }
  apply map_eq. intros k.
  destruct (decide (k ∈ rw1.*2)) as [Hk|Hk].
  - apply list_elem_of_fmap in Hk as (p & -> & Hp).
    rewrite (H1 p Hp), (H2 p); [reflexivity|]. rewrite <- Hperm. exact Hp.
  - rewrite (H1' k Hk), (H2' k); [reflexivity|]. rewrite <- Hperm. exact Hk.
Qed.

(** Whatever the order in which Go ranges over the aliases, the table is
    the same. *)
Lemma buildNoteFrequencies_any_order `{Externals}
    (order : list (string * string)) :
  order ≡ₚ HitDetector.flatNames ->
  HitDetector.buildNoteFrequenciesIn order = HitDetector.buildNoteFrequencies.
Proof.
  intros Hperm.
  unfold HitDetector.buildNoteFrequencies, HitDetector.buildNoteFrequenciesIn.
  cbv zeta. rewrite !foldl_addFlat. symmetry.
  apply aliasStep_fold_permutation.
  - apply (bool_decide_eq_true_1
             (NoDup (HitDetector.flatNames ≫= aliasPairs).*2)).
    vm_compute. reflexivity.
  - assert (Forall (fun p : string * string =>
                      Forall (fun q : string * string => p.2 <> q.1)
                             (HitDetector.flatNames ≫= aliasPairs))
                   (HitDetector.flatNames ≫= aliasPairs)) as Hall.
    { apply (bool_decide_eq_true_1
               (Forall (fun p : string * string =>
                          Forall (fun q : string * string => p.2 <> q.1)
                                 (HitDetector.flatNames ≫= aliasPairs))
                       (HitDetector.flatNames ≫= aliasPairs))).
      vm_compute. reflexivity. }
    intros p q Hp Hq.
    rewrite Forall_forall in Hall. specialize (Hall p Hp).
    rewrite Forall_forall in Hall. exact (Hall q Hq).
  - rewrite Hperm. reflexivity.
Qed.

(** *** The keys of the table *)

Lemma dom_buildNoteFrequencies `{Externals} :
  dom HitDetector.buildNoteFrequencies = list_to_set (C := gset string) tableKeys.
Proof.
  apply (bool_decide_eq_true_1
           (dom HitDetector.buildNoteFrequencies =
            list_to_set (C := gset string) tableKeys)).
  vm_compute. reflexivity.
Qed.

Lemma bytes_append (a b : string) :
  list_ascii_of_string (a +:+ b) =
  list_ascii_of_string a ++ list_ascii_of_string b.
Proof. induction a as [|c a IH]; simpl; [reflexivity | rewrite IH; reflexivity]. Qed.

Lemma append_snoc_inj (a b : string) (c d : ascii) :
  a +:+ String c "" = b +:+ String d "" -> a = b /\ c = d.
Proof.
  intros E. apply (f_equal list_ascii_of_string) in E.
  rewrite !bytes_append in E. simpl in E.
  apply app_inj_tail in E as [E ->]. split; [|reflexivity].
  rewrite <- (string_of_list_ascii_of_string a),
          <- (string_of_list_ascii_of_string b), E. reflexivity.
Qed.

Lemma append_assoc (a b c : string) : (a +:+ b) +:+ c = a +:+ (b +:+ c).
Proof.
  induction a as [|x a IH]; [reflexivity|].
  change (String x ((a +:+ b) +:+ c) = String x (a +:+ (b +:+ c))).
  f_equal. exact IH.
Qed.

Lemma N_of_byte (z : Z) :
  0 <= z < 256 -> N_of_ascii (Go.byte z) = Z.to_N z.
Proof.
  intros Hz. unfold Go.byte. rewrite Z.mod_small by exact Hz.
  apply N_ascii_embedding. lia.
Qed.

(** A continuation byte of UTF-8 has its top bit set. *)
Lemma continuation_byte_high (x : Z) :
  (128 <= N_of_ascii (Go.byte (Z.lor 0x80 (Z.land x 0x3F))))%N.
Proof.
  change 0x3F with (Z.ones 6). rewrite Z.land_ones by lia.
  pose proof (Z.mod_pos_bound x (2 ^ 6) ltac:(lia)) as Hy.
  set (y := x mod 2 ^ 6) in *.
  assert (y ∈ seqZ 0 64) as Hin by (apply elem_of_seqZ; lia).
  clearbody y. vm_compute in Hin.
  repeat (apply elem_of_cons in Hin as [-> | Hin]; [vm_compute; discriminate |]).
  inversion Hin.
Qed.

(** [string(rune('0' + n))] is one ASCII byte, the rune itself, or ends in
    a byte with the top bit set. *)
Lemma digit_string_cases (n : Z) :
  (exists r, 0 <= r < 128 /\ Go.wrap32 (Go.add 48 n) = r /\
             Go.digit_string n = String (Go.byte r) "") \/
  (exists s c, Go.digit_string n = s +:+ String c "" /\
               (128 <= N_of_ascii c)%N).
Proof.
  unfold Go.digit_string, Go.string_of_rune.
  set (r := Go.wrap32 (Go.add 48 n)).
  destruct ((r <? 0) || (1114111 <? r) || (55296 <=? r) && (r <=? 57343))
    eqn:Einv.
  { right. exists (String (Go.byte 239) (String (Go.byte 191) "")), (Go.byte 189).
    split; [reflexivity|]. vm_compute. discriminate. }
  destruct (r <? 128) eqn:E1.
  { left. exists r. split; [|split; reflexivity].
    apply orb_false_iff in Einv as [Einv _].
    apply orb_false_iff in Einv as [Einv _]. lia. }
  right. destruct (r <? 2048); [|destruct (r <? 65536)].
  - exists (String (Go.byte (Z.lor 192 (Z.shiftr r 6))) ""),
      (Go.byte (Z.lor 128 (Z.land r 63))).
    split; [reflexivity | apply continuation_byte_high].
  - exists (String (Go.byte (Z.lor 224 (Z.shiftr r 12)))
              (String (Go.byte (Z.lor 128 (Z.land (Z.shiftr r 6) 63))) "")),
      (Go.byte (Z.lor 128 (Z.land r 63))).
    split; [reflexivity | apply continuation_byte_high].
  - exists (String (Go.byte (Z.lor 240 (Z.shiftr r 18)))
              (String (Go.byte (Z.lor 128 (Z.land (Z.shiftr r 12) 63)))
                 (String (Go.byte (Z.lor 128 (Z.land (Z.shiftr r 6) 63))) ""))),
      (Go.byte (Z.lor 128 (Z.land r 63))).
    split; [reflexivity | apply continuation_byte_high].
Qed.

(** A key built from an expected note is in the table only for a name of
    the table and a rune '0' to '4'. *)
Lemma buildNoteFrequencies_key `{Externals} (name : string) (octave : Z) :
  is_Some (HitDetector.buildNoteFrequencies
             !! (name +:+ Go.digit_string octave)) ->
  name ∈ tableNames /\
  exists o, 0 <= o <= 4 /\ Go.wrap32 (Go.add 48 octave) = 48 + o.
Proof.
  intros Hin. apply elem_of_dom in Hin.
  rewrite dom_buildNoteFrequencies, elem_of_list_to_set in Hin.
  unfold tableKeys in Hin.
  apply list_elem_of_bind in Hin as (nm & Hkey & Hnm).
  apply list_elem_of_bind in Hkey as (o & Hkey & Ho).
  apply list_elem_of_singleton in Hkey.
  apply elem_of_seqZ in Ho.
  assert (Go.digit_string o = String (Go.byte (48 + o)) "") as Edo.
  { assert (o ∈ seqZ 0 5) as Ho' by (apply elem_of_seqZ; lia).
    vm_compute in Ho'.
    repeat (apply elem_of_cons in Ho' as [-> | Ho']; [reflexivity |]).
    inversion Ho'. }
  rewrite Edo in Hkey.
  destruct (digit_string_cases octave) as [(r & Hr & Er & Eds)|(s & c & Eds & Hc)];
    rewrite Eds in Hkey.
  - apply append_snoc_inj in Hkey as [-> Eb].
    split; [exact Hnm|]. exists o. split; [lia|].
    apply (f_equal N_of_ascii) in Eb.
    rewrite !N_of_byte in Eb by lia. lia.
  - rewrite <- append_assoc in Hkey.
    apply append_snoc_inj in Hkey as [_ ->].
    rewrite N_of_byte in Hc by lia. lia.
Qed.

Lemma tableNames_index (name : string) :
  name ∈ tableNames -> is_Some (noteIndexInOctave name).
Proof.
  intros Hin. vm_compute in Hin.
  repeat (apply elem_of_cons in Hin as [-> | Hin]; [vm_compute; eauto |]).
  inversion Hin.
Qed.

(** An expected note outside the table, an unknown name or an octave
    outside 0 to 4, has no entry (for an octave the conversion to a rune
    does not truncate). *)
Lemma buildNoteFrequencies_absent `{Externals} (name : string) (octave : Z) :
  - 2 ^ 31 <= 48 + octave < 2 ^ 31 ->
  noteIndexInOctave name = None \/ octave < 0 \/ 4 < octave ->
  HitDetector.buildNoteFrequencies !! (name +:+ Go.digit_string octave) = None.
Proof.
  intros Hrange Hout.
  destruct (HitDetector.buildNoteFrequencies
              !! (name +:+ Go.digit_string octave)) as [f|] eqn:Hf;
    [|reflexivity].
  exfalso.
  destruct (buildNoteFrequencies_key name octave) as (Hnm & o & Ho & Er);
    [rewrite Hf; eauto|].
  apply tableNames_index in Hnm as [i Hi].
  unfold Go.add in Er. rewrite wrap64_id in Er
    by (unfold Go.is_int, Go.int_min, Go.int_max; lia).
  unfold Go.wrap32 in Er. rewrite Z.mod_small in Er by lia.
  destruct Hout as [Hout|Hout]; [congruence | lia].
Qed.

(** C2. For a sample of positive frequency and an expected note (the name
    and octave derived from the chart note under the song's tuning) that is
    in the reference table, that is, a name of the table in an octave 0 to
    4, [notesMatch] returns true exactly when
    [|1200 * log2(frequency / referenceFrequency)| < 50], where
    [referenceFrequency = 440 * 2^((midiNumber - 69) / 12)] and
    [midiNumber = 12 * (octave + 1) + noteIndexInOctave]. For an expected
    note absent from the table (its key has no entry: an unknown name, or
    an octave outside 0 to 4) it returns false; in both cases it returns,
    it does not panic. [log2] and the power are those of the Go library. *)
Theorem C2_notesMatch_cents `{Externals} (h : HitDetector.t)
    (pitch : PitchResult.t) (note : TabNote.t) (name : string) (octave : Z) :
  HitDetector.noteFrequencies h = HitDetector.buildNoteFrequencies ->
  Song.NoteAt (GameState.Song (HitDetector.state h)) note = Some name ->
  Song.OctaveAt (GameState.Song (HitDetector.state h)) note = Some octave ->
  (0 < PitchResult.Frequency pitch)%Q ->
  (forall i,
     noteIndexInOctave name = Some i -> 0 <= octave <= 4 ->
     let midiNumber := 12 * (octave + 1) + i in
     let referenceFrequency :=
       (440.0 * math_Pow 2 (inject_Z (midiNumber - 69) / 12.0))%Q in
     let cents :=
       (1200 * math_Log2 (PitchResult.Frequency pitch / referenceFrequency))%Q in
     exists b,
       HitDetector.notesMatch h pitch note = Some b /\
       (b = true <-> (Qabs cents < 50)%Q)) /\
  (HitDetector.buildNoteFrequencies !! (name +:+ Go.digit_string octave) = None ->
   HitDetector.notesMatch h pitch note = Some false) /\
  (- 2 ^ 31 <= 48 + octave < 2 ^ 31 ->
   noteIndexInOctave name = None \/ octave < 0 \/ 4 < octave ->
   HitDetector.notesMatch h pitch note = Some false).
Proof.
  intros Htable Hname Hoctave _.
  assert (HitDetector.buildNoteFrequencies
            !! (name +:+ Go.digit_string octave) = None ->
          HitDetector.notesMatch h pitch note = Some false) as Hnone.
  { intros Hk. unfold HitDetector.notesMatch.
    rewrite Hname, Hoctave, Htable. cbn [mbind option_bind].
    rewrite Hk. reflexivity. }
  split; [|split; [exact Hnone|]].
  - intros i Hi Ho. cbv zeta. unfold HitDetector.notesMatch.
    rewrite Hname, Hoctave, Htable. cbn [mbind option_bind].
    rewrite (buildNoteFrequencies_lookup name i octave Hi Ho).
    eexists. split; [reflexivity|]. apply flt_spec.
  - intros Hrange Hout. apply Hnone.
    apply buildNoteFrequencies_absent; assumption.
Qed.

Lemma C2_notesMatch_cents_witness :
  let h := Demo.playing (H := Standin.externals) [Demo.note 2.0 3 0] 2.03 in
  HitDetector.notesMatch (H := Standin.externals) h
    (Demo.sample 41.2 0.9) (Demo.note 2.0 3 0) = Some true.
Proof.
  intros h.
  assert (HitDetector.noteFrequencies h =
          HitDetector.buildNoteFrequencies (H := Standin.externals)) as Ht
    by reflexivity.
  assert (Song.NoteAt (H := Standin.externals)
            (GameState.Song (HitDetector.state h)) (Demo.note 2.0 3 0)
          = Some "E") as Hn by (vm_compute; reflexivity).
  assert (Song.OctaveAt (H := Standin.externals)
            (GameState.Song (HitDetector.state h)) (Demo.note 2.0 3 0)
          = Some 1) as Ho by (vm_compute; reflexivity).
  assert (noteIndexInOctave "E" = Some 4) as Hi by (vm_compute; reflexivity).
  destruct (proj1 (C2_notesMatch_cents (H := Standin.externals) h
                     (Demo.sample 41.2 0.9) (Demo.note 2.0 3 0)
                     "E" 1 Ht Hn Ho eq_refl)
              4 Hi ltac:(lia))
    as (b & Hb & Hiff).
  rewrite Hb. f_equal. apply Hiff. vm_compute. reflexivity.
Defined.

(** ** The scans return

    [HitDetector.Update] never panics. [CheckHit] can: the derivation
    of the expected note indexes the tuning with [note.String] and the note
    names with [(baseNote + note.Fret) % 12], which panics on a negative
    index. On a chart of well-formed notes it always returns. *)

Lemma Semitone_range (s : StringTuning.t) :
  0 <= StringTuning.Semitone s <= 11.
Proof.
  unfold StringTuning.Semitone.
  destruct (StringTuning.noteMap !! StringTuning.Note s) as [v|] eqn:Hv;
    simpl; [|lia].
  apply elem_of_list_to_map_2 in Hv.
  repeat (apply elem_of_cons in Hv as [Hv | Hv]; [injection Hv as _ ->; lia |]).
  inversion Hv.
Qed.

Lemma index_is_Some {A : Type} (l : list A) (i : Z) :
  0 <= i < Go.len l -> is_Some (Go.index l i).
Proof.
  unfold Go.index, Go.len. intros Hi.
  destruct (i <? 0) eqn:E; [lia|].
  apply lookup_lt_is_Some. lia.
Qed.

Lemma NoteWithTuning_total (n : TabNote.t) (tuning : list StringTuning.t) :
  well_formed n -> is_Some (TabNote.NoteWithTuning n tuning).
Proof.
  intros [Hs Hf]. unfold TabNote.NoteWithTuning.
  destruct (Go.len tuning <=? TabNote.String n) eqn:E; [eauto|].
  destruct (index_is_Some tuning (TabNote.String n)) as [o Ho]; [lia|].
  rewrite Ho. simpl.
  destruct (TabNote.Fret n =? 0); [eauto|].
  pose proof (Semitone_range o) as Hb.
  apply index_is_Some. unfold Go.rem, Go.add.
  rewrite wrap64_id
    by (unfold Go.is_int, Go.int_min, Go.int_max in *; lia).
  pose proof (Z.rem_bound_pos
                (StringTuning.Semitone o + TabNote.Fret n) 12).
  change (Go.len TabNote.notes) with 12. lia.
Qed.

Lemma OctaveWithTuning_total (n : TabNote.t) (tuning : list StringTuning.t) :
  well_formed n -> is_Some (TabNote.OctaveWithTuning n tuning).
Proof.
  intros [Hs Hf]. unfold TabNote.OctaveWithTuning.
  destruct (Go.len tuning <=? TabNote.String n) eqn:E; [eauto|].
  destruct (index_is_Some tuning (TabNote.String n)) as [o Ho]; [lia|].
  rewrite Ho. simpl. eauto.
Qed.

Lemma notesMatch_total `{Externals} h pitch n :
  well_formed n -> is_Some (HitDetector.notesMatch h pitch n).
Proof.
  intros Hwf. unfold HitDetector.notesMatch, Song.NoteAt, Song.OctaveAt.
  destruct (NoteWithTuning_total n
              (Song.GetTuning (GameState.Song (HitDetector.state h))) Hwf)
    as [name ->].
  destruct (OctaveWithTuning_total n
              (Song.GetTuning (GameState.Song (HitDetector.state h))) Hwf)
    as [octave ->].
  simpl. destruct (HitDetector.noteFrequencies h !! _); eauto.
Qed.

Lemma well_formed_register h i q x y now :
  Forall well_formed (notes_of h) ->
  Forall well_formed (notes_of (register h i q x y now)).
Proof.
  intros Hwf. rewrite notes_of_register.
  apply Forall_alter; [exact Hwf|]. intros n _ Hn. exact Hn.
Qed.

Lemma CheckHit_loop_total `{Externals} pitch x now ct idxs h :
  Forall well_formed (notes_of h) ->
  (forall i, i ∈ idxs -> (i < length (notes_of h))%nat) ->
  is_Some (HitDetector.CheckHit_loop pitch x now ct idxs h).
Proof.
  revert h. induction idxs as [|i rest IH]; intros h Hwf Hlt; [simpl; eauto|].
  destruct (lookup_lt_is_Some_2 (notes_of h) i (Hlt i ltac:(left)))
    as [n Hn].
  assert (forall k, k ∈ rest -> (k < length (notes_of h))%nat) as Hlt'
    by (intros k Hk; apply Hlt; right; exact Hk).
  rewrite (CheckHit_loop_cons pitch x now ct i rest h n Hn).
  destruct (TabNote.Hit n); [apply IH; assumption|].
  destruct (Go.fgt _ _); [apply IH; assumption|].
  destruct (Go.flt _ _).
  { apply IH; [apply well_formed_register, Hwf|].
    intros k Hk. rewrite notes_of_register, length_alter. apply Hlt', Hk. }
  destruct (notesMatch_total h pitch n) as [[|] ->].
  - eapply Forall_lookup_1; eassumption.
  - simpl. eauto.
  - simpl. apply IH; assumption.
Qed.

Lemma CheckHit_total `{Externals} pitch x now h :
  Forall well_formed (notes_of h) ->
  is_Some (HitDetector.CheckHit pitch x now h).
Proof.
  intros Hwf. unfold HitDetector.CheckHit.
  destruct (negb (PitchResult.IsValid pitch)); [eauto|].
  apply CheckHit_loop_total; [exact Hwf|].
  intros i Hi. apply elem_of_seq in Hi. fold (notes_of h) in Hi. lia.
Qed.


(** A string index past the tuning gives the sentinel note "?" in octave 1,
    which has no entry: no match, no panic. *)
Lemma notesMatch_beyond_tuning `{Externals} (h : HitDetector.t)
    (pitch : PitchResult.t) (note : TabNote.t) :
  HitDetector.noteFrequencies h = HitDetector.buildNoteFrequencies ->
  Go.len (Song.GetTuning (GameState.Song (HitDetector.state h)))
    <= TabNote.String note ->
  HitDetector.notesMatch h pitch note = Some false.
Proof.
  intros Htable Hlen.
  unfold HitDetector.notesMatch, Song.NoteAt, Song.OctaveAt,
    TabNote.NoteWithTuning, TabNote.OctaveWithTuning.
  apply Z.leb_le in Hlen. rewrite Hlen, Htable. cbn [mbind option_bind].
  rewrite (buildNoteFrequencies_absent "?" 1); [reflexivity|lia|].
  left. vm_compute. reflexivity.
Qed.

(** ** Scenarios

    Runs of the model with the stand-in math library: an open E string
    (E1, 41.2 Hz) due at 2.0 s. *)

(** The sample arrives 30 ms late: a Perfect hit, 100 points, combo 1. *)
Example scenario_perfect_hit :
  let h := Demo.playing (H := Standin.externals) [Demo.note 2.0 3 0] 2.03 in
  (fun h' =>
     (TabNote.HitQuality <$> notes_of h' !! 0%nat,
      GameState.Score (HitDetector.state h'),
      GameState.Combo (HitDetector.state h')))
    <$> HitDetector.CheckHit (H := Standin.externals)
          (Demo.sample 41.2 0.9) 100 0 h
  = Some (Some HitPerfect, 100, 1).
Proof. vm_compute. reflexivity. Qed.

(** An offset of 120 ms falls in the OK tier. *)
Example scenario_offset_120ms :
  HitDetector.getHitQuality (Qabs (2.0 - 2.12)) = HitOK.
Proof. reflexivity. Qed.

(** Nothing is played; the sweep at 2.35 s registers a Miss. *)
Example scenario_unplayed_miss :
  let h := Demo.playing (H := Standin.externals) [Demo.note 2.0 3 0] 2.35 in
  (fun h' =>
     (TabNote.HitQuality <$> notes_of h' !! 0%nat,
      GameState.Combo (HitDetector.state h'),
      GameState.NotesMissed (HitDetector.state h')))
    <$> HitDetector.Update 0 h
  = Some (Some HitMiss, 0, 1).
Proof. vm_compute. reflexivity. Qed.

(** 41.2 Hz against F1 (first fret, about 100 cents higher): no match. *)
Example scenario_wrong_pitch :
  let h := Demo.playing (H := Standin.externals) [Demo.note 2.0 3 1] 2.0 in
  HitDetector.notesMatch (H := Standin.externals) h
    (Demo.sample 41.2 0.9) (Demo.note 2.0 3 1) = Some false.
Proof. vm_compute. reflexivity. Qed.

(** * Properties of the further code *)

(** ** The next expected note *)

Lemma NextUnhitNote_loop_spec (ct : Q) (notes : list TabNote.t) (k : nat) :
  match NextUnhitNote_loop ct k notes with
  | Some i =>
      exists j n,
        i = (k + j)%nat /\ notes !! j = Some n /\
        TabNote.Hit n = false /\ (ct - 0.5 <= TabNote.Time n)%Q /\
        forall j' m, (j' < j)%nat -> notes !! j' = Some m ->
          TabNote.Hit m = true \/ (TabNote.Time m < ct - 0.5)%Q
  | None =>
      forall j m, notes !! j = Some m ->
        TabNote.Hit m = true \/ (TabNote.Time m < ct - 0.5)%Q
  end.
Proof.
  revert k. induction notes as [|a notes IH]; intros k; simpl.
  { intros j m Hm. rewrite lookup_nil in Hm. discriminate. }
  assert (negb (TabNote.Hit a) && Go.fle (ct - 0.5) (TabNote.Time a) = false ->
          TabNote.Hit a = true \/ (TabNote.Time a < ct - 0.5)%Q) as Hskip.
  { intros Hc. apply andb_false_iff in Hc as [Hc|Hc].
    - left. destruct (TabNote.Hit a); [reflexivity|discriminate].
    - right. apply fle_false, Hc. }
  destruct (negb (TabNote.Hit a) && Go.fle (ct - 0.5) (TabNote.Time a)) eqn:Hc.
  - apply andb_true_iff in Hc as [Hh Ht].
    exists 0%nat, a. split; [lia|]. split; [reflexivity|].
    split; [destruct (TabNote.Hit a); [discriminate|reflexivity]|].
    split; [apply fle_spec, Ht|]. intros j' m Hj'. lia.
  - specialize (IH (S k)).
    destruct (NextUnhitNote_loop ct (S k) notes) as [i|].
    + destruct IH as (j & n & -> & Hn & Hh & Ht & Hfirst).
      exists (S j), n. split; [lia|]. split; [exact Hn|].
      split; [exact Hh|]. split; [exact Ht|].
      intros [|j'] m Hlt Hm; simpl in Hm.
      * injection Hm as <-. apply Hskip. reflexivity.
      * apply (Hfirst j' m); [lia|exact Hm].
    + intros [|j] m Hm; simpl in Hm.
      * injection Hm as <-. apply Hskip. reflexivity.
      * apply (IH j m Hm).
Qed.

(** X1. [NextUnhitNote] returns the first note of the chart that is not hit
    and whose time is not more than half a second behind the given time;
    it returns nil exactly when every note is hit or further behind. *)
Theorem NextUnhitNote_first (s : Song.t) (ct : Q) :
  match Song_NextUnhitNote s ct with
  | Some i =>
      exists n,
        Song.Notes s !! i = Some n /\
        TabNote.Hit n = false /\ (ct - 0.5 <= TabNote.Time n)%Q /\
        forall j m, (j < i)%nat -> Song.Notes s !! j = Some m ->
          TabNote.Hit m = true \/ (TabNote.Time m < ct - 0.5)%Q
  | None =>
      forall j m, Song.Notes s !! j = Some m ->
        TabNote.Hit m = true \/ (TabNote.Time m < ct - 0.5)%Q
  end.
Proof.
  unfold Song_NextUnhitNote.
  pose proof (NextUnhitNote_loop_spec ct (Song.Notes s) 0) as Hspec.
  destruct (NextUnhitNote_loop ct 0 (Song.Notes s)) as [i|]; [|exact Hspec].
  destruct Hspec as (j & n & -> & Hn & Hh & Ht & Hfirst).
  exists n. simpl. eauto.
Qed.

Lemma GetExpectedNote_Some (h : HitDetector.t) (i : nat) :
  HitDetector_GetExpectedNote h = Some i ->
  exists n,
    notes_of h !! i = Some n /\ TabNote.Hit n = false /\
    forall j m, (j < i)%nat -> notes_of h !! j = Some m ->
      TabNote.Hit m = true \/
      stale (GameState.CurrentTime (HitDetector.state h)) m.
Proof.
  unfold HitDetector_GetExpectedNote, Song_NextUnhitNote. intros He.
  pose proof (NextUnhitNote_loop_spec
                (GameState.CurrentTime (HitDetector.state h))
                (Song.Notes (GameState.Song (HitDetector.state h))) 0) as Hspec.
  rewrite He in Hspec. destruct Hspec as (j0 & n & -> & Hn & Hh & _ & Hfirst).
  exists n. split; [exact Hn|]. split; [exact Hh|].
  intros j m Hj Hm. destruct (Hfirst j m Hj Hm) as [Hhit|Hold]; [left; exact Hhit|].
  right. unfold stale, MissWindow. lra.
Qed.

Lemma GetExpectedNote_None (h : HitDetector.t) :
  HitDetector_GetExpectedNote h = None ->
  forall j m, notes_of h !! j = Some m ->
    TabNote.Hit m = true \/
    (TabNote.Time m < GameState.CurrentTime (HitDetector.state h) - 0.5)%Q.
Proof.
  unfold HitDetector_GetExpectedNote, Song_NextUnhitNote. intros He.
  pose proof (NextUnhitNote_loop_spec
                (GameState.CurrentTime (HitDetector.state h))
                (Song.Notes (GameState.Song (HitDetector.state h))) 0) as Hspec.
  rewrite He in Hspec. exact Hspec.
Qed.

(** X2. The note [GetExpectedNote] designates can already be out of reach:
    when it lies more than the miss window behind the clock (it is expected
    up to half a second behind), the next valid sample makes [CheckHit]
    register it as a Miss, whatever its pitch: the call returns, and the
    note is hit with quality Miss. *)
Theorem expected_note_past_window `{Externals} (pitch : PitchResult.t)
    (x now : Q) (h : HitDetector.t) (i : nat) (n : TabNote.t) :
  Forall well_formed (notes_of h) ->
  HitDetector_GetExpectedNote h = Some i ->
  notes_of h !! i = Some n ->
  stale (GameState.CurrentTime (HitDetector.state h)) n ->
  PitchResult.IsValid pitch = true ->
  exists h' n',
    HitDetector.CheckHit pitch x now h = Some h' /\
    notes_of h' !! i = Some n' /\
    TabNote.Hit n' = true /\
    TabNote.HitQuality n' = HitMiss /\
    TabNote.HitTime n' = GameState.CurrentTime (HitDetector.state h) /\
    TabNote.Time n' = TabNote.Time n /\
    (i, HitMiss) ∈ log_of h'.
Proof.
  intros Hwf He Hn Hst Hv.
  destruct (CheckHit_total pitch x now h Hwf) as [h' Hrun].
  exists h', (TabNote.judge HitMiss
                (GameState.CurrentTime (HitDetector.state h)) n).
  split; [exact Hrun|].
  destruct (GetExpectedNote_Some h i He) as (n0 & Hn0 & Hh & Hfirst).
  assert (n0 = n) as -> by congruence.
  unfold HitDetector.CheckHit in Hrun. rewrite Hv in Hrun. simpl in Hrun.
  fold (notes_of h) in Hrun.
  set (ct := GameState.CurrentTime (HitDetector.state h)) in *.
  assert (i < length (notes_of h))%nat as Hlt
    by (apply lookup_lt_is_Some; eauto).
  replace (length (notes_of h)) with (i + S (length (notes_of h) - S i))%nat
    in Hrun by lia.
  rewrite seq_app in Hrun. simpl in Hrun.
  change (HitDetector.CheckHit_loop pitch x now ct
            (seq 0 i ++ i :: seq (S i) (length (notes_of h) - S i)) h = Some h')
    in Hrun.
  destruct (CheckHit_loop_prefix pitch x now ct (seq 0 i)
              (i :: seq (S i) (length (notes_of h) - S i)) h)
    as (h1 & E1 & Hsame & _ & Hct & _).
  { apply NoDup_seq. }
  { intros j Hj. apply elem_of_seq in Hj.
    assert (is_Some (notes_of h !! j)) as [m Hm]
      by (apply lookup_lt_is_Some; lia).
    exists m. split; [exact Hm|].
    destruct (Hfirst j m ltac:(lia) Hm) as [Hhit|Hold].
    - left. exact Hhit.
    - right. right. left. exact Hold. }
  rewrite E1 in Hrun.
  assert (notes_of h1 !! i = Some n) as Hn1.
  { rewrite Hsame; [exact Hn|]. intros Hin. apply elem_of_seq in Hin. lia. }
  rewrite (CheckHit_loop_cons pitch x now ct i _ h1 n Hn1), Hh in Hrun.
  assert (Go.fgt (TabNote.Time n - ct) MissWindow = false) as Hf.
  { apply fgt_false. unfold stale, MissWindow in *. lra. }
  assert (Go.flt (TabNote.Time n - ct) (- MissWindow) = true) as Hl
    by (apply flt_spec, Hst).
  rewrite Hf, Hl in Hrun.
  apply CheckHit_loop_judges, judged_once_steps in Hrun.
  destruct Hrun as (_ & Hkeep & new & Elog & _).
  split.
  - apply Hkeep.
    + rewrite notes_of_register, list_lookup_alter_eq, Hn1, Hct. reflexivity.
    + reflexivity.
  - do 4 (split; [reflexivity|]). rewrite Elog, log_of_register. set_solver.
Qed.

(** X3. When [GetExpectedNote] returns nil, the miss sweep of [Update]
    leaves no note unjudged: every note still not hit is more than the miss
    window behind the clock and is registered as a Miss. *)
Theorem no_expected_note_sweep (now : Q) (h : HitDetector.t) :
  HitDetector_GetExpectedNote h = None ->
  exists h',
    HitDetector.Update now h = Some h' /\
    length (notes_of h') = length (notes_of h) /\
    (forall j m, notes_of h' !! j = Some m -> TabNote.Hit m = true) /\
    (forall j n, notes_of h !! j = Some n -> TabNote.Hit n = false ->
       (j, HitMiss) ∈ log_of h').
Proof.
  intros He. pose proof (GetExpectedNote_None h He) as Hall.
  set (ct := GameState.CurrentTime (HitDetector.state h)) in *.
  destruct (Update_loop_spec now ct (seq 0 (length (notes_of h))) h)
    as (h' & Hrun & Hlen & _ & _ & Hnotes).
  { apply NoDup_seq. }
  { intros i Hi. apply elem_of_seq in Hi. lia. }
  exists h'. split; [exact Hrun|]. split; [exact Hlen|].
  assert (forall j n, notes_of h !! j = Some n -> TabNote.Hit n = false ->
            j ∈ seq 0 (length (notes_of h)) /\
            Go.fgt (ct - TabNote.Time n) MissWindow = true) as Hold.
  { intros j n Hn Hu. split.
    - apply elem_of_seq. apply lookup_lt_Some in Hn. lia.
    - apply fgt_spec. destruct (Hall j n Hn) as [Hh|Ht]; [congruence|].
      unfold MissWindow. lra. }
  split.
  - intros j m Hm.
    assert (is_Some (notes_of h !! j)) as [n Hn].
    { apply lookup_lt_is_Some. rewrite <- Hlen. apply lookup_lt_is_Some. eauto. }
    destruct (Hnotes j n Hn) as [Hmiss Hkeep].
    destruct (TabNote.Hit n) eqn:Hh.
    + rewrite Hkeep in Hm by tauto. congruence.
    + destruct (Hold j n Hn Hh) as [Hin Hgt].
      destruct (Hmiss Hin eq_refl Hgt) as [_ Hm'].
      rewrite Hm' in Hm. injection Hm as <-. reflexivity.
  - intros j n Hn Hu. destruct (Hold j n Hn Hu) as [Hin Hgt].
    apply (proj1 (Hnotes j n Hn) Hin Hu Hgt).
Qed.

Lemma expected_note_past_window_witness :
  let h := Demo.playing (H := Standin.externals) [Demo.note 1 3 0] 1.4 in
  let pitch := Demo.sample 41.2 0.9 in
  HitDetector_GetExpectedNote h = Some 0%nat /\
  exists h' n',
    HitDetector.CheckHit (H := Standin.externals) pitch 100 0 h = Some h' /\
    notes_of h' !! 0%nat = Some n' /\
    TabNote.Hit n' = true /\
    TabNote.HitQuality n' = HitMiss /\
    TabNote.HitTime n' = GameState.CurrentTime (HitDetector.state h) /\
    TabNote.Time n' = TabNote.Time (Demo.note 1 3 0) /\
    (0%nat, HitMiss) ∈ log_of h'.
Proof.
  intros h pitch.
  assert (HitDetector_GetExpectedNote h = Some 0%nat) as He
    by (vm_compute; reflexivity).
  assert (Forall well_formed (notes_of h)) as Hwf.
  { assert (notes_of h = [Demo.note 1 3 0]) as -> by (vm_compute; reflexivity).
    constructor; [|constructor]. unfold well_formed, Go.int_max. simpl. lia. }
  split; [exact He|].
  apply (expected_note_past_window (H := Standin.externals) pitch 100 0 h
           0%nat (Demo.note 1 3 0) Hwf He).
  - vm_compute; reflexivity.
  - vm_compute; reflexivity.
  - vm_compute; reflexivity.
Defined.

Lemma no_expected_note_sweep_witness :
  let h := Demo.playing (H := Standin.externals)
             [Demo.note 1 3 0; Demo.note 2 3 2] 3 in
  exists h',
    HitDetector.Update 0 h = Some h' /\
    length (notes_of h') = length (notes_of h) /\
    (forall j m, notes_of h' !! j = Some m -> TabNote.Hit m = true) /\
    (forall j n, notes_of h !! j = Some n -> TabNote.Hit n = false ->
       (j, HitMiss) ∈ log_of h').
Proof.
  intros h. apply (no_expected_note_sweep 0 h). vm_compute; reflexivity.
Defined.

(** ** Accuracy and grade *)

Lemma session_invariant_run `{Externals} (cs : list call)
    (h h' : HitDetector.t) :
  session_invariant h -> run cs h = Some h' -> session_invariant h'.
Proof.
  intros Hinv Hrun. apply run_steps in Hrun.
  induction Hrun as [|h1 h2 h3 Hs _ IH]; [exact Hinv|].
  apply IH. eapply session_invariant_step; eassumption.
Qed.

(** The accuracy against a whole-number percentage [c]. *)
Lemma Accuracy_ge (g : GameState.t) (c : Z) :
  0 <= GameState.NotesHit g -> 0 <= GameState.NotesMissed g ->
  GameState.NotesHit g + GameState.NotesMissed g <= Go.int_max ->
  0 <= c <= 100 ->
  Go.fle (inject_Z c) (GameState_Accuracy g) = true <->
  c * (GameState.NotesHit g + GameState.NotesMissed g)
    <= 100 * GameState.NotesHit g.
Proof.
  intros Hh Hm Hmax Hc. unfold GameState_Accuracy, Go.add.
  rewrite wrap64_id by (unfold Go.is_int, Go.int_min, Go.int_max in *; lia).
  set (a := GameState.NotesHit g) in *. set (m := GameState.NotesMissed g) in *.
  rewrite fle_spec.
  destruct (Z.eqb_spec (a + m) 0) as [E|E].
  - assert (a = 0 /\ m = 0) as [-> ->] by lia.
    unfold Qle. simpl. lia.
  - unfold Qle, Qdiv, Qmult, Qinv, inject_Z. simpl.
    destruct (a + m) as [|p|p] eqn:Ep; [lia| |lia]. simpl. nia.
Qed.

Lemma Accuracy_range (g : GameState.t) :
  0 <= GameState.NotesHit g -> 0 <= GameState.NotesMissed g ->
  GameState.NotesHit g + GameState.NotesMissed g <= Go.int_max ->
  (0 <= GameState_Accuracy g <= 100)%Q.
Proof.
  intros Hh Hm Hmax. unfold GameState_Accuracy, Go.add.
  rewrite wrap64_id by (unfold Go.is_int, Go.int_min, Go.int_max in *; lia).
  set (a := GameState.NotesHit g) in *. set (m := GameState.NotesMissed g) in *.
  destruct (Z.eqb_spec (a + m) 0) as [E|E].
  - unfold Qle. simpl. lia.
  - unfold Qle, Qdiv, Qmult, Qinv, inject_Z. simpl.
    destruct (a + m) as [|p|p] eqn:Ep; [lia| |lia]. simpl. nia.
Qed.

(** X4. After any sequence of calls on a freshly selected chart the accuracy
    is a percentage between 0 and 100, and it is 100 as long as no note
    has been missed (also when none has been judged at all). *)
Theorem Accuracy_of_session `{Externals} (song : Song.t) (cs : list call)
    (h : HitDetector.t) :
  Go.len (Song.Notes song) <= Go.int_max ->
  run cs (fresh song) = Some h ->
  (0 <= GameState_Accuracy (HitDetector.state h) <= 100)%Q /\
  (GameState.NotesMissed (HitDetector.state h) = 0 ->
   (GameState_Accuracy (HitDetector.state h) == 100)%Q).
Proof.
  intros Hlen Hrun.
  pose proof (session_invariant_run cs _ h (session_invariant_fresh song Hlen)
                Hrun) as (Hh & Hm & Hsum & Htot & _).
  pose proof (unhit_bounds (notes_of h)) as Hu.
  split; [apply Accuracy_range; lia|].
  intros Hz. apply Qle_antisym; [apply Accuracy_range; lia|].
  apply fle_spec. apply (Accuracy_ge (HitDetector.state h) 100); lia.
Qed.

Lemma Accuracy_of_session_witness :
  let song := Demo.chart [Demo.note 1 3 0; Demo.note 2 3 2] in
  let cs := [CallStart 0; CallTick 1;
             CallCheckHit (Demo.sample 41.2 0.9) 100 0; CallUpdate 0;
             CallTick 2.4; CallUpdate 0] in
  let h0 := fresh (H := Standin.externals) song in
  let h := default h0 (run (H := Standin.externals) cs h0) in
  (0 <= GameState_Accuracy (HitDetector.state h) <= 100)%Q /\
  (GameState.NotesMissed (HitDetector.state h) = 0 ->
   (GameState_Accuracy (HitDetector.state h) == 100)%Q).
Proof.
  intros song cs h0 h.
  apply (Accuracy_of_session (H := Standin.externals) song cs h).
  - vm_compute; discriminate.
  - apply Some_default; vm_compute; reflexivity.
Defined.

(** X5. The grade of the results screen in terms of the counters (for
    fewer than 2^32 judged notes): S when the hits are at least 19 times
    the misses (so also when nothing was judged), then A, B, C, D at 9 to
    1, 4 to 1, 7 to 3 and 3 to 2, F below. *)
Theorem getGrade_of_counters (g : GameState.t) :
  0 <= GameState.NotesHit g -> 0 <= GameState.NotesMissed g ->
  GameState.NotesHit g + GameState.NotesMissed g <= 2 ^ 32 ->
  let hit := GameState.NotesHit g in
  let missed := GameState.NotesMissed g in
  getGrade (GameState_Accuracy g) =
    if 19 * missed <=? hit then "S"
    else if 9 * missed <=? hit then "A"
    else if 4 * missed <=? hit then "B"
    else if 7 * missed <=? 3 * hit then "C"
    else if 3 * missed <=? 2 * hit then "D"
    else "F".
Proof.
  intros Hh Hm Hsmall hit missed. unfold getGrade.
  assert (GameState.NotesHit g + GameState.NotesMissed g <= Go.int_max)
    as Hmax by (unfold Go.int_max; lia).
  assert (forall c, 0 <= c <= 100 ->
            Go.fle (inject_Z c) (GameState_Accuracy g) =
            (c * (hit + missed) <=? 100 * hit)) as Hge.
  { intros c Hc. pose proof (Accuracy_ge g c Hh Hm Hmax Hc) as Hiff.
    fold hit missed in Hiff.
    destruct (Z.leb_spec (c * (hit + missed)) (100 * hit)) as [Hle|Hgt].
    - apply Hiff, Hle.
    - destruct (Go.fle (inject_Z c) (GameState_Accuracy g)) eqn:E;
        [|reflexivity].
      pose proof (proj1 Hiff eq_refl). lia. }
  change (95 : Q)%Q with (inject_Z 95). change (90 : Q)%Q with (inject_Z 90).
  change (80 : Q)%Q with (inject_Z 80). change (70 : Q)%Q with (inject_Z 70).
  change (60 : Q)%Q with (inject_Z 60).
  rewrite !Hge by lia.
  repeat match goal with
         | |- context [?a <=? ?b] => destruct (Z.leb_spec a b)
         end; try reflexivity; lia.
Qed.

Lemma getGrade_of_counters_witness :
  let g := GameState.mk (Demo.chart []) 0 0 1200 0 9 17 3 20 true false [] [] in
  getGrade (GameState_Accuracy g) = "B".
Proof.
  intros g. apply (getGrade_of_counters g); vm_compute; discriminate.
Defined.

(** ** Package audio *)

Lemma computeConfidence_valid (freq rms : Q) :
  Go.fgt (Audio.computeConfidence freq rms) 0.5 = true <->
  (20 <= freq <= 500 /\ 0.5 < rms * 50)%Q.
Proof.
  unfold Audio.computeConfidence, Audio.math_Min.
  destruct (Go.flt freq 20) eqn:E1; simpl.
  { apply flt_spec in E1. rewrite fgt_spec. split; lra. }
  apply flt_false in E1.
  destruct (Go.fgt freq 500) eqn:E2.
  { apply fgt_spec in E2. rewrite fgt_spec. split; lra. }
  apply fgt_false in E2.
  destruct (Go.flt rms 0.001) eqn:E3.
  { apply flt_spec in E3. rewrite fgt_spec. split; lra. }
  apply flt_false in E3.
  destruct (Go.flt (rms * 50) 1.0) eqn:E4.
  - apply flt_spec in E4. rewrite fgt_spec. split; lra.
  - apply flt_false in E4. rewrite fgt_spec. split; lra.
Qed.

(** X6. The confidence of a detection is a number between 0 and 1; it
    exceeds the validity threshold 0.5 exactly when the frequency lies in
    the band from 20 Hz to 500 Hz and fifty times the RMS of the buffer
    exceeds 0.5 (an RMS above 0.01). *)
Theorem computeConfidence_threshold (freq rms : Q) :
  (0 <= Audio.computeConfidence freq rms <= 1)%Q /\
  (Go.fgt (Audio.computeConfidence freq rms) 0.5 = true <->
   (20 <= freq <= 500 /\ 0.5 < rms * 50)%Q).
Proof.
  split; [|apply computeConfidence_valid].
  unfold Audio.computeConfidence, Audio.math_Min.
  destruct (Go.flt freq 20 || Go.fgt freq 500); [lra|].
  destruct (Go.flt rms 0.001) eqn:E3; [lra|]. apply flt_false in E3.
  destruct (Go.flt (rms * 50) 1.0) eqn:E4.
  - apply flt_spec in E4. lra.
  - lra.
Qed.

(** The whole part [Qnum q / QDen q] of a rational. *)
Lemma floor_bounds (q : Q) :
  (inject_Z (Qnum q / QDen q) <= q < inject_Z (Qnum q / QDen q + 1))%Q.
Proof.
  destruct q as [n d]. unfold Qle, Qlt, inject_Z. simpl.
  pose proof (Z.mul_div_le n (Z.pos d) ltac:(lia)).
  pose proof (Z.mul_succ_div_gt n (Z.pos d) ltac:(lia)).
  lia.
Qed.


(** [math_Round] is within one half of its argument, and integral. *)
Lemma math_Round_spec (x : Q) :
  exists r : Z,
    Audio.math_Round x = inject_Z r /\
    (- (1 # 2) <= x - inject_Z r <= 1 # 2)%Q /\
    ((0 <= x)%Q -> 0 <= r).
Proof.
  unfold Audio.math_Round. destruct (Go.fle 0 x) eqn:E.
  - apply fle_spec in E.
    exists (Qnum (x + (1 # 2)) / QDen (x + (1 # 2))). split; [reflexivity|].
    destruct (floor_bounds (x + (1 # 2))) as [Hlo Hhi].
    rewrite inject_Z_plus in Hhi. change (inject_Z 1) with 1%Q in Hhi.
    split; [lra|]. intros _.
    assert (inject_Z 0 < inject_Z (Qnum (x + (1 # 2)) / QDen (x + (1 # 2)) + 1))%Q
      as H0
      by (rewrite inject_Z_plus; change (inject_Z 1) with 1%Q;
          change (inject_Z 0) with 0%Q; lra).
    rewrite <- Zlt_Qlt in H0. lia.
  - apply fle_false in E.
    exists (- (Qnum (- x + (1 # 2)) / QDen (- x + (1 # 2)))).
    split; [reflexivity|].
    destruct (floor_bounds (- x + (1 # 2))) as [Hlo Hhi].
    rewrite inject_Z_plus in Hhi. change (inject_Z 1) with 1%Q in Hhi.
    rewrite inject_Z_opp.
    split; [lra|]. intros H0. lra.
Qed.


(** The conversion to [int] of a value within [-b, b]. *)
Lemma int_of_float_bounded (y : Q) (b : Z) :
  0 <= b <= Go.int_max ->
  (- inject_Z b <= y <= inject_Z b)%Q ->
  exists z, Audio.int_of_float y = Some z /\ - b <= z <= b.
Proof.
  intros Hb [Hlo Hhi]. unfold Audio.int_of_float.
  destruct y as [n d]. unfold Qle, inject_Z in Hlo, Hhi. simpl in *.
  assert (- b <= Z.quot n (Z.pos d) <= b) as Hq.
  { destruct (Z.le_gt_cases 0 n) as [Hn|Hn].
    - rewrite Z.quot_div_nonneg by lia. split.
      + pose proof (Z.div_pos n (Z.pos d)). lia.
      + apply Z.div_le_upper_bound; lia.
    - replace n with (- (- n)) by lia. rewrite Z.quot_opp_l by lia.
      rewrite Z.quot_div_nonneg by lia. split.
      + assert (- n / Z.pos d <= b); [|lia].
        apply Z.div_le_upper_bound; lia.
      + pose proof (Z.div_pos (- n) (Z.pos d)). lia. }
  exists (Z.quot n (Z.pos d)). split; [|exact Hq].
  unfold Go.int_min, Go.int_max in *.
  destruct (Z.leb_spec (- 2 ^ 63) (n ÷ Z.pos d));
    destruct (Z.leb_spec (n ÷ Z.pos d) (2 ^ 63 - 1)); simpl; try reflexivity; lia.
Qed.

Lemma int_of_float_inject (z : Z) :
  Go.is_int z -> Audio.int_of_float (inject_Z z) = Some z.
Proof.
  intros Hz. unfold Audio.int_of_float, inject_Z. simpl.
  rewrite Z.quot_1_r. unfold Go.is_int in Hz.
  destruct (Z.leb_spec Go.int_min z); destruct (Z.leb_spec z Go.int_max);
    simpl; try reflexivity; lia.
Qed.

(** The index and the octave computed from a note number that is not
    negative. *)
Lemma noteNum_split (r : Z) :
  0 <= r <= Go.int_max ->
  Go.rem (Go.add (Go.rem r 12) 12) 12 = r mod 12 /\
  Go.add (Go.div r 12) (-1) = r / 12 - 1.
Proof.
  intros Hr. unfold Go.rem, Go.add, Go.div, Go.int_max in *.
  rewrite (Z.rem_mod_nonneg r 12) by lia. rewrite Z.quot_div_nonneg by lia.
  pose proof (Z.mod_pos_bound r 12 ltac:(lia)).
  pose proof (Z.div_pos r 12 ltac:(lia) ltac:(lia)).
  assert (r / 12 <= r) by (apply Z.div_le_upper_bound; lia).
  rewrite !wrap64_id
    by (unfold Go.is_int, Go.int_min, Go.int_max; try rewrite wrap64_id;
        unfold Go.is_int, Go.int_min, Go.int_max; lia).
  split; [|reflexivity].
  rewrite Z.rem_mod_nonneg by lia.
  rewrite <- (Z.mul_1_l 12) at 2. rewrite Z.mod_add by lia.
  apply Z.mod_mod. lia.
Qed.

Lemma noteNames_lookup (k : Z) :
  0 <= k < 12 ->
  exists name, Go.index Audio.noteNames k = Some name /\
               Audio.noteNames !! Z.to_nat k = Some name /\ name <> "".
Proof.
  intros Hk. assert (k ∈ seqZ 0 12) as Hin by (apply elem_of_seqZ; lia).
  repeat (apply elem_of_cons in Hin as [-> | Hin];
          [eexists; split; [reflexivity|split; [reflexivity|discriminate]]|]).
  inversion Hin.
Qed.

(** The result of [frequencyToNote] on an audible frequency whose MIDI
    value is not negative. *)
Lemma frequencyToNote_spec `{Externals} (freq : Q) :
  (20 <= freq <= 5000)%Q ->
  let midiNote := (12 * math_Log2 (freq / 440) + 69)%Q in
  (0 <= midiNote <= inject_Z (2 ^ 62))%Q ->
  exists (r cents : Z) (name : string),
    Audio.math_Round midiNote = inject_Z r /\
    0 <= r /\
    Audio.int_of_float ((midiNote - inject_Z r) * 100) = Some cents /\
    - 50 <= cents <= 50 /\
    Audio.noteNames !! Z.to_nat (r mod 12) = Some name /\
    name <> "" /\
    Audio.frequencyToNote freq = Some (name, r / 12 - 1, cents).
Proof.
  intros Hf midiNote Hm. unfold Audio.frequencyToNote.
  assert (Go.flt freq 20 = false) as -> by (apply flt_false; lra).
  assert (Go.fgt freq 5000 = false) as -> by (apply fgt_false; lra).
  simpl. fold midiNote.
  destruct (math_Round_spec midiNote) as (r & Er & Hr & Hr0).
  specialize (Hr0 (proj1 Hm)).
  assert (r <= 2 ^ 62 + 1) as Hrmax.
  { assert (inject_Z r < inject_Z (2 ^ 62 + 2))%Q as Hlt
      by (rewrite inject_Z_plus; change (inject_Z 2) with 2%Q; lra).
    rewrite <- Zlt_Qlt in Hlt. lia. }
  assert (Go.is_int r) as Hint
    by (unfold Go.is_int, Go.int_min, Go.int_max; lia).
  destruct (int_of_float_bounded ((midiNote - inject_Z r) * 100) 50)
    as (cents & Ec & Hc).
  { unfold Go.int_max. lia. }
  { change (inject_Z 50) with 50%Q. lra. }
  destruct (noteNum_split r) as [Ei Eo]; [unfold Go.int_max; lia|].
  destruct (noteNames_lookup (r mod 12)) as (name & En & En' & Hne).
  { apply Z.mod_pos_bound. lia. }
  exists r, cents, name. split; [exact Er|]. split; [exact Hr0|].
  split; [exact Ec|]. split; [exact Hc|]. split; [exact En'|].
  split; [exact Hne|].
  rewrite Er, (int_of_float_inject r Hint). cbn [mbind option_bind].
  rewrite Ec. cbn [mbind option_bind]. rewrite Ei, En.
  cbn [mbind option_bind]. rewrite Eo. reflexivity.
Qed.

(** X7. On an audible frequency whose MIDI value is not negative,
    [frequencyToNote] never fails: the name is one of the twelve note names,
    name and octave add up to the nearest MIDI note, and the deviation is
    within 50 cents. *)
Theorem frequencyToNote_decomposition `{Externals} (freq : Q) :
  (20 <= freq <= 5000)%Q ->
  let midiNote := (12 * math_Log2 (freq / 440) + 69)%Q in
  (0 <= midiNote <= inject_Z (2 ^ 62))%Q ->
  exists (name : string) (octave cents : Z) (idx : nat),
    Audio.frequencyToNote freq = Some (name, octave, cents) /\
    Audio.noteNames !! idx = Some name /\
    Audio.math_Round midiNote = inject_Z (12 * (octave + 1) + Z.of_nat idx) /\
    - 50 <= cents <= 50.
Proof.
  intros Hf midiNote Hm.
  destruct (frequencyToNote_spec freq Hf Hm)
    as (r & cents & name & Er & Hr & _ & Hc & En & _ & E).
  exists name, (r / 12 - 1), cents, (Z.to_nat (r mod 12)).
  split; [exact E|]. split; [exact En|]. split; [|exact Hc].
  fold midiNote in Er. rewrite Er. f_equal.
  pose proof (Z.mod_pos_bound r 12 ltac:(lia)).
  rewrite Z2Nat.id by lia. pose proof (Z.div_mod r 12 ltac:(lia)). lia.
Qed.

Lemma frequencyToNote_decomposition_witness :
  exists (name : string) (octave cents : Z) (idx : nat),
    Audio.frequencyToNote (H := Standin.externals) 41.2 =
      Some (name, octave, cents) /\
    Audio.noteNames !! idx = Some name /\
    Audio.math_Round
      (12 * math_Log2 (Externals := Standin.externals) (41.2 / 440) + 69) =
      inject_Z (12 * (octave + 1) + Z.of_nat idx) /\
    - 50 <= cents <= 50.
Proof.
  assert (20 <= 41.2 <= 5000)%Q as Hf
    by (split; vm_compute; discriminate).
  assert (0 <= 12 * math_Log2 (Externals := Standin.externals) (41.2 / 440) + 69
          <= inject_Z (2 ^ 62))%Q as Hm
    by (split; vm_compute; discriminate).
  exact (frequencyToNote_decomposition (H := Standin.externals) 41.2 Hf Hm).
Defined.




(** The twelve sharp names: their index in [noteNames] is the one the
    detector's table files them under. *)
Lemma noteNames_find (name : string) (idx : nat) :
  Audio.noteNames !! idx = Some name ->
  list_find (fun n => n = name) Audio.noteNames = Some (idx, name) /\
  noteIndexInOctave name = Some (Z.of_nat idx) /\
  (idx < 12)%nat /\ name <> "".
Proof.
  intros Hname.
  do 12 (destruct idx as [|idx];
         [injection Hname as <-; vm_compute; repeat split; (lia || discriminate)|]).
  discriminate.
Qed.

(** X9. The two packages agree on the pitch of a note: for a sample named
    by one of the twelve sharp names in octaves 0 to 4, the table of the
    hit detector holds under the sample's full name exactly the frequency
    [NoteToFrequency] computes. *)
Theorem table_holds_NoteToFrequency `{Externals} (r : PitchResult.t)
    (idx : nat) :
  Audio.noteNames !! idx = Some (PitchResult.Note r) ->
  0 <= PitchResult.Octave r <= 4 ->
  HitDetector.buildNoteFrequencies !! Audio.FullNoteName r =
    Some (Audio.NoteToFrequency (PitchResult.Note r) (PitchResult.Octave r)).
Proof.
  intros Hname Ho.
  destruct (noteNames_find _ _ Hname) as (Hfind & Hidx & Hlt & Hne).
  unfold Audio.FullNoteName. destruct (decide (PitchResult.Note r = ""));
    [contradiction|].
  rewrite (buildNoteFrequencies_lookup _ (Z.of_nat idx) _ Hidx Ho).
  unfold Audio.NoteToFrequency. rewrite Hfind.
  unfold Go.add, Go.mul.
  rewrite !wrap64_id
    by (repeat (rewrite wrap64_id;
                unfold Go.is_int, Go.int_min, Go.int_max);
        unfold Go.is_int, Go.int_min, Go.int_max; lia).
  do 5 f_equal. lia.
Qed.

Lemma table_holds_NoteToFrequency_witness :
  HitDetector.buildNoteFrequencies (H := Standin.externals)
    !! Audio.FullNoteName (Demo.sample 41.2 0.9) =
  Some (Audio.NoteToFrequency (H := Standin.externals) "E" 1).
Proof.
  apply (table_holds_NoteToFrequency (H := Standin.externals)
           (Demo.sample 41.2 0.9) 4).
  - reflexivity.
  - simpl. lia.
Defined.

(** X10. The aliases are known to one package only: in octaves 0 to 4 the
    table of the hit detector holds for a flat name the frequency of its
    sharp, while [NoteToFrequency] answers 0 for the flat name. *)
Theorem flat_names_in_table_only `{Externals} (flat sharp : string)
    (octave : Z) :
  (flat, sharp) ∈ HitDetector.flatNames ->
  0 <= octave <= 4 ->
  Audio.NoteToFrequency flat octave = 0%Q /\
  HitDetector.buildNoteFrequencies !! (flat +:+ Go.digit_string octave) =
    Some (Audio.NoteToFrequency sharp octave).
Proof.
  intros Hin Ho.
  assert (exists idx,
            list_find (fun n => n = flat) Audio.noteNames = None /\
            list_find (fun n => n = sharp) Audio.noteNames = Some (idx, sharp) /\
            noteIndexInOctave flat = Some (Z.of_nat idx) /\ (idx < 12)%nat)
    as (idx & Hflat & Hsharp & Hidx & Hlt).
  { unfold HitDetector.flatNames in Hin.
    repeat (apply elem_of_cons in Hin as [[= -> ->] | Hin];
            [eexists; vm_compute; repeat split; lia|]).
    inversion Hin. }
  split.
  - unfold Audio.NoteToFrequency. rewrite Hflat. reflexivity.
  - rewrite (buildNoteFrequencies_lookup _ (Z.of_nat idx) _ Hidx Ho).
    unfold Audio.NoteToFrequency. rewrite Hsharp.
    unfold Go.add, Go.mul.
    rewrite !wrap64_id
      by (repeat (rewrite wrap64_id;
                  unfold Go.is_int, Go.int_min, Go.int_max);
          unfold Go.is_int, Go.int_min, Go.int_max; lia).
    do 5 f_equal. lia.
Qed.

Lemma flat_names_in_table_only_witness :
  Audio.NoteToFrequency (H := Standin.externals) "Eb" 1 = 0%Q /\
  HitDetector.buildNoteFrequencies (H := Standin.externals)
    !! ("Eb" +:+ Go.digit_string 1) =
  Some (Audio.NoteToFrequency (H := Standin.externals) "D#" 1).
Proof.
  apply (flat_names_in_table_only (H := Standin.externals) "Eb" "D#" 1).
  - unfold HitDetector.flatNames. set_solver.
  - lia.
Defined.

Lemma noteNames_index_nonempty (k : Z) (name : string) :
  Go.index Audio.noteNames k = Some name -> name <> "".
Proof.
  unfold Go.index. destruct (k <? 0); [discriminate|]. intros Hk.
  apply list_elem_of_lookup_2 in Hk. unfold Audio.noteNames in Hk.
  repeat (apply elem_of_cons in Hk as [-> | Hk]; [discriminate|]).
  inversion Hk.
Qed.

(** X11. [Detect] assembles a result for every frequency outside the
    range from 20 Hz to 5000 Hz, and inside it whenever the MIDI value is
    not negative. A detection is valid exactly when its frequency lies
    between 20 Hz and 500 Hz and fifty times the buffer's RMS exceeds 0.5
    (an RMS above 0.01); any other detection leaves the game untouched
    when it is passed to [CheckHit]. *)
Theorem Detect_valid `{Externals} (freq rms : Q) :
  ((freq < 20)%Q \/ (5000 < freq)%Q \/
   (0 <= 12 * math_Log2 (freq / 440) + 69 <= inject_Z (2 ^ 62))%Q ->
   is_Some (Audio.Detect freq rms)) /\
  forall r, Audio.Detect freq rms = Some r ->
    (PitchResult.IsValid r = true <->
     (20 <= freq <= 500 /\ 0.5 < rms * 50)%Q) /\
    (~ (20 <= freq <= 500 /\ 0.5 < rms * 50)%Q ->
     forall x now h, HitDetector.CheckHit r x now h = Some h).
Proof.
  split.
  { intros Hcase. unfold Audio.Detect.
    assert (is_Some (Audio.frequencyToNote freq)) as [[[note octave] cents] ->];
      [|eexists; reflexivity].
    destruct (Qlt_le_dec freq 20) as [Hlo|Hlo].
    { unfold Audio.frequencyToNote.
      rewrite (proj2 (flt_spec freq 20) Hlo). eexists. reflexivity. }
    destruct (Qlt_le_dec 5000 freq) as [Hhi|Hhi].
    { unfold Audio.frequencyToNote.
      rewrite (proj2 (fgt_spec freq 5000) Hhi), orb_true_r.
      eexists. reflexivity. }
    destruct Hcase as [Hc|[Hc|Hm]]; [lra|lra|].
    destruct (frequencyToNote_spec freq (conj Hlo Hhi) Hm)
      as (r0 & c0 & name & _ & _ & _ & _ & _ & _ & E).
    rewrite E. eexists. reflexivity. }
  intros r Hd.
  assert (PitchResult.IsValid r = true <->
          (20 <= freq <= 500 /\ 0.5 < rms * 50)%Q) as Hiff.
  { unfold Audio.Detect in Hd.
    destruct (Audio.frequencyToNote freq) as [[[note octave] cents]|] eqn:Ef;
      simpl in Hd; [|discriminate].
    injection Hd as <-. unfold PitchResult.IsValid. simpl.
    rewrite andb_true_iff, computeConfidence_valid. split; [tauto|].
    intros Hband. split; [|exact Hband].
    unfold Audio.frequencyToNote in Ef.
    assert (Go.flt freq 20 = false) as E1 by (apply flt_false; lra).
    assert (Go.fgt freq 5000 = false) as E2 by (apply fgt_false; lra).
    rewrite E1, E2 in Ef. simpl in Ef.
    destruct (Audio.int_of_float _) as [noteNum|]; simpl in Ef; [|discriminate].
    destruct (Audio.int_of_float _) as [c|]; simpl in Ef; [|discriminate].
    destruct (Go.index Audio.noteNames _) as [name|] eqn:En; simpl in Ef;
      [|discriminate].
    injection Ef as <- _ _. apply noteNames_index_nonempty in En.
    rewrite bool_decide_eq_false_2 by exact En. reflexivity. }
  split; [exact Hiff|]. intros Hout x now h.
  unfold HitDetector.CheckHit.
  destruct (PitchResult.IsValid r); [|reflexivity].
  exfalso. apply Hout, Hiff. reflexivity.
Qed.

(** ** Chart queries and tunings *)

Lemma NotesInRange_loop_spec (a b : Q) (rest : list TabNote.t) (k : nat)
    (acc : list nat) :
  exists res,
    NotesInRange_loop a b k rest acc = acc ++ res /\
    (forall i, i ∈ res <->
       exists j n, i = (k + j)%nat /\ rest !! j = Some n /\
                   (a <= TabNote.Time n <= b)%Q) /\
    StronglySorted lt res.
Proof.
  revert k acc. induction rest as [|n rest IH]; intros k acc; simpl.
  { exists []. rewrite app_nil_r. split; [reflexivity|]. split; [|constructor].
    intros i. split; [intros Hi; inversion Hi|].
    intros (j & m & _ & Hm & _). rewrite lookup_nil in Hm. discriminate. }
  destruct (Go.fle a (TabNote.Time n) && Go.fle (TabNote.Time n) b) eqn:Hc.
  - apply andb_true_iff in Hc as [Ha Hb].
    apply fle_spec in Ha. apply fle_spec in Hb.
    destruct (IH (S k) (acc ++ [k])) as (res & E & Hmem & Hsorted).
    exists (k :: res). split; [rewrite E, <- app_assoc; reflexivity|].
    split.
    + intros i. rewrite elem_of_cons, Hmem. split.
      * intros [->|(j & m & -> & Hm & Hr)].
        -- exists 0%nat, n. split; [lia|]. split; [reflexivity|]. split; assumption.
        -- exists (S j), m. split; [lia|]. split; assumption.
      * intros ([|j] & m & -> & Hm & Hr); [left; lia|].
        right. exists j, m. split; [lia|]. split; assumption.
    + constructor; [exact Hsorted|]. apply Forall_forall. intros i Hi.
      apply Hmem in Hi as (j & _ & -> & _). lia.
  - destruct (IH (S k) acc) as (res & E & Hmem & Hsorted).
    exists res. split; [exact E|]. split; [|exact Hsorted].
    intros i. rewrite Hmem. split.
    + intros (j & m & -> & Hm & Hr). exists (S j), m.
      split; [lia|]. split; assumption.
    + intros ([|j] & m & -> & Hm & Hr).
      * simpl in Hm. injection Hm as <-. exfalso.
        apply andb_false_iff in Hc as [Hc|Hc]; apply fle_false in Hc; lra.
      * exists j, m. split; [lia|]. split; assumption.
Qed.

(** X12. [NotesInRange] returns exactly the notes whose time lies between
    the two bounds (both included), each once and in chart order; it
    returns none when the bounds are given in the wrong order. *)
Theorem NotesInRange_exact (s : Song.t) (a b : Q) :
  (forall i, i ∈ Song_NotesInRange s a b <->
     exists n, Song.Notes s !! i = Some n /\ (a <= TabNote.Time n <= b)%Q) /\
  StronglySorted lt (Song_NotesInRange s a b) /\
  ((b < a)%Q -> Song_NotesInRange s a b = []).
Proof.
  unfold Song_NotesInRange.
  destruct (NotesInRange_loop_spec a b (Song.Notes s) 0 [])
    as (res & -> & Hmem & Hsorted).
  simpl. split; [|split; [exact Hsorted|]].
  - intros i. rewrite Hmem. split.
    + intros (j & n & -> & Hn & Hr). exists n. split; assumption.
    + intros (n & Hn & Hr). exists i, n. split; [reflexivity|]. split; assumption.
  - intros Hba. destruct res as [|i res]; [reflexivity|]. exfalso.
    destruct (proj1 (Hmem i) ltac:(left)) as (j & n & _ & _ & Hr). lra.
Qed.

Lemma TuningsByName_length (name : string) (t : list StringTuning.t) :
  TuningsByName !! name = Some t -> 4 <= Go.len t.
Proof.
  intros Hl. unfold TuningsByName in Hl.
  apply (elem_of_list_to_map_2 (M := gmap string)) in Hl.
  repeat (apply elem_of_cons in Hl as [[= -> ->] | Hl];
          [vm_compute; discriminate|]).
  inversion Hl.
Qed.

Lemma ParseTuning_length `{Externals} (str : string) :
  4 <= Go.len (ParseTuning str).
Proof.
  unfold ParseTuning.
  destruct (TuningsByName !! _) as [t|] eqn:Hl.
  - eapply TuningsByName_length, Hl.
  - destruct (Z.leb_spec 4 (Go.len (strings_Split
                (strings_ToLower (strings_TrimSpace str)) ","))) as [Hle|Hlt].
    + unfold Go.len in *. rewrite length_fmap. exact Hle.
    + vm_compute. discriminate.
Qed.

(** X13. Whatever the tuning string, [ParseTuning] returns a tuning of at
    least four strings, and so does [GetTuning] for a song whose tuning is
    not set: a note on one of the strings 0 to 3 is never beyond the
    tuning. *)
Theorem ParseTuning_four_strings `{Externals} (str : string) (s : Song.t) :
  4 <= Go.len (ParseTuning str) /\
  (Song.Tuning s = None -> 4 <= Go.len (Song.GetTuning s)).
Proof.
  split; [apply ParseTuning_length|]. intros Hnone.
  unfold Song.GetTuning. rewrite Hnone.
  destruct (decide (Song.TuningStr s = "")); [vm_compute; discriminate|].
  apply ParseTuning_length.
Qed.

(** X14. The derivation of the expected note panics in two cases only.
    [NoteWithTuning] panics exactly when the string index is negative, or
    when, on a string of the tuning and a fret other than 0, the semitone
    of the open string plus the fret is negative and not a multiple of 12;
    [OctaveWithTuning] panics exactly when the string index is negative. *)
Theorem expected_note_panics (n : TabNote.t) (tuning : list StringTuning.t) :
  (TabNote.NoteWithTuning n tuning = None <->
   TabNote.String n < 0 \/
   exists openString,
     tuning !! Z.to_nat (TabNote.String n) = Some openString /\
     TabNote.Fret n <> 0 /\
     Go.add (StringTuning.Semitone openString) (TabNote.Fret n) < 0 /\
     Go.add (StringTuning.Semitone openString) (TabNote.Fret n) mod 12 <> 0) /\
  (TabNote.OctaveWithTuning n tuning = None <-> TabNote.String n < 0).
Proof.
  unfold TabNote.NoteWithTuning, TabNote.OctaveWithTuning, Go.index, Go.len.
  destruct (Z.leb_spec (Z.of_nat (length tuning)) (TabNote.String n)) as [Hbeyond|Hin].
  { split; split; try discriminate; try lia.
    intros [Hneg|(o & Ho & _)]; [lia|].
    apply lookup_lt_Some in Ho. lia. }
  destruct (Z.ltb_spec (TabNote.String n) 0) as [Hneg|Hpos];
    cbn [mbind option_bind].
  { split; split; auto. }
  assert (is_Some (tuning !! Z.to_nat (TabNote.String n))) as [o Ho]
    by (apply lookup_lt_is_Some; lia).
  rewrite Ho. cbn [mbind option_bind]. split; [|split; [discriminate|lia]].
  set (p := Go.add (StringTuning.Semitone o) (TabNote.Fret n)).
  destruct (Z.eqb_spec (TabNote.Fret n) 0) as [Hz|Hnz].
  { split; [discriminate|]. intros [?|(o' & _ & Hf & _)]; [lia|contradiction]. }
  unfold Go.rem.
  assert (-12 < Z.rem p 12 < 12) as Hrem
    by (pose proof (Z.rem_bound_abs p 12 ltac:(lia)); lia).
  assert (Z.rem p 12 < 0 <-> p < 0 /\ p mod 12 <> 0) as Hsign.
  { destruct (Z.le_gt_cases 0 p) as [Hp|Hp].
    - rewrite Z.rem_mod_nonneg by lia.
      pose proof (Z.mod_pos_bound p 12 ltac:(lia)). lia.
    - pose proof (Z.rem_opp_l' (- p) 12) as Ho'.
      rewrite Z.opp_involutive in Ho'. rewrite Ho'.
      rewrite Z.rem_mod_nonneg by lia.
      pose proof (Z.mod_pos_bound (- p) 12 ltac:(lia)).
      pose proof (Z.mod_pos_bound p 12 ltac:(lia)).
      split.
      + intros Hlt. split; [lia|]. intros Hm.
        apply Z.mod_divide in Hm; [|lia]. destruct Hm as [q Hq].
        assert ((- p) mod 12 = 0); [|lia].
        apply Z.mod_divide; [lia|]. exists (- q). lia.
      + intros [_ Hm].
        assert ((- p) mod 12 <> 0); [|lia].
        intros Hm'. apply Hm. apply Z.mod_divide in Hm'; [|lia].
        destruct Hm' as [q Hq]. apply Z.mod_divide; [lia|]. exists (- q). lia. }
  destruct (Z.ltb_spec (Z.rem p 12) 0) as [Hlt|Hge].
  - split; [intros _|reflexivity]. right. exists o.
    split; [reflexivity|]. split; [exact Hnz|]. apply Hsign, Hlt.
  - assert (is_Some (TabNote.notes !! Z.to_nat (Z.rem p 12))) as [name Hname].
    { apply lookup_lt_is_Some. unfold TabNote.notes. cbn [length]. lia. }
    rewrite Hname. split; [discriminate|].
    intros [?|(o' & Ho' & _ & Hp)]; [lia|]. injection Ho' as <-.
    apply Hsign in Hp. lia.
Qed.




(** ** The frequency table and the session as a whole *)

(** X16. Go ranges over the map of flat aliases in an order that changes
    from run to run; the table [buildNoteFrequencies] builds is the same
    for every order, and its keys are exactly the nineteen names in the
    octaves 0 to 4. *)
Theorem table_independent_of_range_order `{Externals}
    (order : list (string * string)) :
  order ≡ₚ HitDetector.flatNames ->
  HitDetector.buildNoteFrequenciesIn order = HitDetector.buildNoteFrequencies /\
  dom (HitDetector.buildNoteFrequenciesIn order) =
    list_to_set (C := gset string) tableKeys.
Proof.
  intros Hperm. rewrite (buildNoteFrequencies_any_order order Hperm).
  split; [reflexivity|apply dom_buildNoteFrequencies].
Qed.

Lemma table_independent_of_range_order_witness :
  HitDetector.buildNoteFrequenciesIn (H := Standin.externals)
    (reverse HitDetector.flatNames) =
  HitDetector.buildNoteFrequencies (H := Standin.externals) /\
  dom (HitDetector.buildNoteFrequenciesIn (H := Standin.externals)
         (reverse HitDetector.flatNames)) =
    list_to_set (C := gset string) tableKeys.
Proof.
  apply (table_independent_of_range_order (H := Standin.externals)
           (reverse HitDetector.flatNames)).
  apply reverse_Permutation.
Defined.

Lemma CalculateDuration_Notes (song : Song.t) :
  Song.Notes (Song.CalculateDuration song) = Song.Notes song.
Proof. unfold Song.CalculateDuration. destruct (last _); reflexivity. Qed.

Lemma notes_of_fresh `{Externals} (song : Song.t) :
  notes_of (fresh song) = Song.Notes song.
Proof. unfold notes_of, fresh. simpl. apply CalculateDuration_Notes. Qed.



(** ** The loader *)






(** ** The desktop application *)

(** A judgment leaves the clock, the flags and the chart data of the game
    untouched. *)
Lemma judge_step_frame (h h' : HitDetector.t) :
  judge_step h h' ->
  GameState.CurrentTime (HitDetector.state h') =
    GameState.CurrentTime (HitDetector.state h) /\
  GameState.IsFinished (HitDetector.state h') =
    GameState.IsFinished (HitDetector.state h) /\
  GameState.IsPlaying (HitDetector.state h') =
    GameState.IsPlaying (HitDetector.state h) /\
  Song.Duration (GameState.Song (HitDetector.state h')) =
    Song.Duration (GameState.Song (HitDetector.state h)) /\
  GameState.TotalNotes (HitDetector.state h') =
    GameState.TotalNotes (HitDetector.state h) /\
  forall j n', notes_of h' !! j = Some n' ->
    exists n, notes_of h !! j = Some n /\ TabNote.Time n' = TabNote.Time n.
Proof.
  intros [h0 i n q x y now Hn Hu].
  unfold register, notes_of, GameState.RegisterHit. simpl.
  destruct (negb (bool_decide (q = HitMiss))); simpl;
    (do 5 (split; [reflexivity|]));
    intros j n' Hn'; fold (notes_of h0) in *;
    (destruct (decide (j = i)) as [->|Hne];
     [rewrite list_lookup_alter_eq, Hn in Hn'; injection Hn' as <-;
      exists n; split; [exact Hn|reflexivity]
     |rewrite list_lookup_alter_ne in Hn' by congruence;
      exists n'; split; [exact Hn'|reflexivity]]).
Qed.

Lemma judge_steps_frame (h h' : HitDetector.t) :
  rtc judge_step h h' ->
  GameState.CurrentTime (HitDetector.state h') =
    GameState.CurrentTime (HitDetector.state h) /\
  GameState.IsFinished (HitDetector.state h') =
    GameState.IsFinished (HitDetector.state h) /\
  GameState.IsPlaying (HitDetector.state h') =
    GameState.IsPlaying (HitDetector.state h) /\
  Song.Duration (GameState.Song (HitDetector.state h')) =
    Song.Duration (GameState.Song (HitDetector.state h)) /\
  GameState.TotalNotes (HitDetector.state h') =
    GameState.TotalNotes (HitDetector.state h) /\
  forall j n', notes_of h' !! j = Some n' ->
    exists n, notes_of h !! j = Some n /\ TabNote.Time n' = TabNote.Time n.
Proof.
  induction 1 as [h|h1 h2 h3 Hs _ IH].
  { do 5 (split; [reflexivity|]). intros j n' Hn'. exists n'. eauto. }
  destruct (judge_step_frame _ _ Hs) as (E1 & E2 & E3 & E4 & E5 & Ht).
  destruct IH as (F1 & F2 & F3 & F4 & F5 & Ht').
  split; [congruence|]. split; [congruence|]. split; [congruence|].
  split; [congruence|]. split; [congruence|].
  intros j n3 Hn3. destruct (Ht' j n3 Hn3) as (n2 & Hn2 & Et).
  destruct (Ht j n2 Hn2) as (n1 & Hn1 & Et'). exists n1. split; [exact Hn1|].
  congruence.
Qed.

(** X19. When a game finishes, every note has been judged: in the frame in
    which the clock passes the end of the song, the miss sweep registers
    every note that is still not hit, provided every note lies at least
    two seconds before the end of the song (where [CalculateDuration] puts
    the end for a chart in time order). *)
Theorem finished_game_is_judged `{Externals} (pitch : PitchResult.t)
    (now : Q) (a a' : App.t) :
  App.state a = App.StatePlaying ->
  GameState.IsFinished (App.gameState a) = false ->
  (forall j n, notes_of (App.hitDetector a) !! j = Some n ->
     (TabNote.Time n + 2 <=
      Song.Duration (GameState.Song (App.gameState a)))%Q) ->
  App.Update pitch now a = Some a' ->
  GameState.IsFinished (App.gameState a') = true ->
  App.state a' = App.StateResults /\
  length (notes_of (App.hitDetector a')) =
    length (notes_of (App.hitDetector a)) /\
  forall j n', notes_of (App.hitDetector a') !! j = Some n' ->
    TabNote.Hit n' = true.
Proof.
  intros Hplay Hnf Hend Hup Hfin.
  unfold App.Update in Hup. rewrite Hplay in Hup. simpl in Hup.
  set (h1 := HitDetector.with_state (App.hitDetector a)
               (GameState.Update now (App.gameState a))) in *.
  destruct (HitDetector.CheckHit pitch _ now h1) as [h2|] eqn:Hc;
    simpl in Hup; [|discriminate].
  destruct (HitDetector.Update now h2) as [h3|] eqn:Hu; simpl in Hup;
    [|discriminate].
  injection Hup as <-. unfold App.gameState in *. simpl in *.
  rewrite Hfin. split; [reflexivity|].
  pose proof (judge_steps_frame _ _ (CheckHit_judges _ _ _ _ _ Hc))
    as (C1 & C2 & _ & C4 & _ & Ct).
  pose proof (judged_once_steps _ _ (CheckHit_judges _ _ _ _ _ Hc))
    as (CL & _).
  pose proof (judge_steps_frame _ _ (Update_loop_judges _ _ _ _ _ Hu))
    as (U1 & U2 & _).
  (* the clock has passed the end of the song *)
  assert (Song.Duration (GameState.Song (HitDetector.state (App.hitDetector a)))
          < GameState.CurrentTime (HitDetector.state h1))%Q as Hpast.
  { rewrite U2, C2 in Hfin. unfold h1, GameState.Update in Hfin |- *. simpl in *.
    destruct (negb (GameState.IsPlaying (HitDetector.state (App.hitDetector a))));
      simpl in *; [congruence|].
    destruct (Go.fgt _ _) eqn:Hgt; [|congruence].
    apply fgt_spec in Hgt. exact Hgt. }
  assert (notes_of h1 = notes_of (App.hitDetector a)) as En1.
  { unfold h1, notes_of, GameState.Update. simpl.
    destruct (negb (GameState.IsPlaying _)); reflexivity. }
  destruct (Update_loop_spec now (GameState.CurrentTime (HitDetector.state h2))
              (seq 0 (length (notes_of h2))) h2)
    as (h3' & Hrun & Hlen & _ & _ & Hnotes).
  { apply NoDup_seq. }
  { intros i Hi. apply elem_of_seq in Hi. lia. }
  unfold HitDetector.Update in Hu. fold (notes_of h2) in Hu.
  rewrite Hrun in Hu. injection Hu as ->.
  split; [rewrite Hlen, CL, En1; reflexivity|].
  intros j n3 Hn3.
  assert (is_Some (notes_of h2 !! j)) as [n2 Hn2].
  { apply lookup_lt_is_Some. rewrite <- Hlen. apply lookup_lt_is_Some. eauto. }
  destruct (Hnotes j n2 Hn2) as [Hmiss Hkeep].
  destruct (TabNote.Hit n2) eqn:Hh.
  { rewrite Hkeep in Hn3 by tauto. congruence. }
  destruct (Ct j n2 Hn2) as (n1 & Hn1 & Et).
  rewrite En1 in Hn1. specialize (Hend j n1 Hn1).
  assert (Go.fgt (GameState.CurrentTime (HitDetector.state h2) - TabNote.Time n2)
            MissWindow = true) as Hgt.
  { apply fgt_spec. rewrite C1, Et. unfold MissWindow. lra. }
  destruct (Hmiss ltac:(apply elem_of_seq; apply lookup_lt_Some in Hn2; lia)
              eq_refl Hgt) as [_ Hn3'].
  rewrite Hn3' in Hn3. injection Hn3 as <-. reflexivity.
Qed.

Lemma finished_game_is_judged_witness :
  let a0 := default
              (App.mk (PitchResult.mk 0 0 "" 0 0 0)
                 (fresh (H := Standin.externals) (Demo.chart [])) [] 0
                 App.StateMenu 0)
              (App.NewApp (H := Standin.externals) []) in
  let a := App.StartGame 0 a0 in
  let a' := default a (App.Update (H := Standin.externals)
                         (Demo.sample 41.2 0.9) 100 a) in
  App.state a' = App.StateResults /\
  length (notes_of (App.hitDetector a')) =
    length (notes_of (App.hitDetector a)) /\
  forall j n', notes_of (App.hitDetector a') !! j = Some n' ->
    TabNote.Hit n' = true.
Proof.
  intros a0 a a'.
  apply (finished_game_is_judged (H := Standin.externals)
           (Demo.sample 41.2 0.9) 100 a a').
  - reflexivity.
  - reflexivity.
  - intros j n Hn.
    do 8 (destruct j as [|j];
          [vm_compute in Hn; injection Hn as <-; vm_compute; discriminate|]).
    vm_compute in Hn. discriminate.
  - apply Some_default. vm_compute. reflexivity.
  - vm_compute. reflexivity.
Defined.

(** The scans of a chart whose notes are all hit do nothing. *)
Lemma Update_loop_idle (now ct : Q) (idxs : list nat) (h : HitDetector.t) :
  (forall j, j ∈ idxs ->
     exists n, notes_of h !! j = Some n /\ TabNote.Hit n = true) ->
  HitDetector.Update_loop now ct idxs h = Some h.
Proof.
  induction idxs as [|i rest IH]; intros Hall; [reflexivity|].
  destruct (Hall i ltac:(left)) as (n & Hn & Hh).
  simpl. fold (notes_of h). rewrite Hn. cbn [mbind option_bind]. rewrite Hh.
  apply IH. intros j Hj. apply Hall. right. exact Hj.
Qed.

Lemma frame_idle `{Externals} (pitch : PitchResult.t) (now : Q) (a : App.t) :
  exhausted (App.hitDetector a) ->
  exists a',
    App.Update pitch now a = Some a' /\
    exhausted (App.hitDetector a') /\
    notes_of (App.hitDetector a') = notes_of (App.hitDetector a) /\
    GameState.TotalNotes (App.gameState a') =
      GameState.TotalNotes (App.gameState a).
Proof.
  intros (Hall & Hs & Hc & Hmc & Hh & Hm).
  unfold App.Update.
  destruct (negb (bool_decide (App.state a = App.StatePlaying))).
  { eexists. split; [reflexivity|]. simpl.
    split; [repeat split; assumption|]. split; reflexivity. }
  set (h1 := HitDetector.with_state (App.hitDetector a)
               (GameState.Update now (App.gameState a))).
  assert (notes_of h1 = notes_of (App.hitDetector a) /\
          GameState.Score (HitDetector.state h1) = 0 /\
          GameState.Combo (HitDetector.state h1) = 0 /\
          GameState.MaxCombo (HitDetector.state h1) = 0 /\
          GameState.NotesHit (HitDetector.state h1) = 0 /\
          GameState.NotesMissed (HitDetector.state h1) = 0 /\
          GameState.TotalNotes (HitDetector.state h1) =
            GameState.TotalNotes (App.gameState a))
    as (En & Hs1 & Hc1 & Hmc1 & Hh1 & Hm1 & Ht1).
  { unfold h1, notes_of, App.gameState, GameState.Update. simpl.
    destruct (negb (GameState.IsPlaying _)); simpl; repeat split; assumption. }
  assert (forall j n, notes_of h1 !! j = Some n -> TabNote.Hit n = true)
    as Hall1 by (rewrite En; exact Hall).
  assert (HitDetector.CheckHit pitch
            (inject_Z App.screenWidth * App.PlayLineX) now h1 = Some h1) as Ec.
  { unfold HitDetector.CheckHit.
    destruct (negb (PitchResult.IsValid pitch)); [reflexivity|].
    apply CheckHit_loop_idle. fold (notes_of h1). intros j Hj.
    apply elem_of_seq in Hj.
    assert (is_Some (notes_of h1 !! j)) as [n Hn]
      by (apply lookup_lt_is_Some; lia).
    exists n. split; [exact Hn|]. left. eapply Hall1, Hn. }
  assert (HitDetector.Update now h1 = Some h1) as Eu.
  { unfold HitDetector.Update. apply Update_loop_idle. fold (notes_of h1).
    intros j Hj. apply elem_of_seq in Hj.
    assert (is_Some (notes_of h1 !! j)) as [n Hn]
      by (apply lookup_lt_is_Some; lia).
    exists n. split; [exact Hn|]. eapply Hall1, Hn. }
  rewrite Ec. cbn [mbind option_bind]. rewrite Eu. cbn [mbind option_bind].
  eexists. split; [reflexivity|]. unfold App.gameState. simpl.
  split; [repeat split; assumption|]. split; assumption.
Qed.

Lemma frames_idle `{Externals} (fs : list (PitchResult.t * Q)) (a : App.t) :
  exhausted (App.hitDetector a) ->
  exists a',
    App.frames fs a = Some a' /\
    exhausted (App.hitDetector a') /\
    notes_of (App.hitDetector a') = notes_of (App.hitDetector a) /\
    GameState.TotalNotes (App.gameState a') =
      GameState.TotalNotes (App.gameState a).
Proof.
  revert a. induction fs as [|[pitch now] fs IH]; intros a Hex.
  { exists a. split; [reflexivity|]. split; [exact Hex|]. split; reflexivity. }
  destruct (frame_idle pitch now a Hex) as (a1 & E1 & Hex1 & En1 & Et1).
  destruct (IH a1 Hex1) as (a2 & E2 & Hex2 & En2 & Et2).
  exists a2. simpl. rewrite E1. cbn [mbind option_bind].
  split; [exact E2|]. split; [exact Hex2|]. split; congruence.
Qed.

Lemma fresh_counters `{Externals} (song : Song.t) :
  GameState.Score (HitDetector.state (fresh song)) = 0 /\
  GameState.Combo (HitDetector.state (fresh song)) = 0 /\
  GameState.MaxCombo (HitDetector.state (fresh song)) = 0 /\
  GameState.NotesHit (HitDetector.state (fresh song)) = 0 /\
  GameState.NotesMissed (HitDetector.state (fresh song)) = 0 /\
  GameState.TotalNotes (HitDetector.state (fresh song)) =
    Go.len (Song.Notes song).
Proof.
  unfold fresh, HitDetector.New, GameState.New.
  cbn [HitDetector.state GameState.Score GameState.Combo GameState.MaxCombo
       GameState.NotesHit GameState.NotesMissed GameState.TotalNotes].
  rewrite CalculateDuration_Notes. repeat split; reflexivity.
Qed.

Lemma StartGame_frame (now : Q) (a : App.t) :
  notes_of (App.hitDetector (App.StartGame now a)) =
    notes_of (App.hitDetector a) /\
  GameState.Score (App.gameState (App.StartGame now a)) =
    GameState.Score (App.gameState a) /\
  GameState.Combo (App.gameState (App.StartGame now a)) =
    GameState.Combo (App.gameState a) /\
  GameState.MaxCombo (App.gameState (App.StartGame now a)) =
    GameState.MaxCombo (App.gameState a) /\
  GameState.NotesHit (App.gameState (App.StartGame now a)) =
    GameState.NotesHit (App.gameState a) /\
  GameState.NotesMissed (App.gameState (App.StartGame now a)) =
    GameState.NotesMissed (App.gameState a) /\
  GameState.TotalNotes (App.gameState (App.StartGame now a)) =
    GameState.TotalNotes (App.gameState a).
Proof. repeat split; reflexivity. Qed.

(** X20. Playing an exercise again: [GoToMenu] builds the new game state on
    the song of the last game, whose notes keep their hit marks. After a
    game in which every note was judged, the counters start again at zero
    and stay there: whatever is played, the next game of that exercise
    scores nothing, counts no hit and no miss, and ends with the grade S. *)
Theorem replay_scores_nothing `{Externals} (a : App.t) :
  App.consistent a ->
  (forall j n, notes_of (App.hitDetector a) !! j = Some n ->
     TabNote.Hit n = true) ->
  exists a1,
    App.GoToMenu a = Some a1 /\
    App.state a1 = App.StateMenu /\
    App.consistent a1 /\
    notes_of (App.hitDetector a1) = notes_of (App.hitDetector a) /\
    forall now fs,
      exists a2,
        App.frames fs (App.StartGame now a1) = Some a2 /\
        notes_of (App.hitDetector a2) = notes_of (App.hitDetector a) /\
        GameState.TotalNotes (App.gameState a2) =
          Go.len (notes_of (App.hitDetector a)) /\
        GameState.Score (App.gameState a2) = 0 /\
        GameState.MaxCombo (App.gameState a2) = 0 /\
        GameState.NotesHit (App.gameState a2) = 0 /\
        GameState.NotesMissed (App.gameState a2) = 0 /\
        getGrade (GameState_Accuracy (App.gameState a2)) = "S".
Proof.
  intros [Hrange Hcur] Hall.
  set (song := GameState.Song (App.gameState a)).
  assert (App.GoToMenu a =
          Some (App.mk (App.currentPitch a) (fresh song) (App.songs a)
                  (App.selectedIndex a) App.StateMenu
                  (Z.to_nat (App.selectedIndex a)))) as Ego.
  { unfold App.GoToMenu, App.SelectExercise.
    set (am := App.mk (App.currentPitch a) (App.hitDetector a)
                 (App.exercises a) (App.selectedIndex a) App.StateMenu
                 (App.current a)).
    change (App.exercises am) with (App.exercises a).
    change (App.songs am) with (App.songs a).
    change (App.currentPitch am) with (App.currentPitch a).
    change (App.state am) with App.StateMenu.
    change (App.selectedIndex am) with (App.selectedIndex a).
    destruct (Z.leb_spec 0 (App.selectedIndex a)); [|lia].
    destruct (Z.ltb_spec (App.selectedIndex a) (Go.len (App.exercises a)));
      [|lia].
    cbn [andb]. unfold Go.index.
    destruct (Z.ltb_spec (App.selectedIndex a) 0); [lia|].
    assert (App.songs a !! Z.to_nat (App.selectedIndex a) = Some song) as ->.
    { unfold App.songs. rewrite Hcur. apply list_lookup_insert_eq.
      unfold Go.len in Hrange. lia. }
    reflexivity. }
  set (a1 := App.mk (App.currentPitch a) (fresh song) (App.songs a)
               (App.selectedIndex a) App.StateMenu
               (Z.to_nat (App.selectedIndex a))) in *.
  assert (notes_of (fresh song) = notes_of (App.hitDetector a)) as En
    by (rewrite notes_of_fresh; reflexivity).
  exists a1. split; [exact Ego|].
  split; [reflexivity|].
  split.
  { split; [|reflexivity]. unfold a1. cbn [App.selectedIndex App.exercises].
    unfold App.songs, Go.len in *. rewrite length_insert. exact Hrange. }
  split; [exact En|].
  intros now fs.
  destruct (fresh_counters song) as (Fs & Fc & Fmc & Fh & Fm & Ft).
  destruct (StartGame_frame now a1) as (Sn & Ss & Sc & Smc & Sh & Sm & St).
  change (App.hitDetector a1) with (fresh song) in Sn.
  change (App.gameState a1) with (HitDetector.state (fresh song))
    in Ss, Sc, Smc, Sh, Sm, St.
  destruct (frames_idle fs (App.StartGame now a1))
    as (a2 & E2 & (_ & Hs & Hc & Hmc & Hh & Hm) & En2 & Et2).
  { split; [intros j n Hn; apply (Hall j n); rewrite <- En, <- Sn; exact Hn|].
    fold (App.gameState (App.StartGame now a1)).
    rewrite Ss, Sc, Smc, Sh, Sm. repeat split; assumption. }
  exists a2. split; [exact E2|].
  split; [rewrite En2, Sn; exact En|].
  split; [rewrite Et2, St, Ft, <- En, notes_of_fresh; reflexivity|].
  fold (App.gameState a2) in Hs, Hmc, Hh, Hm.
  split; [exact Hs|]. split; [exact Hmc|]. split; [exact Hh|].
  split; [exact Hm|].
  unfold GameState_Accuracy. rewrite Hh, Hm. reflexivity.
Qed.

Lemma replay_scores_nothing_witness :
  let a0 := default
              (App.mk (PitchResult.mk 0 0 "" 0 0 0)
                 (fresh (H := Standin.externals) (Demo.chart [])) [] 0
                 App.StateMenu 0)
              (App.NewApp (H := Standin.externals) []) in
  let a := default a0 (App.Update (H := Standin.externals)
                         (Demo.sample 41.2 0.9) 100 (App.StartGame 0 a0)) in
  exists a1,
    App.GoToMenu (H := Standin.externals) a = Some a1 /\
    App.state a1 = App.StateMenu /\
    App.consistent a1 /\
    notes_of (App.hitDetector a1) = notes_of (App.hitDetector a) /\
    forall now fs,
      exists a2,
        App.frames (H := Standin.externals) fs (App.StartGame now a1) =
          Some a2 /\
        notes_of (App.hitDetector a2) = notes_of (App.hitDetector a) /\
        GameState.TotalNotes (App.gameState a2) =
          Go.len (notes_of (App.hitDetector a)) /\
        GameState.Score (App.gameState a2) = 0 /\
        GameState.MaxCombo (App.gameState a2) = 0 /\
        GameState.NotesHit (App.gameState a2) = 0 /\
        GameState.NotesMissed (App.gameState a2) = 0 /\
        getGrade (GameState_Accuracy (App.gameState a2)) = "S".
Proof.
  intros a0 a.
  assert (App.consistent a) as Hc.
  { split; [vm_compute; split; [discriminate|reflexivity]|].
    vm_compute. reflexivity. }
  assert (forall j n, notes_of (App.hitDetector a) !! j = Some n ->
            TabNote.Hit n = true) as Hall.
  { intros j n Hn.
    do 8 (destruct j as [|j];
          [vm_compute in Hn; injection Hn as <-; reflexivity|]).
    vm_compute in Hn. discriminate. }
  exact (replay_scores_nothing (H := Standin.externals) a Hc Hall).
Defined.

(** ** The game store of the web build *)

Ltac store_solve :=
  unfold store_invariant in *; cbn [Web.state Web.currentTime Web.score
    Web.combo Web.maxCombo Web.notesHit Web.notesMissed Web.totalNotes
    Web.isPlaying Web.isFinished Web.floatingText length] in *;
  intuition (try discriminate; try congruence; try lia).

Lemma store_invariant_step (a : WebStore.action) (s : Web.GameStore) :
  store_invariant s -> store_invariant (WebStore.step a s).
Proof.
  intros Hinv.
  destruct a as [total| | | |q x y now| |time|olderThan];
    cbn [WebStore.step].
  - unfold WebStore.selectSong.
    destruct (decide (Web.state s = Web.MENU)) as [E|E];
      [rewrite bool_decide_eq_true_2 by exact E
      |rewrite bool_decide_eq_false_2 by exact E]; cbn [negb]; store_solve.
  - unfold WebStore.startPlaying.
    destruct (decide (Web.state s = Web.PRE_START)) as [E|E];
      [rewrite bool_decide_eq_true_2 by exact E
      |rewrite bool_decide_eq_false_2 by exact E]; cbn [negb];
      [|store_solve].
    destruct (Web.isFinished s) eqn:Ef; store_solve.
  - unfold WebStore.endGame.
    destruct (decide (Web.state s = Web.PLAYING)) as [E|E];
      [rewrite bool_decide_eq_true_2 by exact E
      |rewrite bool_decide_eq_false_2 by exact E]; cbn [negb]; store_solve.
  - unfold WebStore.returnToMenu, WebStore.createInitialGameState.
    store_solve.
  - unfold Web.recordHit.
    destruct (decide (Web.state s = Web.PLAYING)) as [E|E];
      [rewrite bool_decide_eq_true_2 by exact E
      |rewrite bool_decide_eq_false_2 by exact E]; cbn [negb];
      [|store_solve].
    assert (0 <= Web.hitQualityScore q * Web.getComboMultiplier (Web.combo s + 1)
            <= 400) as Hpts.
    { unfold Web.getComboMultiplier.
      destruct q; simpl;
        repeat match goal with
               | |- context [?a <=? ?b] => destruct (Z.leb_spec a b)
               end; lia. }
    set (pts := Web.hitQualityScore q *
                Web.getComboMultiplier (Web.combo s + 1)) in *.
    set (text := if 1 <? Web.getComboMultiplier (Web.combo s + 1)
                 then _ else _).
    pose proof (length_app (Web.floatingText s)
                  [FloatingScore.mk text x y now q]) as Hlen.
    cbn [length] in Hlen.
    destruct (Z.ltb_spec (Web.maxCombo s) (Web.combo s + 1)); store_solve.
  - unfold Web.recordMiss.
    destruct (decide (Web.state s = Web.PLAYING)) as [E|E];
      [rewrite bool_decide_eq_true_2 by exact E
      |rewrite bool_decide_eq_false_2 by exact E]; cbn [negb]; store_solve.
  - unfold WebStore.updateTime. store_solve.
  - unfold WebStore.clearFloatingText.
    pose proof (length_filter
                  (fun ft => Go.fgt (FloatingScore.StartTime ft) olderThan = true)
                  (Web.floatingText s)) as Hlen.
    assert (Web.floatingText s = [] ->
            filter (fun ft => Go.fgt (FloatingScore.StartTime ft) olderThan = true)
              (Web.floatingText s) = []) as Hnil by (intros ->; reflexivity).
    set (kept := filter _ (Web.floatingText s)) in *.
    store_solve.
Qed.

(** X21. The state machine of the web game store. After any sequence of
    calls on a new store: the store is playing exactly in the state
    PLAYING and finished exactly in the state RESULTS; the combo is between
    0 and the maximum combo, which is at most the number of hits; the score
    is between 0 and 400 points per hit; there is at most one floating text
    per hit; and in the states MENU and PRE_START every counter is 0, so
    that each game starts from nothing. *)
Theorem web_store_invariants (acts : list WebStore.action) :
  store_invariant (WebStore.steps acts WebStore.createInitialGameState).
Proof.
  induction acts as [|a acts IH] using rev_ind.
  - unfold WebStore.steps, WebStore.createInitialGameState.
    cbn [foldl]. store_solve.
  - unfold WebStore.steps in *. rewrite foldl_app. simpl.
    apply store_invariant_step, IH.
Qed.

(** X22. The two builds keep the same score: from equal counters, a hit of
    quality OK, Good or Perfect recorded by the web store while playing
    and registered by the desktop game state leaves equal counters (score,
    combo, maximum combo, hits, misses), and so does a miss; this needs
    the desktop counters to stay clear of the limits of [int]. A call of
    [recordHit] with the quality Miss, which its type allows, counts as a
    hit and extends the streak. *)
Theorem web_and_desktop_score_alike (s : Web.GameStore) (g : GameState.t)
    (q : HitQuality.t) (i : nat) (x y now x' y' now' : Q) :
  WebStore.same_counters s g ->
  Web.state s = Web.PLAYING ->
  0 <= GameState.Combo g < Go.int_max ->
  0 <= GameState.Score g <= Go.int_max - 400 ->
  0 <= GameState.NotesHit g < Go.int_max ->
  0 <= GameState.NotesMissed g < Go.int_max ->
  (q <> HitMiss ->
   WebStore.same_counters (Web.recordHit q x y now s)
     (GameState.RegisterHit g i q x' y' now')) /\
  WebStore.same_counters (Web.recordMiss s)
    (GameState.RegisterHit g i HitMiss x' y' now') /\
  Web.combo (Web.recordHit HitMiss x y now s) = Web.combo s + 1 /\
  Web.notesHit (Web.recordHit HitMiss x y now s) = Web.notesHit s + 1.
Proof.
  intros (Es & Ec & Emc & Eh & Em) Hplay Hc Hs Hh Hm.
  unfold Go.int_max in *.
  assert (forall z, - 2 ^ 63 <= z <= 2 ^ 63 - 1 -> Go.wrap64 z = z) as Hw.
  { intros z Hz. apply wrap64_id. unfold Go.is_int, Go.int_min, Go.int_max. lia. }
  split; [|split; [|split]].
  - intros Hq.
    destruct (RegisterHit_hit g i q x' y' now' Hq) as (Rc & Rmc & Rs & Rh & Rm).
    unfold WebStore.same_counters, Web.recordHit.
    rewrite bool_decide_eq_true_2 by exact Hplay.
    cbn [negb Web.score Web.combo Web.maxCombo Web.notesHit Web.notesMissed].
    rewrite Rc, Rmc, Rs, Rh, Rm. unfold Go.add, Go.mul.
    rewrite (Hw (GameState.Combo g + 1)) by lia.
    rewrite (Hw (GameState.NotesHit g + 1)) by lia.
    rewrite <- (multiplier_web (GameState.Combo g + 1)).
    assert (0 <= HitQuality.Score q *
                 Web.getComboMultiplier (GameState.Combo g + 1) <= 400) as Hpts.
    { unfold Web.getComboMultiplier.
      destruct q; simpl;
        repeat match goal with
               | |- context [?a <=? ?b] => destruct (Z.leb_spec a b)
               end; lia. }
    rewrite (Hw (HitQuality.Score q * _)) by lia.
    rewrite (Hw (GameState.Score g + _)) by lia.
    rewrite Es, Ec, Emc, Eh, Em.
    assert (Web.hitQualityScore q = HitQuality.Score q) as -> by (destruct q; reflexivity).
    repeat split; reflexivity.
  - destruct (RegisterHit_miss g i x' y' now') as (Rc & Rmc & Rs & Rh & Rm).
    unfold WebStore.same_counters, Web.recordMiss.
    rewrite bool_decide_eq_true_2 by exact Hplay.
    cbn [negb Web.score Web.combo Web.maxCombo Web.notesHit Web.notesMissed].
    rewrite Rc, Rmc, Rs, Rh, Rm. unfold Go.add.
    rewrite (Hw (GameState.Score g + 0)) by lia.
    rewrite (Hw (GameState.NotesMissed g + 1)) by lia.
    rewrite Es, Emc, Eh, Em. repeat split; lia.
  - unfold Web.recordHit. rewrite bool_decide_eq_true_2 by exact Hplay.
    reflexivity.
  - unfold Web.recordHit. rewrite bool_decide_eq_true_2 by exact Hplay.
    reflexivity.
Qed.

Lemma web_and_desktop_score_alike_witness :
  let s := Web.mkGameStore Web.PLAYING 0 900 9 9 9 0 20 true false [] in
  let g := Demo.streak [Demo.note 2.0 3 0] 9 900 in
  (HitGood <> HitMiss ->
   WebStore.same_counters (Web.recordHit HitGood 1 2 3 s)
     (GameState.RegisterHit g 0 HitGood 4 5 6)) /\
  WebStore.same_counters (Web.recordMiss s)
    (GameState.RegisterHit g 0 HitMiss 4 5 6) /\
  Web.combo (Web.recordHit HitMiss 1 2 3 s) = Web.combo s + 1 /\
  Web.notesHit (Web.recordHit HitMiss 1 2 3 s) = Web.notesHit s + 1.
Proof.
  intros s g.
  apply (web_and_desktop_score_alike s g HitGood 0 1 2 3 4 5 6).
  - vm_compute. repeat split; reflexivity.
  - reflexivity.
  - vm_compute. split; [discriminate|reflexivity].
  - vm_compute. split; discriminate.
  - vm_compute. split; [discriminate|reflexivity].
  - vm_compute. split; [discriminate|reflexivity].
Defined.

(** X23. The two builds show the same accuracy: from equal counters that
    are not negative (and clear of the limit of [int] on the desktop), the
    percentage of [calculateAccuracy] equals that of [Accuracy], and lies
    between 0 and 100. *)
Theorem web_and_desktop_accuracy_alike (s : Web.GameStore) (g : GameState.t) :
  WebStore.same_counters s g ->
  0 <= GameState.NotesHit g -> 0 <= GameState.NotesMissed g ->
  GameState.NotesHit g + GameState.NotesMissed g <= Go.int_max ->
  (WebStore.calculateAccuracy s == GameState_Accuracy g)%Q /\
  (0 <= WebStore.calculateAccuracy s <= 100)%Q.
Proof.
  intros (_ & _ & _ & Eh & Em) Hh Hm Hmax.
  assert (WebStore.calculateAccuracy s == GameState_Accuracy g)%Q as Heq.
  { unfold WebStore.calculateAccuracy, GameState_Accuracy, Go.add.
    rewrite wrap64_id by (unfold Go.is_int, Go.int_min, Go.int_max in *; lia).
    rewrite Eh, Em.
    destruct (GameState.NotesHit g + GameState.NotesMissed g =? 0);
      [reflexivity|].
    unfold Qeq, Qdiv, Qmult. simpl. lia. }
  split; [exact Heq|]. rewrite Heq. apply Accuracy_range; assumption.
Qed.

Lemma web_and_desktop_accuracy_alike_witness :
  let s := Web.mkGameStore Web.RESULTS 0 900 0 9 17 3 20 false true [] in
  let g := GameState.mk (Demo.chart []) 0 0 900 0 9 17 3 20 false true [] [] in
  (WebStore.calculateAccuracy s == GameState_Accuracy g)%Q /\
  (0 <= WebStore.calculateAccuracy s <= 100)%Q.
Proof.
  intros s g. apply (web_and_desktop_accuracy_alike s g).
  - vm_compute. repeat split; reflexivity.
  - vm_compute. discriminate.
  - vm_compute. discriminate.
  - vm_compute. discriminate.
Defined.
